(** * Keypoint labeler: the image canvas, its undo stack and the sidecar JSON I/O

    A shallow embedding of [src/viewer/canvas.py] (class [ImageCanvas]),
    [src/viewer/json_io.py] (class [JSONIO]) and the load/save path of
    [src/app.py].

    Numbers: Python [int] is [Z].  The round trip between [draw_keypoints]
    and [screen_to_image_coords] is modelled in IEEE 754 binary64
    ([SpecFloat]), as CPython computes it; elsewhere the float arithmetic
    of the view transform (zoom factor, scale ratios) is computed exactly
    in [Q].  The Qt integer geometry ([QSize], [QRect], [QPoint]) is [Z]. *)

From Stdlib Require Import ZArith QArith Qpower Qround Lia Lqa String Ascii SpecFloat.
From Stdlib Require Import DecimalString DecimalZ DecimalPos.
From stdpp Require Import base list.

Open Scope Z_scope.

(* ------------------------------------------------------------------ *)
(** ** Python numeric helpers *)

(** Python [int(q)] on a float: truncation towards zero. *)
Definition py_int (q : Q) : Z := Z.quot (Qnum q) (Zpos (Qden q)).

(** Python [max]/[min] on two ints (the first argument wins ties, which
    does not matter for ints). *)
Definition py_max (a b : Z) : Z := if a <? b then b else a.
Definition py_min (a b : Z) : Z := if b <? a then b else a.

(* ------------------------------------------------------------------ *)
(** ** Qt geometry used by the canvas *)

(** [QSize::scaled(s, Qt::KeepAspectRatio)] for a size [(wd, ht)] and a
    target [(tw, th)] (Qt's qsizelike integer arithmetic, qint64). *)
Definition qsize_scaled_keep (wd ht tw th : Z) : Z * Z :=
  if (wd =? 0) || (ht =? 0) then (tw, th)
  else
    let rw := Z.quot (th * wd) ht in
    if rw <=? tw then (rw, th)
    else (tw, Z.quot (tw * ht) wd).

(** Size of [QPixmap::scaled(s, Qt::KeepAspectRatio, ...)]: a null pixmap
    for an empty target, otherwise the aspect-kept size, at least 1x1. *)
Definition qpixmap_scaled_size (pw ph tw th : Z) : Z * Z :=
  if (tw <=? 0) || (th <=? 0) then (0, 0)
  else
    let '(w, h) := qsize_scaled_keep pw ph tw th in
    (Z.max w 1, Z.max h 1).

(** [QRect(x, y, w, h).contains(p)] (non-proper): Qt stores the right and
    bottom edges as [x + w - 1] and [y + h - 1]. *)
Definition qrect_contains (r : Z * Z * Z * Z) (p : Z * Z) : bool :=
  let '(x, y, w, h) := r in
  let x1 := x in let x2 := x + w - 1 in
  let y1 := y in let y2 := y + h - 1 in
  let '(l, rr) := if x2 <? x1 - 1 then (x2, x1) else (x1, x2) in
  let '(t, b) := if y2 <? y1 - 1 then (y2, y1) else (y1, y2) in
  negb ((fst p <? l) || (rr <? fst p)) && negb ((snd p <? t) || (b <? snd p)).

(* ------------------------------------------------------------------ *)
(** ** Canvas state *)

(** [self.keypoints]: a list of [[x, y]] lists; a keypoint is a pair. *)
Abbreviation point := (Z * Z)%type.

(** The [action_type] strings used by [save_state_for_undo]. *)
Inductive action := Add | Delete | Move.

(** The [data] dictionaries passed to [save_state_for_undo]. *)
Inductive undo_data :=
| AddData (position : point)
| DeleteData (index : Z) (pt : point)
| MoveData (index : Z) (old_position new_position : point).

(** One entry of [self.undo_stack]. *)
Record undo_state := {
  action_type : action;
  keypoints_before : list point;
  selected_point_before : Z;
  data : undo_data
}.

(** The fields of [ImageCanvas] the claims read or write.  [pixmap] is the
    size of [self.pixmap] ([None] when no image is loaded) and
    [widget_size] is [self.size()] (= [self.width()], [self.height()]). *)
Record canvas := {
  keypoints : list point;
  selected_point : Z;
  last_added_point : Z;
  zoom_factor : Q;
  pan_offset : Z * Z;
  undo_stack : list undo_state;
  pixmap : option (Z * Z);
  widget_size : Z * Z
}.

Definition max_undo_steps : Z := 50.

(* ------------------------------------------------------------------ *)
(** ** View transform *)

Section View.
Variable s : canvas.

(** [zoomed_size] as computed in [paintEvent], [screen_to_image_coords]
    and [get_image_rect]. *)
Definition zoomed_size : Z * Z :=
  (py_int (inject_Z (fst (widget_size s)) * zoom_factor s)%Q,
   py_int (inject_Z (snd (widget_size s)) * zoom_factor s)%Q).

(** [scaled_pixmap.size()] for pixmap size [(pw, ph)]. *)
Definition scaled_size (pw ph : Z) : Z * Z :=
  qpixmap_scaled_size pw ph (fst zoomed_size) (snd zoomed_size).

(** Top-left corner of the drawn image: [(self.width() - sw) // 2 + pan]. *)
Definition image_origin (pw ph : Z) : Z * Z :=
  let '(sw, sh) := scaled_size pw ph in
  ((fst (widget_size s) - sw) / 2 + fst (pan_offset s),
   (snd (widget_size s) - sh) / 2 + snd (pan_offset s)).

(** [ImageCanvas.get_image_rect]. *)
Definition get_image_rect : Z * Z * Z * Z :=
  match pixmap s with
  | None => (0, 0, 0, 0)
  | Some (pw, ph) =>
      let '(sw, sh) := scaled_size pw ph in
      let '(x, y) := image_origin pw ph in
      (x, y, sw, sh)
  end.

(** [ImageCanvas.screen_to_image_coords].  A zero-sized content would
    raise [ZeroDivisionError] in Python; [Qdiv] by zero gives 0 here, and
    no claim reaches that case. *)
Definition screen_to_image_coords (screen_pos : Z * Z) : option point :=
  match pixmap s with
  | None => None
  | Some (pw, ph) =>
      let '(sw, sh) := scaled_size pw ph in
      let '(image_x, image_y) := image_origin pw ph in
      if (image_x <=? fst screen_pos) && (fst screen_pos <=? image_x + sw) &&
         (image_y <=? snd screen_pos) && (snd screen_pos <=? image_y + sh)
      then
        let rel_x := (inject_Z (fst screen_pos - image_x) / inject_Z sw * inject_Z pw)%Q in
        let rel_y := (inject_Z (snd screen_pos - image_y) / inject_Z sh * inject_Z ph)%Q in
        Some (py_int rel_x, py_int rel_y)
      else None
  end.

End View.

(** A view at native size: 800x600 widget, 800x600 image, zoom 1.0. *)
Definition view_native : canvas := {|
  keypoints := []; selected_point := -1; last_added_point := -1;
  zoom_factor := 1%Q; pan_offset := (0, 0); undo_stack := [];
  pixmap := Some (800, 600); widget_size := (800, 600) |}.

(* ------------------------------------------------------------------ *)
(** ** Field updates of the canvas ([self.x = ...]) *)

Definition with_keypoints (s : canvas) (k : list point) : canvas :=
  {| keypoints := k; selected_point := selected_point s;
     last_added_point := last_added_point s; zoom_factor := zoom_factor s;
     pan_offset := pan_offset s; undo_stack := undo_stack s;
     pixmap := pixmap s; widget_size := widget_size s |}.

Definition with_selected (s : canvas) (i : Z) : canvas :=
  {| keypoints := keypoints s; selected_point := i;
     last_added_point := last_added_point s; zoom_factor := zoom_factor s;
     pan_offset := pan_offset s; undo_stack := undo_stack s;
     pixmap := pixmap s; widget_size := widget_size s |}.

Definition with_last_added (s : canvas) (i : Z) : canvas :=
  {| keypoints := keypoints s; selected_point := selected_point s;
     last_added_point := i; zoom_factor := zoom_factor s;
     pan_offset := pan_offset s; undo_stack := undo_stack s;
     pixmap := pixmap s; widget_size := widget_size s |}.

Definition with_zoom (s : canvas) (z : Q) : canvas :=
  {| keypoints := keypoints s; selected_point := selected_point s;
     last_added_point := last_added_point s; zoom_factor := z;
     pan_offset := pan_offset s; undo_stack := undo_stack s;
     pixmap := pixmap s; widget_size := widget_size s |}.

Definition with_pan (s : canvas) (p : Z * Z) : canvas :=
  {| keypoints := keypoints s; selected_point := selected_point s;
     last_added_point := last_added_point s; zoom_factor := zoom_factor s;
     pan_offset := p; undo_stack := undo_stack s;
     pixmap := pixmap s; widget_size := widget_size s |}.

Definition with_stack (s : canvas) (st : list undo_state) : canvas :=
  {| keypoints := keypoints s; selected_point := selected_point s;
     last_added_point := last_added_point s; zoom_factor := zoom_factor s;
     pan_offset := pan_offset s; undo_stack := st;
     pixmap := pixmap s; widget_size := widget_size s |}.

(* ------------------------------------------------------------------ *)
(** ** [ImageCanvas.wheelEvent] *)

(** Python [min(a, b)] / [max(a, b)] on floats: the first argument is
    returned unless the second is strictly smaller / larger. *)
Definition py_fmin (a b : Q) : Q := if Qlt_le_dec b a then b else a.
Definition py_fmax (a b : Q) : Q := if Qlt_le_dec a b then b else a.

(** [wheelEvent]: with Ctrl held, zoom by 1.1 ([angleDelta().y() > 0]) or
    0.9, clamp to [0.1, 10.0], and when the zoom changed and the cursor is
    inside [get_image_rect] (taken after the zoom update, as in the source)
    recompute [pan_offset]; without Ctrl the event goes to [QWidget] and
    the canvas state is unchanged. *)
Definition wheelEvent (s : canvas) (ctrl : bool) (delta : Z) (mouse_pos : Z * Z) : canvas :=
  if ctrl then
    let zoom_factor_change := if 0 <? delta then (11 # 10)%Q else (9 # 10)%Q in
    let old_zoom := zoom_factor s in
    let z := py_fmax (1 # 10) (py_fmin 10 (old_zoom * zoom_factor_change)) in
    let s1 := with_zoom s z in
    if negb (Qeq_bool z old_zoom) then
      if qrect_contains (get_image_rect s1) mouse_pos then
        let zoom_ratio := (z / old_zoom)%Q in
        let new_pan_x := (inject_Z (fst mouse_pos) -
                          inject_Z (fst mouse_pos - fst (pan_offset s)) * zoom_ratio)%Q in
        let new_pan_y := (inject_Z (snd mouse_pos) -
                          inject_Z (snd mouse_pos - snd (pan_offset s)) * zoom_ratio)%Q in
        with_pan s1 (py_int new_pan_x, py_int new_pan_y)
      else s1
    else s1
  else s.

(* ------------------------------------------------------------------ *)
(** ** Python list operations on [self.keypoints] (in-range uses only) *)

Definition zlen {A} (l : list A) : Z := Z.of_nat (length l).

(** [l[i]]; every call site checks [0 <= i < len(l)] first. *)
Definition py_get (l : list point) (i : Z) : point := default (0, 0) (l !! Z.to_nat i).

(** [l[i] = v] and [del l[i]]. *)
Definition py_set (l : list point) (i : Z) (v : point) : list point := <[Z.to_nat i := v]> l.
Definition py_del (l : list point) (i : Z) : list point := delete (Z.to_nat i) l.

(* ------------------------------------------------------------------ *)
(** ** Undo stack *)

(** [self.undo_stack.append(state)] followed by [pop(0)] when the length
    exceeds [max_undo_steps]. *)
Definition push_undo (st : list undo_state) (e : undo_state) : list undo_state :=
  let st' := st ++ [e] in
  if max_undo_steps <? zlen st' then drop 1 st' else st'.

(** [ImageCanvas.save_state_for_undo]: the snapshot is taken from the
    current state ([[kp.copy() for kp in self.keypoints]] is a value copy). *)
Definition save_state_for_undo (s : canvas) (a : action) (d : undo_data) : canvas :=
  with_stack s (push_undo (undo_stack s)
    {| action_type := a; keypoints_before := keypoints s;
       selected_point_before := selected_point s; data := d |}).

(** Python return values of the methods. *)
Inductive py_ret := PyNone | PyBool (b : bool).

(** [ImageCanvas.undo]: it has no [return] with a value, so it returns
    [None] on every path.  [pop()] removes the last entry. *)
Definition undo (s : canvas) : py_ret * canvas :=
  match rev (undo_stack s) with
  | [] => (PyNone, s)
  | previous_state :: rest =>
      let s0 := with_stack s (rev rest) in
      match action_type previous_state with
      | Move =>
          match data previous_state with
          | MoveData index old_position _ =>
              if (0 <=? index) && (index <? zlen (keypoints s0)) then
                (PyNone, with_selected
                           (with_keypoints s0 (py_set (keypoints s0) index old_position))
                           index)
              else (PyNone, s0)
          | _ => (PyNone, s0)
          end
      | a =>
          let s1 := with_selected (with_keypoints s0 (keypoints_before previous_state))
                                  (selected_point_before previous_state) in
          match a with
          | Add => (PyNone, with_last_added s1 (-1))
          | _ => (PyNone, s1)
          end
      end
  end.

(** The state after [undo()]. *)
Definition undo_st (s : canvas) : canvas := snd (undo s).

(** [n] calls of [undo()]. *)
Fixpoint undo_n (n : nat) (s : canvas) : canvas :=
  match n with
  | O => s
  | S n' => undo_n n' (undo_st s)
  end.

(* ------------------------------------------------------------------ *)
(** ** Editing operations *)

(** [ImageCanvas.select_keypoint]. *)
Definition select_keypoint (s : canvas) (index : Z) : canvas := with_selected s index.

(** [ImageCanvas.move_selected_point]: clamp to the pixmap (or 9999 without
    one), record the move with the pre-move position, then write. *)
Definition move_selected_point (s : canvas) (dx dy : Z) : canvas :=
  let sel := selected_point s in
  if (sel <? 0) || (zlen (keypoints s) <=? sel) then s
  else
    let '(x, y) := py_get (keypoints s) sel in
    let '(xmax, ymax) := match pixmap s with
                         | Some (pw, ph) => (pw - 1, ph - 1)
                         | None => (9999, 9999)
                         end in
    let new_x := py_max 0 (py_min xmax (x + dx)) in
    let new_y := py_max 0 (py_min ymax (y + dy)) in
    let old_position := py_get (keypoints s) sel in
    let s1 := save_state_for_undo s Move (MoveData sel old_position (new_x, new_y)) in
    with_keypoints s1 (py_set (keypoints s1) sel (new_x, new_y)).

(** [ImageCanvas.delete_selected_point] (the Delete key). *)
Definition delete_selected_point (s : canvas) : canvas :=
  let sel := selected_point s in
  if (0 <=? sel) && (sel <? zlen (keypoints s)) then
    let s1 := save_state_for_undo s Delete (DeleteData sel (py_get (keypoints s) sel)) in
    with_selected (with_keypoints s1 (py_del (keypoints s1) sel)) (-1)
  else s.

(** [ImageCanvas.handle_right_click]: delete the most recently added point. *)
Definition handle_right_click (s : canvas) : canvas :=
  let last := last_added_point s in
  if (0 <=? last) && (last <? zlen (keypoints s)) then
    let s1 := save_state_for_undo s Delete (DeleteData last (py_get (keypoints s) last)) in
    let s2 := with_keypoints s1 (py_del (keypoints s1) last) in
    let sel := selected_point s2 in
    let s3 := if sel =? last then with_selected s2 (-1)
              else if last <? sel then with_selected s2 (sel - 1)
              else s2 in
    with_last_added s3 (-1)
  else s.

(** The nearest-point loop of [handle_point_click].  The source compares
    [distance = sqrt(d2) < min_distance], where [min_distance] starts as the
    integer hit radius [r] and is then replaced by the last accepted
    distance; [sqrt] is monotone, so the loop keeps the squared bound [md2]
    ([r * r] at first) and compares [d2 < md2]. *)
Definition sq_dist (ip p : point) : Z :=
  (fst p - fst ip) * (fst p - fst ip) + (snd p - snd ip) * (snd p - snd ip).

Fixpoint closest_loop (kps : list point) (i : Z) (ip : point) (md2 closest : Z) : Z :=
  match kps with
  | [] => closest
  | p :: rest =>
      let d2 := sq_dist ip p in
      if d2 <? md2 then closest_loop rest (i + 1) ip d2 i
      else closest_loop rest (i + 1) ip md2 closest
  end.

(** [min_distance = max(10, int(base_min_distance / self.zoom_factor))]. *)
Definition hit_radius (s : canvas) : Z := py_max 10 (py_int (20 / zoom_factor s)%Q).

Definition closest_point (s : canvas) (ip : point) : Z :=
  closest_loop (keypoints s) 0 ip (hit_radius s * hit_radius s) (-1).

(** [ImageCanvas.handle_point_click]: select the nearest point within the
    hit radius, or else record an [add] and append a point. *)
Definition handle_point_click (s : canvas) (pos : Z * Z) : canvas :=
  match screen_to_image_coords s pos with
  | None => s
  | Some image_pos =>
      let closest := closest_point s image_pos in
      if 0 <=? closest then with_selected s closest
      else
        let s1 := save_state_for_undo s Add (AddData image_pos) in
        let s2 := with_keypoints s1 (keypoints s1 ++ [image_pos]) in
        let sel := zlen (keypoints s2) - 1 in
        with_last_added (with_selected s2 sel) sel
  end.

(* ------------------------------------------------------------------ *)
(** ** Runs of edits and concrete canvases *)

(** A sequence of recorded edits. *)
Definition pushes (st : list undo_state) (es : list undo_state) : list undo_state :=
  fold_left push_undo es st.

(** A recorded [add] of point (0, 0) into an empty sequence. *)
Definition entry_add0 : undo_state :=
  {| action_type := Add; keypoints_before := []; selected_point_before := -1;
     data := AddData (0, 0) |}.

(** Three points, the last one selected, the point at index 1 the most
    recently added. *)
Definition three_points : canvas := {|
  keypoints := [(0, 0); (1, 1); (2, 2)]; selected_point := 2; last_added_point := 1;
  zoom_factor := 1%Q; pan_offset := (0, 0); undo_stack := [];
  pixmap := Some (800, 600); widget_size := (800, 600) |}.

(** One point at image (100, 100) selected, on the native-size view. *)
Definition one_point : canvas := {|
  keypoints := [(100, 100)]; selected_point := 0; last_added_point := -1;
  zoom_factor := 1%Q; pan_offset := (0, 0); undo_stack := [];
  pixmap := Some (800, 600); widget_size := (800, 600) |}.

(** Consecutive keyboard nudges [(dx, dy)] of the selected point
    ([keyPressEvent] calls [move_selected_point] once per arrow key). *)
Definition nudges (s : canvas) (ds : list (Z * Z)) : canvas :=
  fold_left (fun t d => move_selected_point t (fst d) (snd d)) ds s.

(** The clamped target and the undo entry of [move_selected_point]. *)
Definition move_target (t : canvas) (dx dy : Z) : point :=
  let '(x, y) := py_get (keypoints t) (selected_point t) in
  let '(xmax, ymax) := match pixmap t with
                       | Some (pw, ph) => (pw - 1, ph - 1)
                       | None => (9999, 9999)
                       end in
  (py_max 0 (py_min xmax (x + dx)), py_max 0 (py_min ymax (y + dy))).

Definition move_entry (t : canvas) (dx dy : Z) : undo_state :=
  {| action_type := Move; keypoints_before := keypoints t;
     selected_point_before := selected_point t;
     data := MoveData (selected_point t) (py_get (keypoints t) (selected_point t))
                      (move_target t dx dy) |}.

(** The entries recorded by a run of nudges, oldest first. *)
Fixpoint nudge_entries (t : canvas) (ds : list (Z * Z)) : list undo_state :=
  match ds with
  | [] => []
  | d :: ds' => move_entry t (fst d) (snd d) ::
                nudge_entries (move_selected_point t (fst d) (snd d)) ds'
  end.

(** Two points at distance 22 from image (30, 30) at zoom 0.9, shown in
    the 800x600 widget. *)
Definition tie_view : canvas := {|
  keypoints := [(52, 30); (30, 52)]; selected_point := -1; last_added_point := -1;
  zoom_factor := (9 # 10)%Q; pan_offset := (0, 0); undo_stack := [];
  pixmap := Some (800, 600); widget_size := (800, 600) |}.

(** Two points at distance 5 from image (30, 30) at zoom 1.0. *)
Definition tie_view_near : canvas := {|
  keypoints := [(35, 30); (30, 35)]; selected_point := -1; last_added_point := -1;
  zoom_factor := 1%Q; pan_offset := (0, 0); undo_stack := [];
  pixmap := Some (800, 600); widget_size := (800, 600) |}.

(* ------------------------------------------------------------------ *)
(** ** The view transform in binary64 floats *)

(** The rounding of Python floats matters for the round trip of
    [draw_keypoints] and [screen_to_image_coords], so this part of the view
    is also modelled with IEEE 754 binary64 arithmetic (the Standard
    Library's [SpecFloat]: precision 53, [emax] 1024, round to nearest,
    ties to even), as CPython computes it. *)

(** A Python [float]. *)
Definition double := spec_float.

(** Python [float * float]. *)
Definition py_fmul (a b : double) : double := SFmul 53 1024 a b.

(** Python [float / float] (the divisor is non-zero wherever it is used). *)
Definition py_fdiv (a b : double) : double := SFdiv 53 1024 a b.

(** Python [float(n)] for an int [n], also used when an int meets a float
    in [*]: correctly rounded, [OverflowError] ([None]) beyond the range. *)
Definition py_float_of_int (z : Z) : option double :=
  match binary_normalize 53 1024 z 0 false with
  | S754_infinity _ => None
  | f => Some f
  end.

(** An int as an exact, not necessarily normalised, float operand. *)
Definition sf_of_Z (z : Z) : spec_float :=
  match z with
  | Z0 => S754_zero false
  | Zpos p => S754_finite false p 0
  | Zneg p => S754_finite true p 0
  end.

(** Python [a / b] on ints: the exact quotient correctly rounded;
    [ZeroDivisionError] and [OverflowError] are [None]. *)
Definition py_int_truediv (a b : Z) : option double :=
  if b =? 0 then None
  else match SFdiv 53 1024 (sf_of_Z a) (sf_of_Z b) with
       | S754_infinity _ => None
       | f => Some f
       end.

(** Python [int(f)]: truncation towards zero; [inf] and [nan] raise. *)
Definition py_int_of_float (f : double) : option Z :=
  match f with
  | S754_zero _ => Some 0
  | S754_finite s m e =>
      let t := if 0 <=? e then Zpos m * 2 ^ e else Zpos m / 2 ^ (- e) in
      Some (if s then - t else t)
  | _ => None
  end.

(** Python [max(a, b)] on floats: [b] only when [b > a]. *)
Definition py_fmax_f (a b : double) : double := if SFltb a b then b else a.

(** The float literals [1.0], [1.2] and [0.1]. *)
Definition f_one : double := S754_finite false 4503599627370496 (-52).
Definition f_1_2 : double := S754_finite false 5404319552844595 (-52).
Definition f_0_1 : double := S754_finite false 7205759403792794 (-56).

(** A Python int passed to a C [int] parameter of Qt (as in
    [QSize(w, h)]): [OverflowError] outside the 32-bit range. *)
Definition to_c_int (z : Z) : option Z :=
  if (- 2 ^ 31 <=? z) && (z <? 2 ^ 31) then Some z else None.

(** The fields of [ImageCanvas] the view transform reads, with
    [zoom_factor] a binary64 float. *)
Record fview := {
  fpixmap : option (Z * Z);
  fwidget_size : Z * Z;
  fzoom_factor : double;
  fpan_offset : Z * Z
}.

Definition fview_with_zoom (v : fview) (z : double) : fview :=
  {| fpixmap := fpixmap v; fwidget_size := fwidget_size v;
     fzoom_factor := z; fpan_offset := fpan_offset v |}.

(** [ImageCanvas.zoom_out]: [zoom_factor /= 1.2], then [max(0.1, ...)]. *)
Definition zoom_out_f (v : fview) : fview :=
  fview_with_zoom v (py_fmax_f f_0_1 (py_fdiv (fzoom_factor v) f_1_2)).

Section FloatView.
Variable v : fview.

(** [QSize(int(w * zoom_factor), int(h * zoom_factor))], as computed in
    [paintEvent] and [screen_to_image_coords]. *)
Definition zoomed_size_f : option (Z * Z) :=
  let '(w, h) := fwidget_size v in
  match py_float_of_int w, py_float_of_int h with
  | Some wf, Some hf =>
      match py_int_of_float (py_fmul wf (fzoom_factor v)),
            py_int_of_float (py_fmul hf (fzoom_factor v)) with
      | Some zw, Some zh =>
          match to_c_int zw, to_c_int zh with
          | Some zw', Some zh' => Some (zw', zh')
          | _, _ => None
          end
      | _, _ => None
      end
  | _, _ => None
  end.

(** [self.pixmap.scaled(zoomed_size, Qt.KeepAspectRatio, ...).size()]. *)
Definition scaled_size_f (pw ph : Z) : option (Z * Z) :=
  match zoomed_size_f with
  | Some (tw, th) => Some (qpixmap_scaled_size pw ph tw th)
  | None => None
  end.

(** [(self.width() - sw) // 2 + self.pan_offset.x()], likewise for y. *)
Definition image_origin_f (sw sh : Z) : Z * Z :=
  ((fst (fwidget_size v) - sw) / 2 + fst (fpan_offset v),
   (snd (fwidget_size v) - sh) / 2 + snd (fpan_offset v)).

(** The screen position [draw_keypoints] gives to image point [p], with
    the offset and [image_size] passed by [paintEvent]:
    [scale_x = image_size.width() / self.pixmap.width()] and
    [screen_x = int(x * scale_x) + offset_x]. *)
Definition draw_position_f (p : point) : option (Z * Z) :=
  match fpixmap v with
  | None => None
  | Some (pw, ph) =>
      match scaled_size_f pw ph with
      | None => None
      | Some (sw, sh) =>
          let '(ox, oy) := image_origin_f sw sh in
          match py_int_truediv sw pw, py_int_truediv sh ph with
          | Some scale_x, Some scale_y =>
              match py_float_of_int (fst p), py_float_of_int (snd p) with
              | Some fx, Some fy =>
                  match py_int_of_float (py_fmul fx scale_x),
                        py_int_of_float (py_fmul fy scale_y) with
                  | Some sx, Some sy => Some (sx + ox, sy + oy)
                  | _, _ => None
                  end
              | _, _ => None
              end
          | _, _ => None
          end
      end
  end.

(** [ImageCanvas.screen_to_image_coords]:
    [rel_x = (screen_pos.x() - image_x) / scaled_pixmap.width() * self.pixmap.width()],
    likewise [rel_y], and the result is [(int(rel_x), int(rel_y))]. *)
Definition screen_to_image_coords_f (screen_pos : Z * Z) : option point :=
  match fpixmap v with
  | None => None
  | Some (pw, ph) =>
      match scaled_size_f pw ph with
      | None => None
      | Some (sw, sh) =>
          let '(image_x, image_y) := image_origin_f sw sh in
          if (image_x <=? fst screen_pos) && (fst screen_pos <=? image_x + sw) &&
             (image_y <=? snd screen_pos) && (snd screen_pos <=? image_y + sh)
          then
            match py_int_truediv (fst screen_pos - image_x) sw,
                  py_int_truediv (snd screen_pos - image_y) sh,
                  py_float_of_int pw, py_float_of_int ph with
            | Some ax, Some ay, Some pwf, Some phf =>
                match py_int_of_float (py_fmul ax pwf),
                      py_int_of_float (py_fmul ay phf) with
                | Some rel_x, Some rel_y => Some (rel_x, rel_y)
                | _, _ => None
                end
            | _, _, _, _ => None
            end
          else None
      end
  end.

End FloatView.

(** The minimum-size widget (400x300) at zoom 1.0 with a 1000x1000 image. *)
Definition fview_small : fview := {|
  fpixmap := Some (1000, 1000); fwidget_size := (400, 300);
  fzoom_factor := f_one; fpan_offset := (0, 0) |}.

(** A 2401x2401 image in a 400x305 widget after ten [zoom_out] steps from
    zoom 1.0: the content is 49x49. *)
Definition fview_shrunk : fview :=
  Nat.iter 10 zoom_out_f {|
    fpixmap := Some (2401, 2401); fwidget_size := (400, 305);
    fzoom_factor := f_one; fpan_offset := (0, 0) |}.

(** *** Error bounds used in the proofs *)

(** The rational value of a finite float. *)
Definition Q2 (e : Z) : Q := Qpower (inject_Z 2) e.

Definition fval (f : spec_float) : Q :=
  match f with
  | S754_finite s m e => (if s then -1 else 1) * inject_Z (Zpos m) * Q2 e
  | _ => 0
  end%Q.

(** A relative error bound [2^-50], looser than the unit roundoff [2^-53]. *)
Definition eta : Q := 1 # 1125899906842624.

(** [v] is [a] up to one relative rounding error. *)
Definition rel (a v : Q) : Prop := ((1 - eta) * a <= v <= (1 + eta) * a)%Q.

(** What the location [l] of [binary_round_aux] says about the exact value
    [v] of a mantissa [m] at exponent [e]. *)
Definition bracket (m e : Z) (l : location) (v : Q) : Prop :=
  match l with
  | loc_Exact => (v == inject_Z m * Q2 e)%Q
  | loc_Inexact _ => (inject_Z m * Q2 e <= v <= inject_Z (m + 1) * Q2 e)%Q
  end.

(** A non-negative, canonical float. *)
Definition fnn (f : double) : Prop :=
  match f with
  | S754_zero _ => True
  | S754_finite false m _ => Zpos m < 2 ^ 53
  | _ => False
  end.

(** A value well inside the normal range, where products neither overflow
    nor underflow. *)
Definition in_range (v : Q) : Prop :=
  (0 <= v <= 1073741824 # 1)%Q /\ (v == 0 \/ 1 # 1073741824 <= v)%Q.

(* ------------------------------------------------------------------ *)
(** ** JSON values as [json.load] returns them *)

(** A Python float: finite values are exact rationals; [json.load] maps a
    number literal too large for a double (such as [1e400]) to [inf]. *)
Inductive pyfloat := FFin (q : Q) | FInf | FNegInf | FNaN.

(** The Python values [json.load] produces: [None], [bool], [int],
    [float], [str], [list] and [dict] (an association list, keys in
    insertion order). *)
Set Warnings "-register-all".
Inductive pyval :=
| PNone
| PBool (b : bool)
| PInt (z : Z)
| PFloat (f : pyfloat)
| PStr (s : string)
| PList (l : list pyval)
| PDict (d : list (string * pyval)).

(** [d[k]] / [k in d] on a dict. *)
Fixpoint dict_get (d : list (string * pyval)) (k : string) : option pyval :=
  match d with
  | [] => None
  | (k', v) :: rest => if String.eqb k k' then Some v else dict_get rest k
  end.

(** [d[k] = v]: an existing key keeps its position. *)
Fixpoint dict_set (d : list (string * pyval)) (k : string) (v : pyval) : list (string * pyval) :=
  match d with
  | [] => [(k, v)]
  | (k', v') :: rest => if String.eqb k k' then (k', v) :: rest else (k', v') :: dict_set rest k v
  end.

(** [d.update(other)]. *)
Definition dict_update (d other : list (string * pyval)) : list (string * pyval) :=
  fold_left (fun acc kv => dict_set acc (fst kv) (snd kv)) other d.

(** [round(v)] for a Python number, as an [int]: [round] on an int (or a
    bool, a subclass of int) is the value itself; on a float it rounds half
    to even and raises on [inf] or [nan] ([None] here). *)
Definition round_half_even (q : Q) : Z :=
  let f := Qfloor q in
  let r := (q - inject_Z f)%Q in
  if Qlt_le_dec r (1 # 2) then f
  else if Qeq_dec r (1 # 2) then (if Z.even f then f else f + 1)
  else f + 1.

Definition py_round (v : pyval) : option Z :=
  match v with
  | PBool b => Some (if b then 1 else 0)
  | PInt z => Some z
  | PFloat (FFin q) => Some (round_half_even q)
  | _ => None
  end.

(** [isinstance(v, (int, float))]; [bool] is a subclass of [int]. *)
Definition is_int_or_float (v : pyval) : bool :=
  match v with
  | PBool _ | PInt _ | PFloat _ => true
  | _ => false
  end.

(** The body of the loop over [coordinates] in [load_keypoints]. *)
Inductive coord_step := Skip | Keep (p : point) | Raise.

Definition coord_entry (coord : pyval) : coord_step :=
  match coord with
  | PList [x; y] =>
      if is_int_or_float x && is_int_or_float y then
        match py_round x, py_round y with
        | Some a, Some b => Keep (a, b)
        | _, _ => Raise
        end
      else Skip
  | _ => Skip
  end.

(** The loop: [None] when an exception escapes it. *)
Fixpoint valid_coords (coordinates : list pyval) : option (list point) :=
  match coordinates with
  | [] => Some []
  | c :: rest =>
      match coord_entry c with
      | Skip => valid_coords rest
      | Keep p => option_map (cons p) (valid_coords rest)
      | Raise => None
      end
  end.

(** [JSONIO.load_keypoints] after [json.load] has returned [data] (an
    existing file holding well-formed JSON), without the [except] clauses:
    [None] when an exception is raised.  For a non-dict [data] the test
    ['coord' in data] is a membership or substring test (or raises), and
    [data['coord']] then raises; every such path ends in [[]]. *)
Definition load_keypoints_body (data : pyval) : option (list point) :=
  match data with
  | PDict d =>
      match dict_get d "coord" with
      | Some (PList coordinates) => valid_coords coordinates
      | _ => Some []
      end
  | PList l => if existsb (fun v => match v with PStr k => String.eqb k "coord" | _ => false end) l
               then None else Some []
  | PStr s => match String.index 0 "coord" s with Some _ => None | None => Some [] end
  | _ => None
  end.

(** [JSONIO.load_keypoints]: [except Exception] turns any exception into
    [[]]. *)
Definition load_keypoints (data : pyval) : list point :=
  match load_keypoints_body data with
  | Some l => l
  | None => []
  end.

(** [JSONIO.save_keypoints(file_path, keypoints, additional_data)]: the
    object written to the file ([json.dump] of it reads back as the same
    value).  [additional_data] is merged only when it is a non-empty dict
    (Python truthiness). *)
Definition coord_list (keypoints : list point) : pyval :=
  PList (map (fun p => PList [PInt (fst p); PInt (snd p)]) keypoints).

Definition save_keypoints (keypoints : list point)
           (additional_data : option (list (string * pyval))) : pyval :=
  let data := [("coord"%string, coord_list keypoints)] in
  match additional_data with
  | Some ((_ :: _) as extra) => PDict (dict_update data extra)
  | _ => PDict data
  end.

(** The application's path for one image ([KeypointLabeler.load_file] then
    [save_current]): the sidecar is read with [load_keypoints], the editor
    turns the loaded sequence into [edit loaded], and [save_current] calls
    [JSONIO.save_keypoints(json_path, self.keypoints)] with no
    [additional_data].  The result is the new sidecar content. *)
Definition app_load_edit_save (sidecar : pyval) (edit : list point -> list point) : pyval :=
  save_keypoints (edit (load_keypoints sidecar)) None.

(** [JSONIO.load_with_metadata] on parsed [data] that is a dict: a missing
    ['coord'] is added as [[]]. *)
Definition load_with_metadata (d : list (string * pyval)) : list (string * pyval) :=
  match dict_get d "coord" with
  | Some _ => d
  | None => dict_set d "coord" (PList [])
  end.

(** [JSONIO.save_with_metadata(file_path, data)] =
    [save_keypoints(file_path, data['coord'], data)], for [data] whose
    ['coord'] is a list of integer pairs (decoded into [kps]). *)
Definition save_with_metadata (kps : list point) (d : list (string * pyval)) : pyval :=
  save_keypoints kps (Some d).

(** The sidecar [{"coord": [[10, 20], [30, 5]], "note": "x"}]. *)
Definition sidecar_note_fields : list (string * pyval) :=
  [("coord"%string, PList [PList [PInt 10; PInt 20]; PList [PInt 30; PInt 5]]);
   ("note"%string, PStr "x")].

(** The numeric value of a JSON number as [isinstance] sees it (a [bool]
    counts as the int 0 or 1). *)
Definition num_value (v : pyval) : option Q :=
  match v with
  | PBool b => Some (if b then 1%Q else 0%Q)
  | PInt z => Some (inject_Z z)
  | PFloat (FFin q) => Some q
  | _ => None
  end.

Definition is_nonfinite (v : pyval) : bool :=
  match v with
  | PFloat (FInf | FNegInf | FNaN) => true
  | _ => false
  end.

(** What a two-element entry of numbers contributes: its rounded values. *)
Definition spec_entry (c : pyval) : option point :=
  match c with
  | PList [x; y] =>
      match num_value x, num_value y with
      | Some a, Some b => Some (round_half_even a, round_half_even b)
      | _, _ => None
      end
  | _ => None
  end.

(** A two-element entry of numbers one of which is [inf], [-inf] or [nan]. *)
Definition nonfinite_entry (c : pyval) : bool :=
  match c with
  | PList [x; y] => is_int_or_float x && is_int_or_float y && (is_nonfinite x || is_nonfinite y)
  | _ => false
  end.

(* ------------------------------------------------------------------ *)
(** ** [Tools] ([src/viewer/tools.py]): point geometry *)

(** [Tools.validate_coordinates]. *)
Definition validate_coordinates (x y image_width image_height : Z) : Z * Z :=
  (py_max 0 (py_min (image_width - 1) x), py_max 0 (py_min (image_height - 1) y)).

(** A value of [Tools.calculate_distance]: [math.sqrt(d2)] of a square sum
    [d2], kept as [d2] (the square root is computed exactly, as the other
    float arithmetic here), or [float('inf')]. *)
Inductive pydist := DSqrt (d2 : Z) | DInf.

(** [a < b] on two such values ([sqrt] is strictly increasing on [d2 >= 0];
    every finite value is below [inf], and [inf < inf] is false). *)
Definition dist_lt (a b : pydist) : bool :=
  match a, b with
  | DSqrt x, DSqrt y => x <? y
  | DSqrt _, DInf => true
  | DInf, _ => false
  end.

(** [Tools.calculate_distance] on two [[x, y]] points (its [len != 2]
    branch is for malformed points, which a pair cannot be). *)
Definition calculate_distance (point1 point2 : point) : pydist :=
  let dx := fst point1 - fst point2 in
  let dy := snd point1 - snd point2 in
  DSqrt (dx * dx + dy * dy).

(** The loop of [Tools.find_closest_point], from index [i]. *)
Fixpoint find_closest_loop (points : list point) (i : Z) (target : point)
         (min_distance : pydist) (closest_index : Z) : Z * pydist :=
  match points with
  | [] => (closest_index, min_distance)
  | p :: rest =>
      let distance := calculate_distance target p in
      if dist_lt distance min_distance
      then find_closest_loop rest (i + 1) target distance i
      else find_closest_loop rest (i + 1) target min_distance closest_index
  end.

(** [Tools.find_closest_point]. *)
Definition find_closest_point (target : point) (points : list point) : Z * pydist :=
  match points with
  | [] => (-1, DInf)
  | _ => find_closest_loop points 0 target DInf (-1)
  end.

(** Python [min(v for ...)] / [max(v for ...)] over a non-empty sequence
    [h :: t]: the running value is replaced only by a strictly smaller
    (larger) element. *)
Definition py_min_seq (h : Z) (t : list Z) : Z := fold_left (fun m v => if v <? m then v else m) t h.
Definition py_max_seq (h : Z) (t : list Z) : Z := fold_left (fun m v => if m <? v then v else m) t h.

(** [Tools.calculate_bounding_box]: [(min_x, min_y, width, height)]. *)
Definition calculate_bounding_box (points : list point) : option (Z * Z * Z * Z) :=
  match points with
  | [] => None
  | p :: rest =>
      let min_x := py_min_seq (fst p) (map fst rest) in
      let max_x := py_max_seq (fst p) (map fst rest) in
      let min_y := py_min_seq (snd p) (map snd rest) in
      let max_y := py_max_seq (snd p) (map snd rest) in
      Some (min_x, min_y, max_x - min_x, max_y - min_y)
  end.

(** Python [sum] of ints. *)
Definition sum_list (l : list Z) : Z := fold_left Z.add l 0.

(** Python slicing [l[start:stop]] (step 1): negative bounds count from the
    end, then both are clamped to [[0, len(l)]]. *)
Definition py_slice {A} (l : list A) (start stop : Z) : list A :=
  let n := zlen l in
  let norm i := if i <? 0 then Z.max 0 (i + n) else Z.min i n in
  let a := norm start in
  let b := norm stop in
  if a <? b then take (Z.to_nat (b - a)) (drop (Z.to_nat a) l) else [].

(** [range(n)]. *)
Definition zrange (n : Z) : list Z := map Z.of_nat (seq 0 (Z.to_nat n)).

(** Run a loop body over a sequence, stopping at the first exception
    ([None]). *)
Fixpoint map_or_raise {A B} (f : A -> option B) (l : list A) : option (list B) :=
  match l with
  | [] => Some []
  | a :: rest =>
      match f a with
      | Some b => option_map (cons b) (map_or_raise f rest)
      | None => None
      end
  end.

(** One iteration of the loop of [Tools.smooth_keypoints]:
    [avg_x = sum(p[0] for p in window_points) / len(window_points)] in
    binary64, then [int(avg_x)]; [None] is the [ZeroDivisionError] of an
    empty window (or an [OverflowError]). *)
Definition smooth_at (points : list point) (window_size : Z) (i : Z) : option point :=
  let start := py_max 0 (i - window_size / 2) in
  let end_ := py_min (zlen points) (i + window_size / 2 + 1) in
  let window_points := py_slice points start end_ in
  if zlen window_points =? 0 then None
  else
    let n := zlen window_points in
    match py_int_truediv (sum_list (map fst window_points)) n,
          py_int_truediv (sum_list (map snd window_points)) n with
    | Some avg_x, Some avg_y =>
        match py_int_of_float avg_x, py_int_of_float avg_y with
        | Some x, Some y => Some (x, y)
        | _, _ => None
        end
    | _, _ => None
    end.

(** [Tools.smooth_keypoints]: [None] when it raises. *)
Definition smooth_keypoints (points : list point) (window_size : Z) : option (list point) :=
  if zlen points <? window_size then Some points
  else map_or_raise (smooth_at points window_size) (zrange (zlen points)).

(** The points [Tools.interpolate_keypoints] emits for the segment
    [p1 -> p2]: [t = j / num_points] for [j] in [range(num_points)].  The
    coordinates are computed exactly in [Q] here, where Python rounds [t]
    and [p1[0] + t * (p2[0] - p1[0])] to binary64; what is proved about
    this function below depends only on how many points it emits. *)
Definition interp_segment (p1 p2 : point) (num_points : Z) : list point :=
  map (fun j =>
         let t := (inject_Z j / inject_Z num_points)%Q in
         (py_int (inject_Z (fst p1) + t * inject_Z (fst p2 - fst p1))%Q,
          py_int (inject_Z (snd p1) + t * inject_Z (snd p2 - snd p1))%Q))
      (zrange num_points).

Fixpoint interp_pairs (points : list point) (num_points : Z) : list point :=
  match points with
  | p1 :: ((p2 :: _) as rest) => interp_segment p1 p2 num_points ++ interp_pairs rest num_points
  | _ => []
  end.

(** [Tools.interpolate_keypoints]: the segments, then [points[-1]]. *)
Definition interpolate_keypoints (points : list point) (num_points : Z) : list point :=
  if zlen points <? 2 then points
  else
    match last points with
    | Some p => interp_pairs points num_points ++ [p]
    | None => []
    end.

(* ------------------------------------------------------------------ *)
(** ** [JSONIO] ([src/viewer/json_io.py]): the other entry points *)

(** [JSONIO.validate_keypoints]. *)
Definition validate_keypoints (keypoints : pyval) : bool :=
  match keypoints with
  | PList l =>
      forallb (fun coord =>
                 match coord with
                 | PList [x; y] => is_int_or_float x && is_int_or_float y
                 | _ => false
                 end) l
  | _ => false
  end.

(** [dict.get(k, default)]. *)
Definition dict_get_default (d : list (string * pyval)) (k : string) (dflt : pyval) : pyval :=
  match dict_get d k with Some v => v | None => dflt end.

(** The flat COCO list: [x, y, 2] per point. *)
Definition keypoints_flat (keypoints : list point) : list pyval :=
  concat (map (fun p => [PInt (fst p); PInt (snd p); PInt 2]) keypoints).

(** [JSONIO.export_to_coco]: the ['keypoints'] entry of the annotation,
    created as [[]], is then assigned [keypoints_flat] (an existing key keeps
    its position). *)
Definition export_to_coco (keypoints : list point) (image_info : list (string * pyval))
  : list (string * pyval) :=
  [("images"%string,
     PList [PDict [("id"%string, PInt 1);
                   ("file_name"%string, dict_get_default image_info "file_name" (PStr "image.jpg"));
                   ("width"%string, dict_get_default image_info "width" (PInt 0));
                   ("height"%string, dict_get_default image_info "height" (PInt 0))]]);
   ("annotations"%string,
     PList [PDict [("id"%string, PInt 1); ("image_id"%string, PInt 1);
                   ("category_id"%string, PInt 1);
                   ("keypoints"%string, PList (keypoints_flat keypoints));
                   ("num_keypoints"%string, PInt (zlen keypoints))]]);
   ("categories"%string,
     PList [PDict [("id"%string, PInt 1); ("name"%string, PStr "keypoints");
                   ("supercategory"%string, PStr "keypoints")]])].

(** [len(v)] on a JSON value ([None]: [TypeError]). *)
Definition py_len (v : pyval) : option Z :=
  match v with
  | PList l => Some (zlen l)
  | PDict d => Some (zlen d)
  | PStr s => Some (Z.of_nat (String.length s))
  | _ => None
  end.

(** [v[i]] with an int [0 <= i]: a list element, a one-character string;
    a dict (string keys) raises [KeyError], an out-of-range index
    [IndexError], a number [TypeError]. *)
Definition py_item (v : pyval) (i : Z) : option pyval :=
  match v with
  | PList l => l !! Z.to_nat i
  | PStr s => option_map (fun c => PStr (String c EmptyString)) (String.get (Z.to_nat i) s)
  | _ => None
  end.

(** [k in v] for a string [k]: a key of a dict, an element of a list, a
    substring of a string; a number or [None] raises [TypeError]. *)
Definition py_contains (v : pyval) (k : string) : option bool :=
  match v with
  | PDict d => Some (if dict_get d k then true else false)
  | PList l => Some (existsb (fun e => match e with PStr k' => String.eqb k k' | _ => false end) l)
  | PStr s => Some (if String.index 0 k s then true else false)
  | _ => None
  end.

(** [v[k]] for a string [k]: only a dict has it ([KeyError] when the key
    is missing, [TypeError] on the other types). *)
Definition py_getitem_str (v : pyval) (k : string) : option pyval :=
  match v with
  | PDict d => dict_get d k
  | _ => None
  end.

(** [range(0, n, 3)]. *)
Definition range_step3 (n : Z) : list Z :=
  map (fun k => 3 * Z.of_nat k) (seq 0 (Z.to_nat ((n + 2) / 3))).

Section Coco.

(** [int(s)] on a [str] ([None]: [ValueError]). *)
Variable str_to_int : string -> option Z.

(** [int(v)]: a [bool] or an [int] is itself, a finite [float] is
    truncated, [inf] raises [OverflowError] and [nan] [ValueError]; a
    string is parsed; [None], a list or a dict raises [TypeError]. *)
Definition py_int_of (v : pyval) : option Z :=
  match v with
  | PBool b => Some (if b then 1 else 0)
  | PInt z => Some z
  | PFloat (FFin q) => Some (py_int q)
  | PFloat _ => None
  | PStr s => str_to_int s
  | _ => None
  end.

(** The loop of [JSONIO.import_from_coco] over [range(0, len, 3)]. *)
Fixpoint coco_loop (flat : pyval) (n : Z) (idx : list Z) : option (list point) :=
  match idx with
  | [] => Some []
  | i :: rest =>
      if i + 1 <? n then
        match py_item flat i, py_item flat (i + 1) with
        | Some x, Some y =>
            match py_int_of x, py_int_of y with
            | Some a, Some b => option_map (cons (a, b)) (coco_loop flat n rest)
            | _, _ => None
            end
        | _, _ => None
        end
      else coco_loop flat n rest
  end.

(** [JSONIO.import_from_coco] on a dict ([None]: it raises). *)
Definition import_from_coco (coco_data : list (string * pyval)) : option (list point) :=
  match dict_get coco_data "annotations" with
  | None => Some []
  | Some anns =>
      match py_len anns with
      | None => None
      | Some m =>
          if 0 <? m then
            match py_item anns 0 with
            | None => None
            | Some annotation =>
                match py_contains annotation "keypoints" with
                | None => None
                | Some false => Some []
                | Some true =>
                    match py_getitem_str annotation "keypoints" with
                    | None => None
                    | Some flat =>
                        match py_len flat with
                        | None => None
                        | Some n => coco_loop flat n (range_step3 n)
                        end
                    end
                end
            end
          else Some []
      end
  end.

End Coco.

(** Text as a list of code points. *)

(** Backtracking: the first alternative, in priority order, that leads to a
    match. *)
Fixpoint first_some {A B} (f : A -> option B) (l : list A) : option B :=
  match l with
  | [] => None
  | a :: rest => match f a with Some b => Some b | None => first_some f rest end
  end.

(** The ways [c*] (greedy) splits [s] into a run of [c] characters and the
    rest, longest run first. *)
Fixpoint spans (p : Z -> bool) (s : list Z) : list (list Z * list Z) :=
  match s with
  | [] => [([], [])]
  | c :: r =>
      if p c then map (fun tr => (c :: fst tr, snd tr)) (spans p r) ++ [([], s)]
      else [([], s)]
  end.

(** The ways [.*?] (lazy, [re.DOTALL]) splits [s], shortest first. *)
Fixpoint lazy_spans (s : list Z) : list (list Z * list Z) :=
  match s with
  | [] => [([], [])]
  | c :: r => ([], s) :: map (fun tr => (c :: fst tr, snd tr)) (lazy_spans r)
  end.

(** [s] starts with [pre]: the rest. *)
Fixpoint strip_prefix (pre s : list Z) : option (list Z) :=
  match pre, s with
  | [], _ => Some s
  | c :: pre', d :: s' => if c =? d then strip_prefix pre' s' else None
  | _ :: _, [] => None
  end.

(** ["coord"] with its quotes. *)
Definition quoted_coord : list Z := [34; 99; 111; 111; 114; 100; 34].

Section Recover.

(** [\s] and [\d] of [re] on [str] patterns, and the value [int()] gives a
    [\d] character. *)
Variable is_space : Z -> bool.
Variable is_digit : Z -> bool.
Variable digit_val : Z -> Z.

(** [r'"coord"\s*:\s*\[(.*?)\]'] matched at the start of [s]: group 1. *)
Definition coord_match_at (s : list Z) : option (list Z) :=
  match strip_prefix quoted_coord s with
  | None => None
  | Some s1 =>
      first_some (fun ts =>
        match snd ts with
        | 58 :: s3 =>
            first_some (fun ts' =>
              match snd ts' with
              | 91 :: s5 =>
                  first_some (fun gr =>
                    match snd gr with
                    | 93 :: _ => Some (fst gr)
                    | _ => None
                    end) (lazy_spans s5)
              | _ => None
              end) (spans is_space s3)
        | _ => None
        end) (spans is_space s1)
  end.

(** [re.search]: the leftmost position with a match. *)
Fixpoint search_coord (s : list Z) : option (list Z) :=
  match coord_match_at s with
  | Some g => Some g
  | None => match s with [] => None | _ :: r => search_coord r end
  end.

(** [r'\[(\d+),\s*(\d+)\]'] matched at the start of [s]: both groups and
    the text after the match. *)
Definition pair_match_at (s : list Z) : option (list Z * list Z * list Z) :=
  match s with
  | 91 :: s1 =>
      first_some (fun xr =>
        match fst xr, snd xr with
        | _ :: _, 44 :: s3 =>
            first_some (fun ts =>
              first_some (fun yr =>
                match fst yr, snd yr with
                | _ :: _, 93 :: s6 => Some (fst xr, fst yr, s6)
                | _, _ => None
                end) (spans is_digit (snd ts))) (spans is_space s3)
        | _, _ => None
        end) (spans is_digit s1)
  | _ => None
  end.

(** [re.findall] of that pattern: after a match the scan resumes at its
    end, otherwise one character later ([fuel] bounds the scan; the length
    of the text plus one is enough, a match being never empty). *)
Fixpoint findall_pairs (fuel : nat) (s : list Z) : list (list Z * list Z) :=
  match fuel with
  | O => []
  | S f =>
      match s with
      | [] => []
      | _ :: r =>
          match pair_match_at s with
          | Some (x, y, rest) => (x, y) :: findall_pairs f rest
          | None => findall_pairs f r
          end
      end
  end.

(** [int(x_str)] for a run of [\d] characters. *)
Definition digits_value (ds : list Z) : Z := fold_left (fun acc c => acc * 10 + digit_val c) ds 0.

(** The text branch of [JSONIO._try_recover_keypoints] on the file's
    content. *)
Definition recover_from_text (content : list Z) : list point :=
  match search_coord content with
  | Some coord_str =>
      map (fun xy => (digits_value (fst xy), digits_value (snd xy)))
          (findall_pairs (S (length coord_str)) coord_str)
  | None => []
  end.

(** Whether a path exists, the text of a file ([None]: opening, decoding
    or reading raises), and [JSONIO.load_keypoints] on a path. *)
Variable file_exists : string -> bool.
Variable read_text : string -> option (list Z).
Variable load_keypoints_file : string -> list point.

(** [JSONIO._try_recover_keypoints]. *)
Definition try_recover_keypoints (file_path : string) : list point :=
  let backup_path := (file_path ++ ".bak")%string in
  if file_exists backup_path then load_keypoints_file backup_path
  else
    match read_text file_path with
    | None => []
    | Some content => recover_from_text content
    end.

End Recover.

(* ------------------------------------------------------------------ *)
(** ** [ImageCanvas]: zoom and view operations *)

(** [ImageCanvas.zoom_in]: [zoom_factor *= 1.2], then [min(10.0, ...)]. *)
Definition zoom_in (s : canvas) : canvas :=
  with_zoom s (py_fmin 10 (zoom_factor s * (6 # 5))%Q).

(** [ImageCanvas.zoom_out]: [zoom_factor /= 1.2], then [max(0.1, ...)]. *)
Definition zoom_out (s : canvas) : canvas :=
  with_zoom s (py_fmax (1 # 10) (zoom_factor s / (6 # 5))%Q).

(** [ImageCanvas.fit_to_window]: only when an image is loaded. *)
Definition fit_to_window (s : canvas) : canvas :=
  match pixmap s with
  | Some _ => with_pan (with_zoom s 1%Q) (0, 0)
  | None => s
  end.

(** [ImageCanvas.reset_view] on the fields of [canvas]: zoom 1.0 and pan
    (0, 0); its DICOM window level/width reset touches no field here. *)
Definition reset_view (s : canvas) : canvas := with_pan (with_zoom s 1%Q) (0, 0).

(** [ImageCanvas.get_zoom_percentage]: [int(self.zoom_factor * 100)]. *)
Definition get_zoom_percentage (s : canvas) : Z := py_int (zoom_factor s * 100)%Q.

(** [ImageCanvas.set_keypoints]: new sequence, no selection, and
    [clear_undo_stack] (empty stack, [last_added_point = -1]). *)
Definition set_keypoints (s : canvas) (k : list point) : canvas :=
  with_last_added (with_stack (with_selected (with_keypoints s k) (-1)) []) (-1).

(** [ImageCanvas.handle_point_drag]; [None] is the [IndexError] of
    [self.keypoints[self.selected_point] = [x, y]] for an index past the
    end. *)
Definition handle_point_drag (s : canvas) (pos : Z * Z) : option canvas :=
  if selected_point s <? 0 then Some s
  else
    match screen_to_image_coords s pos with
    | None => Some s
    | Some image_pos =>
        let '(x, y) := match pixmap s with
                       | Some (pw, ph) => (py_max 0 (py_min (pw - 1) (fst image_pos)),
                                           py_max 0 (py_min (ph - 1) (snd image_pos)))
                       | None => image_pos
                       end in
        if zlen (keypoints s) <=? selected_point s then None
        else Some (with_keypoints s (py_set (keypoints s) (selected_point s) (x, y)))
    end.

(* ------------------------------------------------------------------ *)
(** ** [ImageCanvas]: mouse and keyboard events *)

(** The values [self.mouse_mode] is assigned ([select], [pan]). *)
Inductive mode := ModeSelect | ModePan.

Definition mode_eqb (a b : mode) : bool :=
  match a, b with
  | ModeSelect, ModeSelect | ModePan, ModePan => true
  | _, _ => false
  end.

(** The canvas together with the event-handling fields of [ImageCanvas]
    ([drag_start_position] is a [[x, y]] list or [None]). *)
Record ui := {
  cv : canvas;
  mouse_mode : mode;
  dragging : bool;
  drag_start_position : option point;
  last_mouse_pos : Z * Z
}.

Definition ui_set (u : ui) (s : canvas) (m : mode) (d : bool) (ds : option point)
           (lp : Z * Z) : ui :=
  {| cv := s; mouse_mode := m; dragging := d; drag_start_position := ds;
     last_mouse_pos := lp |}.

(** [event.button()]. *)
Inductive button := LeftButton | RightButton | OtherButton.

(** [ImageCanvas.mousePressEvent]; [alt] is [event.modifiers() & Qt.AltModifier].
    [None] is an [IndexError] of [self.keypoints[self.selected_point]]. *)
Definition mousePressEvent (u : ui) (b : button) (alt : bool) (pos : Z * Z) : option ui :=
  match b with
  | LeftButton =>
      if alt then Some (ui_set u (cv u) ModePan (dragging u) (drag_start_position u) pos)
      else
        let s1 := handle_point_click (cv u) pos in
        match screen_to_image_coords s1 pos with
        | Some image_pos =>
            if 0 <=? selected_point s1 then
              if zlen (keypoints s1) <=? selected_point s1 then None
              else
                let '(x, y) := py_get (keypoints s1) (selected_point s1) in
                if sq_dist image_pos (x, y) <? hit_radius s1 * hit_radius s1
                then Some (ui_set u s1 ModeSelect true (Some (x, y)) pos)
                else Some (ui_set u s1 ModeSelect false None pos)
            else Some (ui_set u s1 ModeSelect false None pos)
        | None => Some (ui_set u s1 ModeSelect false None pos)
        end
  | RightButton =>
      Some (ui_set u (handle_right_click (cv u)) (mouse_mode u) (dragging u)
                   (drag_start_position u) pos)
  | OtherButton =>
      Some (ui_set u (cv u) (mouse_mode u) (dragging u) (drag_start_position u) pos)
  end.

(** [ImageCanvas.mouseMoveEvent]; [left] is [event.buttons() & Qt.LeftButton]. *)
Definition mouseMoveEvent (u : ui) (left : bool) (pos : Z * Z) : option ui :=
  let s := cv u in
  let s' :=
    if left then
      if mode_eqb (mouse_mode u) ModeSelect && (0 <=? selected_point s) then
        handle_point_drag s pos
      else if mode_eqb (mouse_mode u) ModePan then
        let delta_x := fst pos - fst (last_mouse_pos u) in
        let delta_y := snd pos - snd (last_mouse_pos u) in
        Some (with_pan s (fst (pan_offset s) + delta_x, snd (pan_offset s) + delta_y))
      else Some s
    else Some s in
  match s' with
  | Some s2 => Some (ui_set u s2 (mouse_mode u) (dragging u) (drag_start_position u) pos)
  | None => None
  end.

(** [ImageCanvas.mouseReleaseEvent]: record a [move] when the dragged
    point ended elsewhere, then leave drag mode. *)
Definition mouseReleaseEvent (u : ui) : option ui :=
  let s := cv u in
  let sel := selected_point s in
  let s' :=
    match drag_start_position u with
    | Some start =>
        if dragging u && (0 <=? sel) then
          if zlen (keypoints s) <=? sel then None
          else
            let current_position := py_get (keypoints s) sel in
            if negb (fst start =? fst current_position) ||
               negb (snd start =? snd current_position)
            then Some (save_state_for_undo s Move (MoveData sel start current_position))
            else Some s
        else Some s
    | None => Some s
    end in
  match s' with
  | Some s2 => Some (ui_set u s2 ModeSelect false None (last_mouse_pos u))
  | None => None
  end.

(** Qt key codes used by [keyPressEvent]. *)
Definition Key_Z : Z := 90.
Definition Key_Plus : Z := 43.
Definition Key_Equal : Z := 61.
Definition Key_Minus : Z := 45.
Definition Key_0 : Z := 48.
Definition Key_Space : Z := 32.
Definition Key_Left : Z := 16777234.
Definition Key_Up : Z := 16777235.
Definition Key_Right : Z := 16777236.
Definition Key_Down : Z := 16777237.
Definition Key_Delete : Z := 16777223.

(** [ImageCanvas.keyPressEvent]; [ctrl] and [shift] are the modifier tests. *)
Definition keyPressEvent (u : ui) (ctrl shift : bool) (key : Z) : ui :=
  let s := cv u in
  let upd (s' : canvas) := ui_set u s' (mouse_mode u) (dragging u) (drag_start_position u)
                                  (last_mouse_pos u) in
  if ctrl && (key =? Key_Z) then upd (undo_st s)
  else if ctrl && existsb (Z.eqb key) [Key_Plus; Key_Equal; 43; 61] then upd (zoom_in s)
  else if ctrl && existsb (Z.eqb key) [Key_Minus; 45] then upd (zoom_out s)
  else if ctrl && (key =? Key_0) then upd (reset_view s)
  else if key =? Key_Space then
    ui_set u s ModePan (dragging u) (drag_start_position u) (last_mouse_pos u)
  else
    let pan_step := if shift then 20 else 10 in
    let '(px, py) := pan_offset s in
    if mode_eqb (mouse_mode u) ModePan && (key =? Key_Left) then upd (with_pan s (px + pan_step, py))
    else if mode_eqb (mouse_mode u) ModePan && (key =? Key_Right) then upd (with_pan s (px - pan_step, py))
    else if mode_eqb (mouse_mode u) ModePan && (key =? Key_Up) then upd (with_pan s (px, py + pan_step))
    else if mode_eqb (mouse_mode u) ModePan && (key =? Key_Down) then upd (with_pan s (px, py - pan_step))
    else if 0 <=? selected_point s then
      let step := if shift then 10 else 1 in
      if key =? Key_Left then upd (move_selected_point s (- step) 0)
      else if key =? Key_Right then upd (move_selected_point s step 0)
      else if key =? Key_Up then upd (move_selected_point s 0 (- step))
      else if key =? Key_Down then upd (move_selected_point s 0 step)
      else if key =? Key_Delete then upd (delete_selected_point s)
      else u
    else u.

(** [ImageCanvas.keyReleaseEvent]. *)
Definition keyReleaseEvent (u : ui) (key : Z) : ui :=
  if key =? Key_Space
  then ui_set u (cv u) ModeSelect (dragging u) (drag_start_position u) (last_mouse_pos u)
  else u.

(** Successive [mouseMoveEvent]s with the left button held. *)
Fixpoint mouse_moves (u : ui) (ps : list (Z * Z)) : option ui :=
  match ps with
  | [] => Some u
  | p :: ps' =>
      match mouseMoveEvent u true p with
      | Some u' => mouse_moves u' ps'
      | None => None
      end
  end.

(** A drag gesture: left press (no Alt) at [pos], moves through [ps],
    release. *)
Definition drag_gesture (u : ui) (pos : Z * Z) (ps : list (Z * Z)) : option ui :=
  match mousePressEvent u LeftButton false pos with
  | Some u1 =>
      match mouse_moves u1 ps with
      | Some u2 => mouseReleaseEvent u2
      | None => None
      end
  | None => None
  end.

(** Successive key presses. *)
Definition key_presses (u : ui) (ctrl shift : bool) (keys : list Z) : ui :=
  fold_left (fun u' k => keyPressEvent u' ctrl shift k) keys u.

(** A canvas in select mode with no drag in progress. *)
Definition ui_of (s : canvas) : ui :=
  {| cv := s; mouse_mode := ModeSelect; dragging := false;
     drag_start_position := None; last_mouse_pos := (0, 0) |}.

(* ------------------------------------------------------------------ *)
(** ** State predicates *)

(** [zoom_factor] within the range [0.1, 10.0] the zoom handlers clamp to. *)
Definition zoom_ok (s : canvas) : Prop := (1 # 10 <= zoom_factor s <= 10)%Q.

(** A selection that is either none ([-1]) or an index of [kps]. *)
Definition sel_ok (kps : list point) (sel : Z) : Prop := sel = -1 \/ 0 <= sel < zlen kps.

(** The current selection and every snapshot on the undo stack are valid. *)
Definition canvas_ok (s : canvas) : Prop :=
  sel_ok (keypoints s) (selected_point s) /\
  Forall (fun e => sel_ok (keypoints_before e) (selected_point_before e)) (undo_stack s).

(** Every keypoint lies on a pixel of the loaded image. *)
Definition in_image (s : canvas) : Prop :=
  match pixmap s with
  | Some (pw, ph) => Forall (fun p => 0 <= fst p <= pw - 1 /\ 0 <= snd p <= ph - 1) (keypoints s)
  | None => True
  end.

(** An Alt+left press at [pos] followed by moves through [ps] with the
    button held (panning). *)
Definition alt_drag (u : ui) (pos : Z * Z) (ps : list (Z * Z)) : option ui :=
  match mousePressEvent u LeftButton true pos with
  | Some u1 => mouse_moves u1 ps
  | None => None
  end.

(** The state, after the press on [u], during a drag of point [i] that
    started at [p]. *)
Definition dragging_state (u : ui) (i : Z) (p : point) (u' : ui) : Prop :=
  mouse_mode u' = ModeSelect /\ dragging u' = true /\ drag_start_position u' = Some p /\
  selected_point (cv u') = i /\ undo_stack (cv u') = undo_stack (cv u) /\
  exists q, keypoints (cv u') = py_set (keypoints (cv u)) i q.

(* ------------------------------------------------------------------ *)
(** ** The keypoint list of [MainWindow] ([src/app.py]): Python strings *)

(** Python text as a list of (ASCII) characters. *)
Definition pystr := list ascii.

(** [str(n)] of an int: its decimal digits, with [-] before a negative
    value. *)
Definition str_of_int (z : Z) : pystr :=
  list_ascii_of_string (NilEmpty.string_of_int (Z.to_int z)).

Definition is_digit (c : ascii) : bool :=
  let n := nat_of_ascii c in ((48 <=? n) && (n <=? 57))%nat.

(** The ASCII characters [str.isspace] accepts (also those stripped by
    [int()]): tab, newline, vertical tab, form feed, carriage return,
    the separators 0x1c-0x1f and the space. *)
Definition py_space (c : ascii) : bool :=
  let n := nat_of_ascii c in
  ((n =? 32) || ((9 <=? n) && (n <=? 13)) || ((28 <=? n) && (n <=? 31)))%nat.

(** Drop the leading characters satisfying [p]. *)
Fixpoint strip_front (p : ascii -> bool) (l : pystr) : pystr :=
  match l with
  | c :: r => if p c then strip_front p r else l
  | [] => []
  end.

(** Drop the leading and the trailing characters satisfying [p]. *)
Definition strip_by (p : ascii -> bool) (l : pystr) : pystr :=
  rev (strip_front p (rev (strip_front p l))).

(** [s.strip(chars)]. *)
Definition py_strip (chars : pystr) (s : pystr) : pystr :=
  strip_by (fun c => existsb (Ascii.eqb c) chars) s.

(** The rest of the digits of [int()]: digits, each [_] followed by a
    digit. *)
Fixpoint under_digits (l : pystr) : bool :=
  match l with
  | [] => true
  | c :: r =>
      if Ascii.eqb c "_" then
        match r with
        | d :: r' => is_digit d && under_digits r'
        | [] => false
        end
      else is_digit c && under_digits r
  end.

(** [int(s)] of a string (base 10): surrounding white space, an optional
    sign, then a digit and more digits with single underscores between
    them; [None] is the [ValueError]. *)
Definition py_int_of_str (s : pystr) : option Z :=
  let t := strip_by py_space s in
  let '(neg, body) :=
    match t with
    | c :: b =>
        if Ascii.eqb c "-" then (true, b)
        else if Ascii.eqb c "+" then (false, b)
        else (false, t)
    | [] => (false, [])
    end in
  match body with
  | c :: r =>
      if is_digit c && under_digits r then
        match NilEmpty.uint_of_string
                (string_of_list_ascii (List.filter (fun c => negb (Ascii.eqb c "_")) body)) with
        | Some d => Some (if neg then - Z.of_uint d else Z.of_uint d)
        | None => None
        end
      else None
  | [] => None
  end.

Fixpoint is_prefix (p l : pystr) : bool :=
  match p, l with
  | [], _ => true
  | a :: p', b :: l' => Ascii.eqb a b && is_prefix p' l'
  | _ :: _, [] => false
  end.

(** The scan of [s.split(sep)]: at each position either [sep] starts
    there (cut, and continue after it) or the character joins the current
    piece; [fuel] bounds the number of steps. *)
Fixpoint split_go (fuel : nat) (sep l cur : pystr) : list pystr :=
  match fuel with
  | O => [cur ++ l]
  | S f =>
      match l with
      | [] => [cur]
      | c :: r =>
          if is_prefix sep l then cur :: split_go f sep (drop (length sep) l) []
          else split_go f sep r (cur ++ [c])
      end
  end.

(** [s.split(sep)] for a non-empty [sep] (the two separators used below);
    each step consumes a character, so [length s + 1] steps suffice. *)
Definition py_split (sep s : pystr) : list pystr := split_go (S (length s)) sep s [].

(** The row [f"{i}: ({x}, {y})"] of the keypoint list (also each line of
    [Tools.format_coordinates]). *)
Definition item_text (i : Z) (p : point) : pystr :=
  str_of_int i ++ [":"; " "; "("]%char ++ str_of_int (fst p) ++ [","; " "]%char
    ++ str_of_int (snd p) ++ [")"]%char.

(** [MainWindow.update_keypoint_list]: the rows added to [keypoint_list]. *)
Definition update_keypoint_list (kps : list point) : list pystr :=
  imap (fun i p => item_text (Z.of_nat i) p) kps.

(** One iteration of [MainWindow.on_keypoint_order_changed]:
    [item_text.split(': ')[1].strip('()')], then
    [x, y = map(int, coord_str.split(', '))]; [None] is the [IndexError]
    or [ValueError] it raises. *)
Definition parse_item (item_text : pystr) : option point :=
  match nth_error (py_split [":"; " "]%char item_text) 1 with
  | None => None
  | Some part =>
      let coord_str := py_strip ["("; ")"]%char part in
      match py_split [","; " "]%char coord_str with
      | [xs; ys] =>
          match py_int_of_str xs with
          | Some x => match py_int_of_str ys with
                      | Some y => Some (x, y)
                      | None => None
                      end
          | None => None
          end
      | _ => None
      end
  end.

(** [MainWindow.on_keypoint_order_changed]: the new keypoint sequence read
    from the rows in their current order ([None] when it raises). *)
Definition on_keypoint_order_changed (items : list pystr) : option (list point) :=
  map_or_raise parse_item items.

(* ================================================================== *)
(** * Properties *)

(* ------------------------------------------------------------------ *)
(** ** Evaluation lemmas for the transform arithmetic *)

Lemma py_int_div_mul (a b c : Z) :
  0 < b -> py_int (inject_Z a / inject_Z b * inject_Z c)%Q = Z.quot (a * c) b.
Proof.
  intros Hb. destruct b as [|p|p]; try lia.
  unfold py_int. simpl. rewrite Pos.mul_1_r. f_equal. lia.
Qed.

(* ------------------------------------------------------------------ *)
(** ** Binary64 arithmetic: rounding, products, quotients, truncation *)

Lemma digits2_size (p : positive) : digits2_pos p = Pos.size p.
Proof. induction p; simpl; rewrite ?IHp; reflexivity. Qed.

Lemma digits2_bounds (m : Z) : 0 < m ->
  2 ^ (Zdigits2 m - 1) <= m < 2 ^ Zdigits2 m.
Proof.
  intros Hm. destruct m as [|p|p]; try lia. unfold Zdigits2. rewrite digits2_size.
  assert (H1 : Zpos p < 2 ^ Zpos (Pos.size p))
    by (rewrite <- (Pos2Z.inj_pow 2); apply Pos.size_gt).
  assert (H2 : 2 ^ Zpos (Pos.size p) <= 2 * Zpos p)
    by (rewrite <- (Pos2Z.inj_pow 2); apply (Pos.size_le p)).
  split; [|lia].
  assert (E : 2 ^ Zpos (Pos.size p) = 2 * 2 ^ (Zpos (Pos.size p) - 1))
    by (rewrite <- Z.pow_succ_r by lia; f_equal; lia).
  lia.
Qed.

Lemma shr_1_m (r : shr_record) : 0 <= shr_m r -> shr_m (shr_1 r) = shr_m r / 2.
Proof.
  destruct r as [m rr ss]. simpl. intros Hm.
  destruct m as [|[p|p|]|p]; simpl; try lia; try reflexivity.
  - rewrite Pos2Z.inj_xI. rewrite Z.add_comm, Z.mul_comm, Z.div_add by lia. reflexivity.
  - rewrite Pos2Z.inj_xO. rewrite Z.mul_comm, Z.div_mul by lia. reflexivity.
Qed.

Lemma iter_shr_m (p : positive) (r : shr_record) : 0 <= shr_m r ->
  shr_m (SpecFloat.iter_pos shr_1 p r) = shr_m r / 2 ^ Zpos p /\ 0 <= shr_m (SpecFloat.iter_pos shr_1 p r).
Proof.
  revert r. induction p as [p IH|p IH|]; intros r Hr; cbn [SpecFloat.iter_pos].
  - assert (H1 := shr_1_m r Hr).
    assert (H1' : 0 <= shr_m (shr_1 r)) by (rewrite H1; apply Z.div_pos; lia).
    destruct (IH _ H1') as [H2 H2'].
    destruct (IH _ H2') as [H3 H3'].
    split; [|exact H3']. rewrite H3, H2, H1, !Z.div_div by (try apply Z.pow_pos_nonneg; lia).
    f_equal. rewrite <- !Z.pow_add_r by lia. rewrite <- (Z.pow_1_r 2) at 1.
    rewrite <- !Z.pow_add_r by lia. f_equal. lia.
  - destruct (IH _ Hr) as [H2 H2']. destruct (IH _ H2') as [H3 H3'].
    split; [|exact H3']. rewrite H3, H2, Z.div_div by (try apply Z.pow_pos_nonneg; lia).
    f_equal. rewrite Pos2Z.inj_xO, <- Z.pow_add_r by lia. f_equal; lia.
  - rewrite shr_1_m by exact Hr. split; [reflexivity|]. apply Z.div_pos; lia.
Qed.

Lemma shr_1_even (m : Z) : 0 <= m -> (2 | m) ->
  shr_1 (Build_shr_record m false false) = Build_shr_record (m / 2) false false.
Proof.
  intros Hm [k ->]. destruct k as [|k|k]; [reflexivity| |lia].
  replace (Zpos k * 2) with (Zpos (xO k)) by lia. simpl.
  replace (Zpos k~0 / 2) with (Zpos k) by (rewrite Pos2Z.inj_xO, Z.mul_comm, Z.div_mul; lia).
  reflexivity.
Qed.

Lemma iter_shr_exact (p : positive) (m : Z) : 0 <= m -> (2 ^ Zpos p | m) ->
  SpecFloat.iter_pos shr_1 p (Build_shr_record m false false) = Build_shr_record (m / 2 ^ Zpos p) false false.
Proof.
  revert m. induction p as [p IH|p IH|]; intros m Hm Hd; cbn [SpecFloat.iter_pos].
  - assert (E : 2 ^ Zpos p~1 = 2 * (2 ^ Zpos p * 2 ^ Zpos p)).
    { rewrite <- Z.pow_add_r by lia. rewrite <- (Z.pow_1_r 2) at 2.
      rewrite <- Z.pow_add_r by lia. f_equal. lia. }
    rewrite E in Hd. destruct Hd as [k Hk].
    rewrite shr_1_even by (try lia; exists (k * (2 ^ Zpos p * 2 ^ Zpos p)); lia).
    assert (Hm2 : m / 2 = k * 2 ^ Zpos p * 2 ^ Zpos p)
      by (rewrite Hk; replace (k * (2 * (2 ^ Zpos p * 2 ^ Zpos p))) with
            ((k * 2 ^ Zpos p * 2 ^ Zpos p) * 2) by ring; apply Z.div_mul; lia).
    assert (Hp : 0 < 2 ^ Zpos p) by (apply Z.pow_pos_nonneg; lia).
    rewrite IH by (try (apply Z.div_pos; lia); exists (k * 2 ^ Zpos p); lia).
    rewrite IH.
    + f_equal. rewrite E, !Z.div_div by lia. reflexivity.
    + apply Z.div_pos; [apply Z.div_pos|]; lia.
    + exists k. rewrite Hm2. rewrite Z.div_mul by lia. reflexivity.
  - assert (E : 2 ^ Zpos p~0 = 2 ^ Zpos p * 2 ^ Zpos p).
    { rewrite <- Z.pow_add_r by lia. f_equal. lia. }
    rewrite E in Hd. destruct Hd as [k Hk].
    assert (Hp : 0 < 2 ^ Zpos p) by (apply Z.pow_pos_nonneg; lia).
    rewrite IH by (try lia; exists (k * 2 ^ Zpos p); lia).
    rewrite IH.
    + f_equal. rewrite E, !Z.div_div by lia. reflexivity.
    + apply Z.div_pos; lia.
    + exists k. rewrite Hk. replace (k * (2 ^ Zpos p * 2 ^ Zpos p)) with ((k * 2 ^ Zpos p) * 2 ^ Zpos p) by ring.
      rewrite Z.div_mul by lia. reflexivity.
  - apply shr_1_even; [exact Hm|]. destruct Hd as [k Hk]. exists k. rewrite Hk. reflexivity.
Qed.

Lemma loc_of_record_of_loc (m : Z) (l : location) : loc_of_shr_record (shr_record_of_loc m l) = l.
Proof. destruct l as [|[| |]]; reflexivity. Qed.

Lemma shr_m_record_of_loc (m : Z) (l : location) : shr_m (shr_record_of_loc m l) = m.
Proof. destruct l as [|[| |]]; reflexivity. Qed.

Lemma rne_cases (m : Z) (l : location) :
  round_nearest_even m l = m \/ round_nearest_even m l = m + 1.
Proof. destruct l as [|[| |]]; simpl; try destruct (Z.even m); lia. Qed.

Lemma fexp_normal (t : Z) : -1021 <= t -> fexp 53 1024 t = t - 53.
Proof. intros H. unfold fexp, emin. lia. Qed.

Lemma shr_fexp_step1 (mx ex : Z) (lx : location) : 0 < mx ->
  -1021 <= Zdigits2 mx + ex ->
  let k := Z.max 0 (Zdigits2 mx - 53) in
  shr_m (fst (shr_fexp 53 1024 mx ex lx)) = mx / 2 ^ k /\
  snd (shr_fexp 53 1024 mx ex lx) = ex + k /\
  (Zdigits2 mx <= 53 -> fst (shr_fexp 53 1024 mx ex lx) = shr_record_of_loc mx lx) /\
  (lx = loc_Exact -> (Zdigits2 mx <= 53 \/ (2 ^ (Zdigits2 mx - 53) | mx)) ->
     fst (shr_fexp 53 1024 mx ex lx) = Build_shr_record (mx / 2 ^ k) false false).
Proof.
  intros Hm Hd k. unfold shr_fexp, shr. rewrite fexp_normal by exact Hd.
  replace (Zdigits2 mx + ex - 53 - ex) with (Zdigits2 mx - 53) by ring.
  destruct (Z.leb_spec (Zdigits2 mx) 53) as [Hle|Hgt].
  - assert (Ek : k = 0) by (unfold k; lia). rewrite Ek, Z.pow_0_r, Z.div_1_r, Z.add_0_r.
    destruct (Zdigits2 mx - 53) eqn:E; try lia; cbn [fst snd];
      (split; [apply shr_m_record_of_loc|]); (split; [reflexivity|]);
      (split; [reflexivity|]); intros -> _; reflexivity.
  - assert (Ek : k = Zdigits2 mx - 53) by (unfold k; lia). rewrite Ek.
    destruct (Zdigits2 mx - 53) as [|p|p] eqn:E; try lia. cbn [fst snd].
    split; [|split; [ring|split; [intros; lia|]]].
    + destruct (iter_shr_m p (shr_record_of_loc mx lx)) as [-> _];
        rewrite shr_m_record_of_loc; [lia|reflexivity].
    + intros -> [H|H]; [lia|]. apply iter_shr_exact; [lia|exact H].
Qed.

Lemma Q2_pos (e : Z) : (0 < Q2 e)%Q.
Proof. unfold Q2. apply Qpower_0_lt. reflexivity. Qed.

Lemma Q2_add (a b : Z) : (Q2 (a + b) == Q2 a * Q2 b)%Q.
Proof. unfold Q2. apply Qpower_plus. discriminate. Qed.

Lemma Q2_Z (n : Z) : 0 <= n -> (Q2 n == inject_Z (2 ^ n))%Q.
Proof. intros Hn. unfold Q2. symmetry. apply Zpower_Qpower. exact Hn. Qed.

Lemma digits2_le_54 (M : Z) : 0 < M <= 2 ^ 53 -> Zdigits2 M <= 54.
Proof.
  intros HM. destruct (digits2_bounds M ltac:(lia)) as [H1 H2].
  destruct (Z.leb_spec (Zdigits2 M) 54) as [|Hc]; [assumption|].
  assert (2 ^ 54 <= 2 ^ (Zdigits2 M - 1)) by (apply Z.pow_le_mono_r; lia). lia.
Qed.

Lemma shr_fexp_step2 (M e : Z) : 0 < M <= 2 ^ 53 -> -1021 <= Zdigits2 M + e ->
  0 < shr_m (fst (shr_fexp 53 1024 M e loc_Exact)) < 2 ^ 53 /\
  e <= snd (shr_fexp 53 1024 M e loc_Exact) <= e + 1 /\
  (inject_Z (shr_m (fst (shr_fexp 53 1024 M e loc_Exact))) * Q2 (snd (shr_fexp 53 1024 M e loc_Exact))
   == inject_Z M * Q2 e)%Q.
Proof.
  intros HM Hd. destruct (shr_fexp_step1 M e loc_Exact ltac:(lia) Hd) as (H1 & H2 & _).
  rewrite H1, H2. pose proof (digits2_le_54 M HM) as H54.
  pose proof (digits2_bounds M ltac:(lia)) as [B1 B2].
  destruct (Z.leb_spec (Zdigits2 M) 53) as [Hle|Hgt].
  - replace (Z.max 0 (Zdigits2 M - 53)) with 0 by lia.
    rewrite Z.pow_0_r, Z.div_1_r, Z.add_0_r.
    assert (2 ^ Zdigits2 M <= 2 ^ 53) by (apply Z.pow_le_mono_r; lia).
    split; [lia|]. split; [lia|]. reflexivity.
  - replace (Z.max 0 (Zdigits2 M - 53)) with 1 by lia.
    assert (EM : M = 2 ^ 53).
    { assert (2 ^ 53 <= 2 ^ (Zdigits2 M - 1)) by (apply Z.pow_le_mono_r; lia). lia. }
    subst M. split; [vm_compute; split; reflexivity|]. split; [lia|].
    rewrite Q2_add, (Q2_Z 1) by lia.
    replace (2 ^ 53 / 2 ^ 1) with (2 ^ 52) by reflexivity.
    replace (2 ^ 53) with (2 ^ 52 * 2 ^ 1) by reflexivity.
    rewrite inject_Z_mult. ring.
Qed.

Lemma bracket_weak (m e : Z) (l : location) (v : Q) : bracket m e l v ->
  (inject_Z m * Q2 e <= v <= inject_Z (m + 1) * Q2 e)%Q.
Proof.
  destruct l; simpl; [|tauto]. intros ->. pose proof (Q2_pos e).
  rewrite inject_Z_plus. split; [apply Qle_refl|]. 
  setoid_replace ((inject_Z m + inject_Z 1) * Q2 e)%Q with (inject_Z m * Q2 e + Q2 e)%Q using relation Qeq by ring. lra.
Qed.

Lemma round_aux_spec (mx ex : Z) (lx : location) (v : Q) :
  0 < mx -> bracket mx ex lx v -> (lx = loc_Exact \/ 53 <= Zdigits2 mx) ->
  -1021 <= Zdigits2 mx + ex -> Zdigits2 mx + ex <= 1023 -> ex <= 970 ->
  exists m e, binary_round_aux 53 1024 false mx ex lx = S754_finite false m e /\
    Zpos m < 2 ^ 53 /\
    ((1 - eta) * v <= fval (S754_finite false m e) <= (1 + eta) * v)%Q /\
    (lx = loc_Exact -> (Zdigits2 mx <= 53 \/ (2 ^ (Zdigits2 mx - 53) | mx)) ->
     (fval (S754_finite false m e) == v)%Q).
Proof.
  intros Hm Hb Hl Hd1 Hd2 He.
  destruct (shr_fexp_step1 mx ex lx Hm Hd1) as (S1 & S2 & S3 & S4).
  pose proof (digits2_bounds mx Hm) as [B1 B2].
  set (D := Zdigits2 mx) in *.
  set (k := Z.max 0 (D - 53)) in *.
  assert (Hkd : k = Z.max 0 (D - 53)) by reflexivity.
  assert (HD1 : 1 <= D).
  { destruct (Z.leb_spec 1 D) as [|Hc]; [assumption|].
    assert (2 ^ D <= 2 ^ 0) by (apply Z.pow_le_mono_r; lia). simpl in *. lia. }
  unfold binary_round_aux.
  destruct (shr_fexp 53 1024 mx ex lx) as [r1 e1] eqn:E1. cbn [fst snd] in S1, S2, S3, S4.
  set (m1 := shr_m r1) in *.
  assert (Hk : 0 < 2 ^ k) by (apply Z.pow_pos_nonneg; lia).
  pose proof (Z.div_mod mx (2 ^ k) ltac:(lia)) as Hdiv.
  pose proof (Z.mod_pos_bound mx (2 ^ k) Hk) as Hmod.
  rewrite <- S1 in Hdiv.
  assert (Hm1 : 2 ^ (D - 1 - k) <= m1 < 2 ^ (D - k)).
  { rewrite S1. split.
    - apply Z.div_le_lower_bound; [lia|]. rewrite <- Z.pow_add_r by lia.
      replace (k + (D - 1 - k)) with (D - 1) by lia. exact B1.
    - apply Z.div_lt_upper_bound; [lia|]. rewrite <- Z.pow_add_r by lia.
      replace (k + (D - k)) with D by lia. exact B2. }
  assert (Hp1 : 1 <= 2 ^ (D - 1 - k)) by (apply (Z.pow_le_mono_r 2 0); lia).
  assert (Hp53 : 2 ^ (D - k) <= 2 ^ 53) by (apply Z.pow_le_mono_r; lia).
  set (M := round_nearest_even m1 (loc_of_shr_record r1)).
  assert (HM : M = m1 \/ M = m1 + 1) by apply rne_cases.
  assert (HM53 : 0 < M <= 2 ^ 53) by lia.
  assert (HdM : -1021 <= Zdigits2 M + e1).
  { destruct (digits2_bounds M ltac:(lia)) as [_ C2].
    assert (C : 2 ^ (D - 1 - k) < 2 ^ Zdigits2 M) by lia.
    assert (0 <= Zdigits2 M) by (unfold Zdigits2; destruct M; lia).
    apply Z.pow_lt_mono_r_iff in C; lia. }
  destruct (shr_fexp_step2 M e1 HM53 HdM) as (T1 & T2 & T3).
  destruct (shr_fexp 53 1024 M e1 loc_Exact) as [r2 e2] eqn:E2. cbn [fst snd] in T1, T2, T3.
  destruct (shr_m r2) as [|m|] eqn:Em; try lia.
  replace (Z.leb e2 (Z.sub 1024 53)) with true by (symmetry; apply Z.leb_le; lia).
  exists m, e2. split; [reflexivity|]. split; [lia|].
  assert (Hval : (fval (S754_finite false m e2) == inject_Z M * Q2 e1)%Q)
    by (simpl; rewrite <- T3; ring).
  assert (He1 : (Q2 e1 == Q2 ex * inject_Z (2 ^ k))%Q)
    by (rewrite S2, Q2_add, (Q2_Z k) by lia; reflexivity).
  pose proof (Q2_pos ex) as Pex. pose proof (Q2_pos e1) as Pe1.
  assert (Hexact : lx = loc_Exact -> (D <= 53 \/ (2 ^ (D - 53) | mx)) ->
                   (fval (S754_finite false m e2) == v)%Q).
  { intros Hlx Hdv. rewrite Hval.
    assert (EM : M = m1).
    { unfold M. rewrite (S4 Hlx Hdv). reflexivity. }
    assert (Emx : mx = 2 ^ k * m1).
    { destruct (Z.leb_spec D 53) as [HD|HD].
      - assert (Ek0 : k = 0) by lia. rewrite Ek0 in Hdiv |- *.
        rewrite Z.pow_0_r, Z.mod_1_r in Hdiv. lia.
      - destruct Hdv as [Hdv|Hdv]; [lia|].
        assert (Ek : k = D - 53) by lia. rewrite <- Ek in Hdv.
        rewrite (proj2 (Z.mod_divide mx (2 ^ k) ltac:(lia)) Hdv) in Hdiv. lia. }
    subst lx. simpl in Hb. rewrite Hb, EM, He1, Emx, inject_Z_mult. ring. }
  split; [|exact Hexact].
  destruct (Z.leb_spec 53 D) as [HD|HD].
  - assert (Ek : D - 1 - k = 52) by lia. rewrite Ek in Hm1.
    assert (Hv : (inject_Z m1 * Q2 e1 <= v <= inject_Z (m1 + 1) * Q2 e1)%Q).
    { destruct (bracket_weak _ _ _ _ Hb) as [V1 V2]. rewrite He1. split.
      - apply Qle_trans with (inject_Z mx * Q2 ex)%Q; [|exact V1].
        setoid_replace (inject_Z m1 * (Q2 ex * inject_Z (2 ^ k)))%Q
          with (inject_Z (m1 * 2 ^ k) * Q2 ex)%Q using relation Qeq by (rewrite inject_Z_mult; ring).
        apply Qmult_le_compat_r; [|lra]. rewrite <- Zle_Qle. nia.
      - apply Qle_trans with (inject_Z (mx + 1) * Q2 ex)%Q; [exact V2|].
        setoid_replace (inject_Z (m1 + 1) * (Q2 ex * inject_Z (2 ^ k)))%Q
          with (inject_Z ((m1 + 1) * 2 ^ k) * Q2 ex)%Q using relation Qeq by (rewrite inject_Z_mult; ring).
        apply Qmult_le_compat_r; [|lra]. rewrite <- Zle_Qle. nia. }
    assert (Hlow : (inject_Z (2 ^ 52) * Q2 e1 <= v)%Q).
    { apply Qle_trans with (inject_Z m1 * Q2 e1)%Q; [|apply Hv].
      apply Qmult_le_compat_r; [|lra]. rewrite <- Zle_Qle. lia. }
    assert (Heta : (Q2 e1 <= eta * v)%Q).
    { assert (E4 : (eta * inject_Z (2 ^ 52) == 4)%Q) by reflexivity.
      assert (Hev : (eta * (inject_Z (2 ^ 52) * Q2 e1) <= eta * v)%Q)
        by (apply Qmult_le_l; [reflexivity|exact Hlow]).
      rewrite Qmult_assoc, E4 in Hev. lra. }
    rewrite Hval. rewrite inject_Z_plus in Hv. change (inject_Z 1) with 1%Q in Hv.
    destruct HM as [-> | ->]; [|rewrite inject_Z_plus; change (inject_Z 1) with 1%Q];
      split; lra.
  - destruct Hl as [Hl|Hl]; [|lia].
    rewrite (Hexact Hl (or_introl (Z.lt_le_incl _ _ HD))).
    assert (0 <= v)%Q.
    { destruct (bracket_weak _ _ _ _ Hb) as [V1 _]. apply Qle_trans with (2 := V1).
      apply Qmult_le_0_compat; [change 0%Q with (inject_Z 0); rewrite <- Zle_Qle; lia|lra]. }
    unfold eta. split; lra.
Qed.

Lemma fval_nonneg (f : double) : fnn f -> (0 <= fval f)%Q.
Proof.
  destruct f as [| | |[] m e]; simpl; try (intros; apply Qle_refl); try contradiction.
  intros _. pose proof (Q2_pos e). apply Qmult_le_0_compat; [|lra].
  setoid_replace (1 * inject_Z (Zpos m))%Q with (inject_Z (Zpos m)) using relation Qeq by ring.
  change 0%Q with (inject_Z 0). rewrite <- Zle_Qle. lia.
Qed.

Lemma Q2_le (a b : Z) : a <= b -> (Q2 a <= Q2 b)%Q.
Proof. intros H. unfold Q2. apply Qpower_le_compat_l; [exact H|]. unfold Qle; simpl; lia. Qed.

Lemma Q2_le_inv (a b : Z) : (Q2 a <= Q2 b)%Q -> a <= b.
Proof.
  intros H. destruct (Z.leb_spec a b) as [|Hc]; [assumption|].
  assert (Q2 b < Q2 a)%Q.
  { unfold Q2. apply Qpower_lt_compat_l; [exact Hc|]. unfold Qlt; simpl; lia. }
  lra.
Qed.

Lemma digits_range (m e : Z) (lo hi : Z) : 0 < m ->
  (Q2 lo <= inject_Z (m + 1) * Q2 e)%Q -> (inject_Z m * Q2 e <= Q2 hi)%Q ->
  lo <= Zdigits2 m + e <= hi + 1.
Proof.
  intros Hm H1 H2. destruct (digits2_bounds m Hm) as [B1 B2].
  assert (0 <= Zdigits2 m) by (unfold Zdigits2; destruct m; lia).
  assert (HD1 : 1 <= Zdigits2 m).
  { destruct (Z.leb_spec 1 (Zdigits2 m)) as [|Hc]; [assumption|].
    assert (Zdigits2 m = 0) by lia. rewrite H0 in B2. simpl in B2. lia. }
  pose proof (Q2_pos e). split.
  - apply Q2_le_inv. rewrite Q2_add, (Q2_Z (Zdigits2 m)) by lia.
    apply Qle_trans with (1 := H1). apply Qmult_le_compat_r; [|lra].
    rewrite <- Zle_Qle. lia.
  - assert (Hq : (Q2 (Zdigits2 m - 1 + e) <= Q2 hi)%Q).
    { apply Qle_trans with (2 := H2). rewrite Q2_add, (Q2_Z (Zdigits2 m - 1)) by lia.
      apply Qmult_le_compat_r; [|lra]. rewrite <- Zle_Qle. lia. }
    apply Q2_le_inv in Hq. lia.
Qed.

Lemma pos_iter_xO (p d : positive) : Zpos (Pos.iter xO p d) = Zpos p * 2 ^ Zpos d.
Proof.
  induction d as [|d IH] using Pos.peano_ind; [simpl; lia|].
  rewrite Pos.iter_succ, Pos2Z.inj_succ, Z.pow_succ_r by lia.
  change (Zpos (Pos.iter xO p d)~0) with (2 * Zpos (Pos.iter xO p d)). rewrite IH. ring.
Qed.

Lemma digits_le_of_lt (m n : Z) : 0 < m -> 0 <= n -> m < 2 ^ n -> Zdigits2 m <= n.
Proof.
  intros Hm Hn Hlt. destruct (digits2_bounds m Hm) as [B1 _].
  destruct (Z.leb_spec (Zdigits2 m) n) as [|Hc]; [assumption|].
  assert (2 ^ n <= 2 ^ (Zdigits2 m - 1)) by (apply Z.pow_le_mono_r; lia). lia.
Qed.

Lemma digits_ge_of_le (m n : Z) : 0 <= n -> 2 ^ n <= m -> n + 1 <= Zdigits2 m.
Proof.
  intros Hn Hle. assert (Hm : 0 < m) by (pose proof (Z.pow_pos_nonneg 2 n); lia).
  destruct (digits2_bounds m Hm) as [_ B2].
  assert (0 <= Zdigits2 m) by (unfold Zdigits2; destruct m; lia).
  assert (C : 2 ^ n < 2 ^ Zdigits2 m) by lia.
  apply Z.pow_lt_mono_r_iff in C; lia.
Qed.

Lemma float_of_int_spec (z : Z) : 0 <= z < 2 ^ 53 ->
  exists f, py_float_of_int z = Some f /\ fnn f /\ (fval f == inject_Z z)%Q.
Proof.
  intros Hz. destruct z as [|p|p]; [| |lia].
  1: { exists (S754_zero false). split; [reflexivity|]. split; [exact I|reflexivity]. }
  unfold py_float_of_int, binary_normalize, binary_round.
  assert (HD : Zdigits2 (Zpos p) <= 53) by (apply digits_le_of_lt; lia).
  assert (HD1 : 1 <= Zdigits2 (Zpos p)) by (apply (digits_ge_of_le _ 0); lia).
  change (Zpos (digits2_pos p)) with (Zdigits2 (Zpos p)).
  rewrite fexp_normal by lia.
  assert (Hsh : exists mz ez, shl_align p 0 (Zdigits2 (Zpos p) + 0 - 53) = (mz, ez) /\
            Zpos mz = Zpos p * 2 ^ (- ez) /\ ez = Zdigits2 (Zpos p) - 53).
  { unfold shl_align. destruct (Zdigits2 (Zpos p) + 0 - 53 - 0) as [|d|d] eqn:E; try lia.
    - exists p, 0. split; [reflexivity|]. split; [simpl; lia|lia].
    - exists (Pos.iter xO p d), (Zdigits2 (Zpos p) + 0 - 53). split; [reflexivity|].
      rewrite pos_iter_xO. split; [f_equal; f_equal; lia|lia]. }
  destruct Hsh as (mz & ez & -> & Emz & Eez).
  assert (Hpos : 0 <= - ez) by lia.
  assert (Hmz : Zpos mz < 2 ^ 53).
  { rewrite Emz. replace 53 with (Zdigits2 (Zpos p) + - ez) by lia.
    rewrite Z.pow_add_r by lia. pose proof (digits2_bounds (Zpos p) ltac:(lia)) as [_ B].
    pose proof (Z.pow_pos_nonneg 2 (- ez)). nia. }
  assert (Hdz : Zdigits2 (Zpos mz) <= 53) by (apply digits_le_of_lt; lia).
  assert (Hdz1 : 1 <= Zdigits2 (Zpos mz)) by (apply (digits_ge_of_le _ 0); lia).
  destruct (round_aux_spec (Zpos mz) ez loc_Exact (inject_Z (Zpos p)))
    as (m & e & Er & Hm & _ & Hex); try lia.
  - simpl. rewrite Emz, inject_Z_mult, <- (Q2_Z (- ez)) by lia.
    rewrite <- Qmult_assoc, <- Q2_add. replace (- ez + ez) with 0 by ring.
    unfold Q2. simpl. ring.
  - left; reflexivity.
  - rewrite Er. exists (S754_finite false m e). split; [reflexivity|]. split; [exact Hm|].
    apply Hex; [reflexivity|left; exact Hdz].
Qed.

Lemma int_of_float_spec (f : double) : fnn f ->
  exists k, py_int_of_float f = Some k /\ (inject_Z k <= fval f < inject_Z k + 1)%Q.
Proof.
  destruct f as [s| | |[] m e]; intros Hf; try (simpl in Hf; contradiction).
  - exists 0. split; [reflexivity|]. simpl. split; [apply Qle_refl|reflexivity].
  - unfold py_int_of_float, fval.
    setoid_replace (1 * inject_Z (Zpos m) * Q2 e)%Q with (inject_Z (Zpos m) * Q2 e)%Q using relation Qeq by ring.
    destruct (Z.leb_spec 0 e) as [He|He].
    + eexists. split; [reflexivity|].
      rewrite (Q2_Z e He), <- inject_Z_mult. split; [apply Qle_refl|]. lra.
    + eexists. split; [reflexivity|].
      set (n := - e). assert (Hn : 0 < n) by lia.
      assert (Hq : (Q2 e * inject_Z (2 ^ n) == 1)%Q).
      { rewrite <- (Q2_Z n) by lia. rewrite <- Q2_add. unfold n. rewrite Z.add_opp_diag_r. reflexivity. }
      assert (Hp : 0 < 2 ^ n) by (apply Z.pow_pos_nonneg; lia).
      pose proof (Z.div_mod (Zpos m) (2 ^ n) ltac:(lia)) as Hd.
      pose proof (Z.mod_pos_bound (Zpos m) (2 ^ n) Hp) as Hb.
      set (k := Zpos m / 2 ^ n) in *. set (r := Zpos m mod 2 ^ n) in *.
      assert (Hpe := Q2_pos e).
      rewrite Hd, inject_Z_plus, inject_Z_mult.
      setoid_replace ((inject_Z (2 ^ n) * inject_Z k + inject_Z r) * Q2 e)%Q
        with (inject_Z k * (Q2 e * inject_Z (2 ^ n)) + inject_Z r * Q2 e)%Q using relation Qeq by ring.
      rewrite Hq.
      assert (0 <= inject_Z r * Q2 e)%Q.
      { apply Qmult_le_0_compat; [|lra].
        change 0%Q with (inject_Z 0). rewrite <- Zle_Qle. lia. }
      assert (inject_Z r * Q2 e < 1)%Q.
      { rewrite <- Hq. rewrite (Qmult_comm (Q2 e)). apply Qmult_lt_compat_r; [lra|].
        rewrite <- Zlt_Qlt. lia. }
      split; lra.
Qed.

Lemma fmul_spec (f g : double) : fnn f -> fnn g ->
  (fval f * fval g <= Q2 900)%Q ->
  (fval f * fval g == 0 \/ Q2 (-900) <= fval f * fval g)%Q ->
  fnn (py_fmul f g) /\
  ((1 - eta) * (fval f * fval g) <= fval (py_fmul f g) <= (1 + eta) * (fval f * fval g))%Q.
Proof.
  intros Hf Hg Hhi Hlo.
  destruct f as [sf| | |[] mf ef]; try (simpl in Hf; contradiction);
  destruct g as [sg| | |[] mg eg]; try (simpl in Hg; contradiction);
    try (split; [exact I|simpl; split; lra]).
  unfold py_fmul, SFmul. simpl xorb.
  assert (Hv : (fval (S754_finite false mf ef) * fval (S754_finite false mg eg)
                == inject_Z (Zpos (mf * mg)) * Q2 (ef + eg))%Q).
  { simpl. rewrite Q2_add, Pos2Z.inj_mul, inject_Z_mult. ring. }
  assert (Hp : (0 < inject_Z (Zpos (mf * mg)) * Q2 (ef + eg))%Q).
  { apply Qmult_lt_0_compat; [|apply Q2_pos]. change 0%Q with (inject_Z 0). rewrite <- Zlt_Qlt. lia. }
  destruct Hlo as [Hlo|Hlo]; [rewrite Hv in Hlo; lra|].
  rewrite Hv in Hhi, Hlo |- *.
  assert (HR : -900 <= Zdigits2 (Zpos (mf * mg)) + (ef + eg) <= 901).
  { apply (digits_range _ _ (-900) 900); [lia| |exact Hhi].
    apply Qle_trans with (1 := Hlo). apply Qmult_le_compat_r; [|apply Qlt_le_weak, Q2_pos].
    rewrite <- Zle_Qle. lia. }
  assert (HD1 : 1 <= Zdigits2 (Zpos (mf * mg))) by (apply (digits_ge_of_le _ 0); lia).
  destruct (round_aux_spec (Zpos (mf * mg)) (ef + eg) loc_Exact
              (inject_Z (Zpos (mf * mg)) * Q2 (ef + eg))) as (m & e & -> & Hm & Hb & _);
    try lia; [reflexivity|left; reflexivity|].
  split; [exact Hm|exact Hb].
Qed.

Lemma fval_one : (fval f_one == 1)%Q.
Proof. reflexivity. Qed.

Lemma fmul_one (f : double) : fnn f -> (fval f <= Q2 900)%Q ->
  (fval f == 0 \/ Q2 (-900) <= fval f)%Q ->
  fnn (py_fmul f f_one) /\ (fval (py_fmul f f_one) == fval f)%Q.
Proof.
  intros Hf Hhi Hlo.
  destruct f as [sf| | |[] mf ef]; try (simpl in Hf; contradiction);
    [split; [exact I|reflexivity]|].
  unfold py_fmul, SFmul, f_one. simpl xorb.
  set (M := Zpos (mf * 4503599627370496)).
  assert (EM : M = Zpos mf * 2 ^ 52) by reflexivity.
  assert (Hv : (fval (S754_finite false mf ef) == inject_Z M * Q2 (ef + -52))%Q).
  { simpl. rewrite Q2_add, EM, inject_Z_mult.
    assert (E : (inject_Z (2 ^ 52) * Q2 (-52) == 1)%Q) by reflexivity.
    setoid_replace (inject_Z (Zpos mf) * inject_Z (2 ^ 52) * (Q2 ef * Q2 (-52)))%Q
      with (inject_Z (Zpos mf) * Q2 ef * (inject_Z (2 ^ 52) * Q2 (-52)))%Q using relation Qeq by ring.
    rewrite E. ring. }
  assert (Hp : (0 < inject_Z M * Q2 (ef + -52))%Q).
  { apply Qmult_lt_0_compat; [|apply Q2_pos]. change 0%Q with (inject_Z 0). rewrite <- Zlt_Qlt. lia. }
  destruct Hlo as [Hlo|Hlo]; [rewrite Hv in Hlo; lra|].
  rewrite Hv in Hhi, Hlo |- *.
  assert (HR : -900 <= Zdigits2 M + (ef + -52) <= 901).
  { apply (digits_range _ _ (-900) 900); [lia| |exact Hhi].
    apply Qle_trans with (1 := Hlo). apply Qmult_le_compat_r; [|apply Qlt_le_weak, Q2_pos].
    rewrite <- Zle_Qle. lia. }
  assert (HD1 : 1 <= Zdigits2 M) by (apply (digits_ge_of_le _ 0); lia).
  assert (HD : Zdigits2 M <= 105).
  { apply digits_le_of_lt; [lia|lia|]. rewrite EM. replace 105 with (53 + 52) by reflexivity.
    rewrite Z.pow_add_r by lia. simpl in Hf. nia. }
  destruct (round_aux_spec M (ef + -52) loc_Exact (inject_Z M * Q2 (ef + -52)))
    as (m & e & -> & Hm & _ & Hex); try lia; [reflexivity|left; reflexivity|].
  split; [exact Hm|]. apply Hex; [reflexivity|].
  destruct (Z.leb_spec (Zdigits2 M) 53) as [|H53]; [left; assumption|right].
  apply Z.divide_trans with (2 ^ 52); [|rewrite EM; apply Z.divide_factor_r].
  exists (2 ^ (52 - (Zdigits2 M - 53))). rewrite <- Z.pow_add_r by lia. f_equal. lia.
Qed.

Lemma div_eucl_div_mod (a b : Z) : Z.div_eucl a b = (a / b, a mod b).
Proof. unfold Z.div, Z.modulo. destruct (Z.div_eucl a b). reflexivity. Qed.

Lemma new_location_exact (b r : Z) : r = 0 -> new_location b r = loc_Exact.
Proof. intros ->. unfold new_location, new_location_even, new_location_odd. destruct (Z.even b); reflexivity. Qed.

Lemma new_location_inexact (b r : Z) : r <> 0 -> exists c, new_location b r = loc_Inexact c.
Proof.
  intros Hr. unfold new_location, new_location_even, new_location_odd.
  assert (E : (r =? 0) = false) by (apply Z.eqb_neq; exact Hr).
  destruct (Z.even b); cbv beta iota zeta; rewrite E; eexists; reflexivity.
Qed.

Lemma div_core_spec (a b : positive) (q e : Z) (l : location) :
  -900 <= Zdigits2 (Zpos a) - Zdigits2 (Zpos b) <= 900 ->
  SFdiv_core_binary 53 1024 (Zpos a) 0 (Zpos b) 0 = (q, e, l) ->
  bracket q e l (inject_Z (Zpos a) / inject_Z (Zpos b)) /\ 2 ^ 52 <= q /\ e <= 0.
Proof.
  intros Hd. unfold SFdiv_core_binary.
  rewrite fexp_normal by lia.
  set (d1 := Zdigits2 (Zpos a)) in *. set (d2 := Zdigits2 (Zpos b)) in *.
  set (e' := Z.min (d1 + 0 - (d2 + 0) - 53) (0 - 0)).
  set (s := 0 - 0 - e').
  assert (Hs : 0 <= s) by (unfold s, e'; lia).
  assert (Em : match s with Zpos _ => Z.shiftl (Zpos a) s | Z0 => Zpos a | Zneg _ => 0 end
               = Zpos a * 2 ^ s).
  { clearbody s. destruct s as [|ps|ps]; [rewrite Z.mul_1_r; reflexivity|apply Z.shiftl_mul_pow2; lia|lia]. }
  rewrite Em, div_eucl_div_mod. intros Heq.
  set (m' := Zpos a * 2 ^ s) in Heq.
  assert (Hq : q = m' / Zpos b) by (injection Heq; intros; subst; reflexivity).
  assert (He : e = e') by (injection Heq; intros; subst; reflexivity).
  assert (Hl : l = new_location (Zpos b) (m' mod Zpos b)) by (injection Heq; intros; subst; reflexivity).
  subst q e l. clear Heq.
  pose proof (Z.div_mod m' (Zpos b) ltac:(lia)) as Hdm.
  pose proof (Z.mod_pos_bound m' (Zpos b) ltac:(lia)) as Hmb.
  set (q0 := m' / Zpos b) in *. set (r0 := m' mod Zpos b) in *.
  assert (Hq2 : (Q2 e' * inject_Z (2 ^ s) == 1)%Q).
  { rewrite <- (Q2_Z s Hs), <- Q2_add. replace (e' + s) with 0 by (unfold s; ring). reflexivity. }
  assert (Hb : ~ (inject_Z (Zpos b) == 0)%Q).
  { change 0%Q with (inject_Z 0). rewrite inject_Z_injective. lia. }
  assert (Hv : (inject_Z (Zpos a) / inject_Z (Zpos b)
                == (inject_Z q0 + inject_Z r0 / inject_Z (Zpos b)) * Q2 e')%Q).
  { setoid_replace (inject_Z (Zpos a)) with (inject_Z m' * Q2 e')%Q using relation Qeq at 1.
    - rewrite Hdm, inject_Z_plus, inject_Z_mult. field. exact Hb.
    - unfold m'. rewrite inject_Z_mult. rewrite <- Qmult_assoc, (Qmult_comm (inject_Z (2 ^ s))), Hq2. ring. }
  pose proof (Q2_pos e') as Pe.
  assert (Hr0 : (0 <= inject_Z r0 / inject_Z (Zpos b) <= 1)%Q).
  { split.
    - apply Qle_shift_div_l; [change 0%Q with (inject_Z 0); rewrite <- Zlt_Qlt; lia|].
      rewrite Qmult_0_l. change 0%Q with (inject_Z 0). rewrite <- Zle_Qle. lia.
    - apply Qle_shift_div_r; [change 0%Q with (inject_Z 0); rewrite <- Zlt_Qlt; lia|].
      rewrite Qmult_1_l. rewrite <- Zle_Qle. lia. }
  split; [|split; [|unfold e'; lia]].
  - destruct (Z.eq_dec r0 0) as [Hz|Hz].
    + rewrite (new_location_exact _ _ Hz). unfold bracket. rewrite Hv, Hz.
      setoid_replace (inject_Z 0 / inject_Z (Zpos b))%Q with 0%Q using relation Qeq by (change (inject_Z 0) with 0%Q; unfold Qdiv; apply Qmult_0_l). ring.
    + destruct (new_location_inexact (Zpos b) r0 Hz) as [c ->]. unfold bracket. rewrite Hv, inject_Z_plus.
      change (inject_Z 1) with 1%Q.
      split; apply Qmult_le_compat_r; lra.
  - pose proof (digits2_bounds (Zpos a) ltac:(lia)) as [A1 _].
    pose proof (digits2_bounds (Zpos b) ltac:(lia)) as [_ B2].
    fold d1 d2 in A1, B2.
    assert (HD1 : 1 <= d1) by (apply (digits_ge_of_le _ 0); lia).
    assert (HD2 : 1 <= d2) by (apply (digits_ge_of_le _ 0); lia).
    apply Z.div_le_lower_bound; [lia|].
    assert (Hs' : 53 - d1 + d2 <= s) by (unfold s, e'; lia).
    assert (2 ^ (d1 - 1) * 2 ^ s <= m') by (unfold m'; apply Z.mul_le_mono_nonneg_r; [apply Z.pow_nonneg; lia|exact A1]).
    rewrite <- Z.pow_add_r in H by lia.
    assert (2 ^ (52 + d2) <= 2 ^ (d1 - 1 + s)) by (apply Z.pow_le_mono_r; lia).
    rewrite Z.pow_add_r in H0 by lia.
    assert (0 < 2 ^ 52) by (apply Z.pow_pos_nonneg; lia). nia.
Qed.

Lemma truediv_spec (a b : Z) : 0 <= a <= 2 ^ 400 -> 0 < b <= 2 ^ 400 ->
  exists f, py_int_truediv a b = Some f /\ fnn f /\
    ((1 - eta) * (inject_Z a / inject_Z b) <= fval f <= (1 + eta) * (inject_Z a / inject_Z b))%Q.
Proof.
  intros Ha Hb. unfold py_int_truediv.
  replace (b =? 0) with false by (symmetry; apply Z.eqb_neq; lia).
  destruct b as [|pb|pb]; [lia| |lia].
  destruct a as [|pa|pa]; [|  |lia].
  - exists (S754_zero false). split; [reflexivity|]. split; [exact I|].
    simpl fval. setoid_replace (inject_Z 0 / inject_Z (Zpos pb))%Q with 0%Q
      using relation Qeq by (change (inject_Z 0) with 0%Q; unfold Qdiv; apply Qmult_0_l). lra.
  - unfold sf_of_Z, SFdiv.
    destruct (SFdiv_core_binary 53 1024 (Zpos pa) 0 (Zpos pb) 0) as [[q e] l] eqn:Ec.
    assert (D1 : 1 <= Zdigits2 (Zpos pa) <= 401).
    { split; [apply (digits_ge_of_le _ 0); lia|apply digits_le_of_lt; lia]. }
    assert (D2 : 1 <= Zdigits2 (Zpos pb) <= 401).
    { split; [apply (digits_ge_of_le _ 0); lia|apply digits_le_of_lt; lia]. }
    destruct (div_core_spec pa pb q e l ltac:(lia) Ec) as (Hbr & Hq & He).
    set (v := (inject_Z (Zpos pa) / inject_Z (Zpos pb))%Q) in *.
    assert (Hbq : (0 < inject_Z (Zpos pb))%Q) by (change 0%Q with (inject_Z 0); rewrite <- Zlt_Qlt; lia).
    assert (Vhi : (v <= Q2 900)%Q).
    { apply Qle_shift_div_r; [exact Hbq|].
      apply Qle_trans with (Q2 900 * 1)%Q.
      - rewrite Qmult_1_r. apply Qle_trans with (Q2 400); [|apply Q2_le; lia].
        rewrite (Q2_Z 400) by lia. rewrite <- Zle_Qle. lia.
      - apply Qmult_le_l; [apply Q2_pos|]. change 1%Q with (inject_Z 1). rewrite <- Zle_Qle. lia. }
    assert (Vlo : (Q2 (-900) <= v)%Q).
    { apply Qle_shift_div_l; [exact Hbq|].
      apply Qle_trans with (Q2 (-900) * inject_Z (2 ^ 400))%Q.
      - apply Qmult_le_l; [apply Q2_pos|]. rewrite <- Zle_Qle. lia.
      - apply Qle_trans with 1%Q; [unfold Qle; vm_compute; discriminate|].
        change 1%Q with (inject_Z 1). rewrite <- Zle_Qle. lia. }
    pose proof (bracket_weak _ _ _ _ Hbr) as [Bl Bh].
    assert (Hdig : 53 <= Zdigits2 q) by (apply (digits_ge_of_le _ 52) in Hq; lia).
    assert (Hrng : -900 <= Zdigits2 q + e <= 901).
    { apply (digits_range _ _ (-900) 900); [lia| |]; eapply Qle_trans; eauto. }
    destruct (round_aux_spec q e l v ltac:(lia) Hbr (or_intror Hdig) ltac:(lia) ltac:(lia) ltac:(lia))
      as (m & e2 & Hr & Hm & Hb1 & _).
    exists (S754_finite false m e2). change (xorb false false) with false. rewrite Hr. split; [reflexivity|].
    split; [exact Hm|exact Hb1].
Qed.

Lemma truediv_self (a : Z) : 0 < a -> py_int_truediv a a = Some f_one.
Proof.
  intros Ha. unfold py_int_truediv.
  replace (a =? 0) with false by (symmetry; apply Z.eqb_neq; lia).
  destruct a as [|p|p]; [lia| |lia].
  unfold sf_of_Z, SFdiv, SFdiv_core_binary.
  rewrite fexp_normal by lia.
  replace (Z.min (Zdigits2 (Zpos p) + 0 - (Zdigits2 (Zpos p) + 0) - 53) (0 - 0)) with (-53) by lia.
  change (0 - 0 - -53) with 53. cbn iota.
  rewrite Z.shiftl_mul_pow2 by lia. rewrite div_eucl_div_mod.
  rewrite (Z.mul_comm (Zpos p)), Z.div_mul, Z.mod_mul by lia.
  rewrite new_location_exact by reflexivity.
  vm_compute. reflexivity.
Qed.

Lemma rel_mul_r (k a v : Q) : (0 <= k)%Q -> rel a v -> rel (a * k) (v * k).
Proof.
  unfold rel. intros Hk [H1 H2]. split.
  - setoid_replace ((1 - eta) * (a * k))%Q with ((1 - eta) * a * k)%Q using relation Qeq by ring.
    apply Qmult_le_compat_r; assumption.
  - setoid_replace ((1 + eta) * (a * k))%Q with ((1 + eta) * a * k)%Q using relation Qeq by ring.
    apply Qmult_le_compat_r; assumption.
Qed.

Lemma rel_mul_l (k a v : Q) : (0 <= k)%Q -> rel a v -> rel (k * a) (k * v).
Proof.
  intros Hk H. pose proof (rel_mul_r k a v Hk H) as [H1 H2]. unfold rel.
  rewrite (Qmult_comm k a), (Qmult_comm k v). split; assumption.
Qed.

Lemma rel_compat (a b v : Q) : (a == b)%Q -> rel a v -> rel b v.
Proof. unfold rel. intros E. rewrite E. tauto. Qed.

Lemma Qdiv_pos (a b : Z) : 0 < a -> 0 < b -> (0 < inject_Z a / inject_Z b)%Q.
Proof.
  intros Ha Hb. apply Qlt_shift_div_l; [change 0%Q with (inject_Z 0); rewrite <- Zlt_Qlt; lia|].
  rewrite Qmult_0_l. change 0%Q with (inject_Z 0). rewrite <- Zlt_Qlt. lia.
Qed.

Lemma Qdiv_mul_cancel (a b : Z) : 0 < b -> (inject_Z a / inject_Z b * inject_Z b == inject_Z a)%Q.
Proof.
  intros Hb. field. change 0%Q with (inject_Z 0). rewrite inject_Z_injective. lia.
Qed.

Lemma Zle_inj (a b : Z) : a <= b -> (inject_Z a <= inject_Z b)%Q.
Proof. rewrite <- Zle_Qle. exact (fun h => h). Qed.

Lemma inject_Z_sub (a b : Z) : (inject_Z (a - b) == inject_Z a - inject_Z b)%Q.
Proof. unfold Qeq, Qminus, Qplus, Qopp. simpl. lia. Qed.

Lemma axis_forward (x pw sw : Z) (s u : Q) (X : Z) :
  0 <= x < pw -> 0 < sw <= 2 ^ 24 -> pw <= 2 ^ 24 ->
  rel (inject_Z sw / inject_Z pw) s -> rel (inject_Z x * s) u ->
  (inject_Z X <= u < inject_Z X + 1)%Q -> 0 <= X <= sw.
Proof.
  intros Hx Hsw Hpw Hs Hu [HX1 HX2].
  set (S := (inject_Z sw / inject_Z pw)%Q) in *.
  assert (HS : (0 < S)%Q) by (apply Qdiv_pos; lia).
  assert (Hx0 : (0 <= inject_Z x)%Q) by (apply (Zle_inj 0); lia).
  pose proof (rel_mul_l _ _ _ Hx0 Hs) as [Hxs1 Hxs2].
  destruct Hu as [Hu1 Hu2].
  assert (HA0 : (0 <= inject_Z x * S)%Q) by (apply Qmult_le_0_compat; lra).
  assert (HAS : ((inject_Z x + 1) * S <= inject_Z sw)%Q).
  { apply Qle_trans with (inject_Z pw * S)%Q.
    - apply Qmult_le_compat_r; [|lra]. change 1%Q with (inject_Z 1).
      rewrite <- inject_Z_plus. apply Zle_inj. lia.
    - unfold S. rewrite Qmult_comm. rewrite Qdiv_mul_cancel by lia. apply Qle_refl. }
  assert (Hsw' : (inject_Z sw <= inject_Z (2 ^ 24))%Q) by (apply Zle_inj; lia).
  change (inject_Z (2 ^ 24)) with (16777216 # 1) in Hsw'.
  assert (L : (-1 < inject_Z X)%Q) by (unfold eta in *; lra).
  assert (U : (inject_Z X < inject_Z sw + 1)%Q) by (unfold eta in *; lra).
  change (-1)%Q with (inject_Z (-1)) in L. rewrite <- Zlt_Qlt in L.
  change 1%Q with (inject_Z 1) in U. rewrite <- inject_Z_plus, <- Zlt_Qlt in U.
  lia.
Qed.

Lemma axis_back (x pw sw : Z) (s u q r : Q) (X x' : Z) :
  0 <= x < pw -> 0 < sw <= 2 ^ 24 -> pw <= 2 ^ 24 ->
  rel (inject_Z sw / inject_Z pw) s -> rel (inject_Z x * s) u ->
  (inject_Z X <= u < inject_Z X + 1)%Q ->
  rel (inject_Z X / inject_Z sw) q -> rel (q * inject_Z pw) r ->
  (inject_Z x' <= r < inject_Z x' + 1)%Q ->
  x' <= x /\ (x - x') * sw <= pw + sw /\ (pw < sw -> x - 1 <= x').
Proof.
  intros Hx Hsw Hpw Hs Hu [HX1 HX2] Hq Hr [Hx'1 Hx'2].
  set (S := (inject_Z sw / inject_Z pw)%Q) in *.
  set (T := (inject_Z pw / inject_Z sw)%Q).
  assert (HT : (0 < T)%Q) by (apply Qdiv_pos; lia).
  assert (HST : (S * T == 1)%Q).
  { unfold S, T. field. split; change 0%Q with (inject_Z 0); rewrite inject_Z_injective; lia. }
  assert (Hx0 : (0 <= inject_Z x)%Q) by (apply (Zle_inj 0); lia).
  (* u * T is x up to two rounding errors *)
  pose proof (rel_mul_l _ _ _ Hx0 Hs) as Hxs.
  pose proof (rel_mul_r _ _ _ (Qlt_le_weak _ _ HT) Hxs) as [Hxt1 Hxt2].
  pose proof (rel_mul_r _ _ _ (Qlt_le_weak _ _ HT) Hu) as [Hut1 Hut2].
  assert (EX : (inject_Z x * S * T == inject_Z x)%Q) by (rewrite <- Qmult_assoc, HST; ring).
  rewrite EX in Hxt1, Hxt2.
  (* X * T against u * T *)
  assert (HXT1 : (inject_Z X * T <= u * T)%Q) by (apply Qmult_le_compat_r; lra).
  assert (HXT2 : ((u - 1) * T < inject_Z X * T)%Q) by (apply Qmult_lt_compat_r; lra).
  (* r is X * T up to two rounding errors *)
  assert (HqT : (0 <= inject_Z pw)%Q) by (apply (Zle_inj 0); lia).
  pose proof (rel_mul_r _ _ _ HqT Hq) as Hqp.
  assert (EB : (inject_Z X / inject_Z sw * inject_Z pw == inject_Z X * T)%Q) by (unfold T, Qdiv; ring).
  apply (rel_compat _ _ _ EB) in Hqp. destruct Hqp as [Hqp1 Hqp2]. destruct Hr as [Hr1 Hr2].
  assert (Hxb : (inject_Z x <= 16777216 # 1)%Q).
  { apply Qle_trans with (inject_Z pw); [apply Zle_inj; lia|].
    change (16777216 # 1)%Q with (inject_Z (2 ^ 24)). apply Zle_inj; lia. }
  assert (Up : (inject_Z x' < inject_Z x + 1)%Q) by (unfold eta in *; nra).
  assert (Lo : (inject_Z x - inject_Z x' < 4 * eta * inject_Z x + T + 1)%Q) by (unfold eta in *; nra).
  change 1%Q with (inject_Z 1) in Up. rewrite <- inject_Z_plus, <- Zlt_Qlt in Up.
  assert (Hsw0 : (0 < inject_Z sw)%Q) by (change 0%Q with (inject_Z 0); rewrite <- Zlt_Qlt; lia).
  apply (Qmult_lt_compat_r _ _ _ Hsw0) in Lo.
  assert (ETs : (T * inject_Z sw == inject_Z pw)%Q) by (unfold T; apply Qdiv_mul_cancel; lia).
  assert (Hxs48 : (inject_Z x * inject_Z sw <= 281474976710656 # 1)%Q).
  { rewrite <- inject_Z_mult. change (281474976710656 # 1)%Q with (inject_Z (2 ^ 48)).
    apply Zle_inj. assert (2 ^ 48 = 2 ^ 24 * 2 ^ 24) by reflexivity. nia. }
  assert (Lo' : (inject_Z ((x - x') * sw) < inject_Z (pw + sw + 1))%Q).
  { rewrite inject_Z_mult, inject_Z_sub, !inject_Z_plus. change (inject_Z 1) with 1%Q.
    setoid_replace ((4 * eta * inject_Z x + T + 1) * inject_Z sw)%Q
      with (4 * eta * (inject_Z x * inject_Z sw) + T * inject_Z sw + inject_Z sw)%Q using relation Qeq in Lo by ring.
    rewrite ETs in Lo. unfold eta in *. lra. }
  rewrite <- Zlt_Qlt in Lo'.
  split; [lia|]. split; [lia|]. intros Hlt. nia.
Qed.

Lemma axis_back_native (x sw : Z) (q r : Q) (x' : Z) :
  0 <= x <= 2 ^ 24 -> 0 < sw ->
  rel (inject_Z x / inject_Z sw) q -> rel (q * inject_Z sw) r ->
  (inject_Z x' <= r < inject_Z x' + 1)%Q -> x - 1 <= x' <= x.
Proof.
  intros Hx Hsw Hq Hr [H1 H2].
  assert (Hsw0 : (0 <= inject_Z sw)%Q) by (apply (Zle_inj 0); lia).
  pose proof (rel_mul_r _ _ _ Hsw0 Hq) as Hqs.
  apply (rel_compat _ _ _ (Qdiv_mul_cancel x sw Hsw)) in Hqs.
  destruct Hqs as [A1 A2]. destruct Hr as [B1 B2].
  assert (Hxb : (0 <= inject_Z x <= 16777216 # 1)%Q).
  { split; [apply (Zle_inj 0); lia|].
    change (16777216 # 1)%Q with (inject_Z (2 ^ 24)). apply Zle_inj; lia. }
  assert (L : (inject_Z x - 2 < inject_Z x')%Q) by (unfold eta in *; nra).
  assert (U : (inject_Z x' < inject_Z x + 1)%Q) by (unfold eta in *; nra).
  change 2%Q with (inject_Z 2) in L. change 1%Q with (inject_Z 1) in U.
  rewrite <- inject_Z_sub, <- Zlt_Qlt in L. rewrite <- inject_Z_plus, <- Zlt_Qlt in U.
  lia.
Qed.

Lemma fmul_rel (f g : double) : fnn f -> fnn g -> in_range (fval f) -> in_range (fval g) ->
  fnn (py_fmul f g) /\ rel (fval f * fval g) (fval (py_fmul f g)).
Proof.
  intros Hf Hg [[F1 F2] F3] [[G1 G2] G3].
  assert (HQ1 : (1152921504606846976 # 1 <= Q2 900)%Q).
  { change (1152921504606846976 # 1)%Q with (inject_Z (2 ^ 60)). rewrite <- Q2_Z by lia. apply Q2_le; lia. }
  assert (HQ2 : (Q2 (-900) <= 1 # 1152921504606846976)%Q).
  { change (1 # 1152921504606846976)%Q with (/ inject_Z (2 ^ 60))%Q. rewrite <- Q2_Z by lia.
    unfold Q2. rewrite <- Qpower_opp. apply Q2_le; lia. }
  apply fmul_spec; [assumption|assumption| |].
  - apply Qle_trans with (1152921504606846976 # 1)%Q; [|exact HQ1]. nra.
  - destruct F3 as [F3|F3]; [left; rewrite F3; ring|].
    destruct G3 as [G3|G3]; [left; rewrite G3; ring|].
    right. apply Qle_trans with (1 # 1152921504606846976)%Q; [exact HQ2|]. nra.
Qed.

Lemma ratio_range (a b : Z) (v : Q) : 0 <= a <= 2 ^ 24 -> 0 < b <= 2 ^ 24 ->
  rel (inject_Z a / inject_Z b) v -> in_range v.
Proof.
  intros Ha Hb [H1 H2].
  assert (Hb0 : (0 < inject_Z b)%Q) by (change 0%Q with (inject_Z 0); rewrite <- Zlt_Qlt; lia).
  assert (U : (inject_Z a / inject_Z b <= 16777216 # 1)%Q).
  { apply Qle_shift_div_r; [exact Hb0|].
    apply Qle_trans with (16777216 # 1)%Q.
    - change (16777216 # 1)%Q with (inject_Z (2 ^ 24)). apply Zle_inj; lia.
    - setoid_replace (16777216 # 1)%Q with ((16777216 # 1) * 1)%Q using relation Qeq at 1 by ring.
      apply Qmult_le_l; [unfold Qlt; simpl; lia|]. change 1%Q with (inject_Z 1). apply Zle_inj; lia. }
  destruct (Z.eq_dec a 0) as [->|Ha0].
  - assert (E : (inject_Z 0 / inject_Z b == 0)%Q) by (change (inject_Z 0) with 0%Q; unfold Qdiv; ring).
    rewrite E in H1, H2. split; [split|left]; unfold eta in *; lra.
  - assert (L : (1 # 16777216 <= inject_Z a / inject_Z b)%Q).
    { apply Qle_shift_div_l; [exact Hb0|].
      apply Qle_trans with 1%Q; [|change 1%Q with (inject_Z 1); apply Zle_inj; lia].
      apply Qle_trans with ((1 # 16777216) * (16777216 # 1))%Q; [|unfold Qle; simpl; lia].
      apply Qmult_le_l; [unfold Qlt; simpl; lia|]. change (16777216 # 1)%Q with (inject_Z (2 ^ 24)). apply Zle_inj; lia. }
    split; [split|right]; unfold eta in *; lra.
Qed.

Lemma int_range (z : Z) : 0 <= z <= 2 ^ 24 -> in_range (inject_Z z).
Proof.
  intros Hz. split; [split|].
  - apply (Zle_inj 0); lia.
  - change (1073741824 # 1)%Q with (inject_Z (2 ^ 30)). apply Zle_inj; lia.
  - destruct (Z.eq_dec z 0) as [->|Hz0]; [left; reflexivity|right].
    apply Qle_trans with 1%Q; [unfold Qle; simpl; lia|]. change 1%Q with (inject_Z 1). apply Zle_inj; lia.
Qed.

Lemma in_range_eq (a b : Q) : (a == b)%Q -> in_range a -> in_range b.
Proof. unfold in_range. intros E. rewrite E. tauto. Qed.

Lemma in_range_Q2 (a : Q) : in_range a -> (a <= Q2 900)%Q /\ (a == 0 \/ Q2 (-900) <= a)%Q.
Proof.
  intros [[A1 A2] A3].
  assert (HQ1 : (1073741824 # 1 <= Q2 900)%Q).
  { change (1073741824 # 1)%Q with (inject_Z (2 ^ 30)). rewrite <- Q2_Z by lia. apply Q2_le; lia. }
  assert (HQ2 : (Q2 (-900) <= 1 # 1073741824)%Q).
  { change (1 # 1073741824)%Q with (/ inject_Z (2 ^ 30))%Q. rewrite <- Q2_Z by lia.
    unfold Q2. rewrite <- Qpower_opp. apply Q2_le; lia. }
  split; [lra|]. destruct A3; [left; assumption|right; lra].
Qed.

Lemma axis_round_trip_f (x pw sw : Z) :
  0 <= x < pw -> 0 < sw <= 2 ^ 24 -> pw <= 2 ^ 24 ->
  exists s fx X q pwf x',
    py_int_truediv sw pw = Some s /\ py_float_of_int x = Some fx /\
    py_int_of_float (py_fmul fx s) = Some X /\ 0 <= X <= sw /\
    py_int_truediv X sw = Some q /\ py_float_of_int pw = Some pwf /\
    py_int_of_float (py_fmul q pwf) = Some x' /\
    x' <= x /\ (x - x') * sw <= pw + sw /\ (pw <= sw -> x - 1 <= x').
Proof.
  intros Hx Hsw Hpw.
  assert (B400 : 2 ^ 24 <= 2 ^ 400) by (apply Z.pow_le_mono_r; lia).
  assert (B53 : 2 ^ 24 < 2 ^ 53) by (apply Z.pow_lt_mono_r; lia).
  destruct (truediv_spec sw pw ltac:(lia) ltac:(lia)) as (s & Es & Ns & Rs).
  destruct (float_of_int_spec x ltac:(lia)) as (fx & Efx & Nfx & Vfx).
  assert (Ifx : in_range (fval fx)) by (apply (in_range_eq _ _ (Qeq_sym _ _ Vfx)), int_range; lia).
  assert (Is : in_range (fval s)) by (apply (ratio_range sw pw); [lia|lia|exact Rs]).
  destruct (fmul_rel fx s Nfx Ns Ifx Is) as [Nu Ru].
  set (u := py_fmul fx s) in *.
  destruct (int_of_float_spec u Nu) as (X & EX & BX).
  assert (Ru' : rel (inject_Z x * fval s) (fval u)) by (apply (rel_compat (fval fx * fval s)); [rewrite Vfx; reflexivity|exact Ru]).
  pose proof (axis_forward x pw sw (fval s) (fval u) X ltac:(lia) ltac:(lia) ltac:(lia) Rs Ru' BX) as HX.
  destruct (truediv_spec X sw ltac:(lia) ltac:(lia)) as (q & Eq & Nq & Rq).
  destruct (float_of_int_spec pw ltac:(lia)) as (pwf & Epwf & Npwf & Vpwf).
  assert (Ipwf : in_range (fval pwf)) by (apply (in_range_eq _ _ (Qeq_sym _ _ Vpwf)), int_range; lia).
  assert (Iq : in_range (fval q)) by (apply (ratio_range X sw); [lia|lia|exact Rq]).
  destruct (fmul_rel q pwf Nq Npwf Iq Ipwf) as [Nr Rr].
  set (r := py_fmul q pwf) in *.
  destruct (int_of_float_spec r Nr) as (x' & Ex' & Bx').
  assert (Rr' : rel (fval q * inject_Z pw) (fval r)) by (apply (rel_compat (fval q * fval pwf)); [rewrite Vpwf; reflexivity|exact Rr]).
  destruct (axis_back x pw sw (fval s) (fval u) (fval q) (fval r) X x'
              ltac:(lia) ltac:(lia) ltac:(lia) Rs Ru' BX Rq Rr' Bx') as (A1 & A2 & A3).
  exists s, fx, X, q, pwf, x'. do 9 (split; [assumption|]).
  intros Hle. destruct (Z.lt_ge_cases pw sw) as [Hlt|Hge]; [apply A3; exact Hlt|].
  assert (Epw : pw = sw) by lia. subst pw.
  (* native size: the scale is exactly 1.0 and x is drawn at x *)
  rewrite truediv_self in Es by lia. injection Es as <-.
  destruct (in_range_Q2 _ Ifx) as [Q1 Q2'].
  destruct (fmul_one fx Nfx Q1 Q2') as [_ Vu]. fold u in Vu.
  rewrite Vu, Vfx in BX. destruct BX as [BX1 BX2].
  rewrite <- Zle_Qle in BX1. change 1%Q with (inject_Z 1) in BX2.
  rewrite <- inject_Z_plus, <- Zlt_Qlt in BX2.
  assert (EXx : X = x) by lia. subst X.
  destruct (axis_back_native x sw (fval q) (fval r) x' ltac:(lia) ltac:(lia) Rq Rr' Bx'). lia.
Qed.

(* ------------------------------------------------------------------ *)
(** ** C1: drawing a point and converting its screen position back *)




(** C2: one Ctrl+wheel step up with the cursor at the centre (400, 300) of
    an 800x600 image shown at native size in an 800x600 widget.  Before the
    zoom the cursor is on image pixel (400, 300); after it the zoom is 1.1,
    [pan_offset] is (-40, -30) and the same cursor position is on image
    pixel (436, 327).  The pan formula uses [pan_offset] as if it were the
    image origin and leaves out the centring term [(width - sw) // 2]. *)
Theorem wheel_zoom_moves_pixel_under_cursor :
  qrect_contains (get_image_rect view_native) (400, 300) = true /\
  screen_to_image_coords view_native (400, 300) = Some (400, 300) /\
  zoom_factor (wheelEvent view_native true 120 (400, 300)) = (11 # 10)%Q /\
  pan_offset (wheelEvent view_native true 120 (400, 300)) = (-40, -30) /\
  screen_to_image_coords (wheelEvent view_native true 120 (400, 300)) (400, 300)
    = Some (436, 327).
Proof. vm_compute. repeat split. Qed.

(* ------------------------------------------------------------------ *)
(** ** Stack lemmas *)

Open Scope nat_scope.

Lemma push_undo_cases (st : list undo_state) (e : undo_state) :
  (length st < 50 /\ push_undo st e = st ++ [e]) \/
  (50 <= length st /\ push_undo st e = drop 1 (st ++ [e])).
Proof.
  unfold push_undo, zlen, max_undo_steps. rewrite length_app. simpl.
  destruct (Z.ltb_spec 50 (Z.of_nat (length st + 1))); [right | left]; split; auto; lia.
Qed.

Lemma push_undo_snoc (st : list undo_state) (e : undo_state) :
  exists X, push_undo st e = X ++ [e].
Proof.
  destruct (push_undo_cases st e) as [[_ ->] | [Hl ->]].
  - by exists st.
  - destruct st as [|x st]; simpl in Hl; [lia|]. exists st. reflexivity.
Qed.

Lemma push_undo_snoc2 (X : list undo_state) (a d : undo_state) :
  exists Y, push_undo (X ++ [a]) d = Y ++ [a; d].
Proof.
  destruct (push_undo_cases (X ++ [a]) d) as [[_ ->] | [Hl ->]].
  - exists X. by rewrite <- app_assoc.
  - rewrite length_app in Hl. destruct X as [|x X]; simpl in Hl; [lia|].
    exists X. simpl. by rewrite <- app_assoc.
Qed.

Lemma push_undo_length (st : list undo_state) (e : undo_state) :
  length st <= 50 -> length (push_undo st e) = Nat.min 50 (length st + 1).
Proof.
  intros Hl. destruct (push_undo_cases st e) as [[H ->] | [H ->]];
    rewrite ?length_drop, length_app; cbn [length]; lia.
Qed.

Lemma pushes_drop (st es : list undo_state) :
  length st <= 50 -> pushes st es = drop (length st + length es - 50) (st ++ es).
Proof.
  revert st. induction es as [|e es IH]; intros st Hl; simpl.
  - rewrite app_nil_r. replace (length st + 0 - 50)%nat with 0%nat by lia. done.
  - unfold pushes in *. simpl. rewrite IH by (rewrite push_undo_length; lia).
    rewrite push_undo_length by lia.
    destruct (push_undo_cases st e) as [[H ->] | [H ->]].
    + rewrite <- app_assoc. cbn [app length]. f_equal. lia.
    + destruct st as [|x st']; [cbn [length] in H; lia|].
      cbn [app drop length] in *. rewrite drop_0, <- app_assoc. cbn [app].
      replace (S (length st') + S (length es) - 50)%nat
        with (S (length st' + S (length es) - 50)) by lia.
      cbn [drop]. f_equal. lia.
Qed.

Lemma undo_pops_last (s : canvas) (X : list undo_state) (e : undo_state) :
  undo_stack s = X ++ [e] -> undo_stack (undo_st s) = X.
Proof.
  intros Hs. unfold undo_st, undo. rewrite Hs, rev_unit. simpl. rewrite rev_involutive.
  destruct (action_type e); simpl; [reflexivity | reflexivity |].
  destruct (data e); simpl; try reflexivity.
  destruct (_ && _); reflexivity.
Qed.

Lemma undo_n_stack (n : nat) (s : canvas) :
  length (undo_stack s) = n -> undo_stack (undo_n n s) = [].
Proof.
  revert s. induction n as [|n IH]; intros s Hl; simpl.
  - by apply length_zero_iff_nil.
  - apply IH. destruct (undo_stack s) as [|x st] eqn:Hs using rev_ind; [simpl in Hl; lia|].
    rewrite (undo_pops_last s st x Hs). rewrite length_app in Hl. simpl in Hl. lia.
Qed.

(** C5: the undo stack never exceeds [max_undo_steps] (50).  Recording is
    [save_state_for_undo]; from a stack of at most 50 entries, recording the
    entries [es] leaves exactly the last [min 50 (n + |es|)] of them, so
    more than 50 edits from an empty stack leave exactly 50, the newest;
    a push at capacity drops the entry at index 0; [undo()] removes the
    newest entry, and 50 undos empty a full stack, so an evicted edit can
    never be undone. *)
Theorem undo_stack_bounded_fifo_lifo :
  (forall (s : canvas) a d, length (undo_stack s) <= 50 ->
     length (undo_stack (save_state_for_undo s a d)) <= 50) /\
  (forall (st es : list undo_state), length st <= 50 ->
     pushes st es = drop (length st + length es - 50) (st ++ es)) /\
  (forall (es : list undo_state), 50 < length es ->
     length (pushes [] es) = 50 /\ pushes [] es = drop (length es - 50) es) /\
  (forall (st : list undo_state) e, length st = 50 -> push_undo st e = drop 1 st ++ [e]) /\
  (forall (s : canvas) X e, undo_stack s = X ++ [e] -> undo_stack (undo_st s) = X) /\
  (forall (s : canvas), length (undo_stack s) = 50 -> undo_stack (undo_n 50 s) = []).
Proof.
  split; [|split; [|split; [|split; [|split]]]].
  - intros s a d Hl. unfold save_state_for_undo. simpl.
    rewrite push_undo_length by lia. lia.
  - exact pushes_drop.
  - intros es Hl. rewrite pushes_drop by (simpl; lia). simpl. split; [|done].
    rewrite length_drop. lia.
  - intros st e Hl. destruct (push_undo_cases st e) as [[H _] | [_ ->]]; [lia|].
    destruct st; simpl in Hl; [lia|]. reflexivity.
  - exact undo_pops_last.
  - intros s Hl. by apply undo_n_stack.
Qed.

Open Scope Z_scope.

Lemma undo_stack_bounded_fifo_lifo_witness :
  (50 < length (repeat entry_add0 51))%nat /\
  length (pushes [] (repeat entry_add0 51)) = 50%nat.
Proof.
  split; [simpl; lia|].
  apply (proj1 (proj1 (proj2 (proj2 undo_stack_bounded_fifo_lifo)) (repeat entry_add0 51)
                  ltac:(simpl; lia))).
Defined.

(* ------------------------------------------------------------------ *)
(** ** C6: [undo()] on an empty stack *)

(** C6 (as stated): [undo()] on an empty stack returns [None], not
    [False]. *)
Lemma undo_empty_returns_none_not_false :
  fst (undo view_native) = PyNone /\ fst (undo view_native) <> PyBool false.
Proof. split; [reflexivity | discriminate]. Qed.

(** C6 (amended): [undo()] returns [None] on every path; on an empty stack
    it changes nothing (keypoints, selection, last-added marker, zoom, pan
    and the stack are all as before). *)
Theorem undo_empty_noop :
  (forall s : canvas, fst (undo s) = PyNone) /\
  (forall s : canvas, undo_stack s = [] -> undo s = (PyNone, s)).
Proof.
  split.
  - intros s. unfold undo. destruct (rev (undo_stack s)) as [|e rest]; [reflexivity|].
    destruct (action_type e); [reflexivity | reflexivity |].
    destruct (data e); try reflexivity. destruct (_ && _); reflexivity.
  - intros s Hs. unfold undo. rewrite Hs. reflexivity.
Qed.

Lemma undo_empty_noop_witness :
  undo_stack view_native = [] /\ undo view_native = (PyNone, view_native).
Proof.
  split; [reflexivity|]. apply (proj2 undo_empty_noop). reflexivity.
Defined.

(* ------------------------------------------------------------------ *)
(** ** C8: deleting a point re-indexes the selection *)

(** C8: the right-click deletion of index 1 from [[0,0],[1,1],[2,2]] with
    the selection at 2 gives [[0,0],[2,2]] with the selection at 1; in
    general both deletion paths ([handle_right_click] on the last-added
    index and [delete_selected_point] on the selection) remove exactly that
    index, a selection equal to it becomes -1 and a selection above it
    decreases by one (a selection below it is kept). *)
Theorem delete_reindexes_selection :
  keypoints (handle_right_click three_points) = [(0, 0); (2, 2)] /\
  selected_point (handle_right_click three_points) = 1 /\
  (forall s : canvas, 0 <= last_added_point s < zlen (keypoints s) ->
     keypoints (handle_right_click s) = py_del (keypoints s) (last_added_point s) /\
     selected_point (handle_right_click s) =
       (if selected_point s =? last_added_point s then -1
        else if last_added_point s <? selected_point s then selected_point s - 1
        else selected_point s)) /\
  (forall s : canvas, 0 <= selected_point s < zlen (keypoints s) ->
     keypoints (delete_selected_point s) = py_del (keypoints s) (selected_point s) /\
     selected_point (delete_selected_point s) = -1).
Proof.
  split; [reflexivity|]. split; [reflexivity|]. split.
  - intros s [H0 H1]. unfold handle_right_click.
    replace ((0 <=? last_added_point s) && (last_added_point s <? zlen (keypoints s)))
      with true by (symmetry; apply andb_true_intro; split; [apply Z.leb_le | apply Z.ltb_lt]; lia).
    cbn. destruct (selected_point s =? last_added_point s); [done|].
    destruct (last_added_point s <? selected_point s); done.
  - intros s [H0 H1]. unfold delete_selected_point.
    replace ((0 <=? selected_point s) && (selected_point s <? zlen (keypoints s)))
      with true by (symmetry; apply andb_true_intro; split; [apply Z.leb_le | apply Z.ltb_lt]; lia).
    done.
Qed.

Lemma delete_reindexes_selection_witness :
  0 <= last_added_point three_points < zlen (keypoints three_points) /\
  keypoints (handle_right_click three_points) = py_del (keypoints three_points) 1 /\
  selected_point (handle_right_click three_points) = 1.
Proof.
  split; [vm_compute; split; congruence|].
  destruct (proj1 (proj2 (proj2 delete_reindexes_selection)) three_points
              ltac:(vm_compute; split; congruence)) as [Hk Hs].
  split; [exact Hk | rewrite Hs; reflexivity].
Defined.

(* ------------------------------------------------------------------ *)
(** ** C3: structural undo *)

Lemma undo_structural (s : canvas) (Y : list undo_state) (e : undo_state) :
  action_type e <> Move -> undo_stack s = Y ++ [e] ->
  keypoints (undo_st s) = keypoints_before e /\
  selected_point (undo_st s) = selected_point_before e /\
  undo_stack (undo_st s) = Y.
Proof.
  intros Ha Hs. unfold undo_st, undo. rewrite Hs, rev_unit. cbn [snd].
  rewrite rev_involutive.
  destruct (action_type e); [done | done | congruence].
Qed.

(** C3: a click on empty space (the resolved image position [ip] has no
    point within the hit radius) appends [ip] and records an [add] entry
    holding the sequence and selection from before the click; selecting a
    different, pre-existing point [j] and pressing Delete records a
    [delete] entry holding the sequence and selection from before the
    deletion; two [undo()] calls then give back the original sequence, in
    order, and the original selection. *)
Theorem add_delete_undo_twice (s : canvas) (pos : Z * Z) (ip : point) (j : Z) :
  screen_to_image_coords s pos = Some ip ->
  closest_point s ip = -1 ->
  0 <= j < zlen (keypoints s) ->
  let s1 := handle_point_click s pos in
  let s3 := delete_selected_point (select_keypoint s1 j) in
  keypoints s1 = keypoints s ++ [ip] /\
  (exists X, undo_stack s1 =
     X ++ [{| action_type := Add; keypoints_before := keypoints s;
              selected_point_before := selected_point s; data := AddData ip |}]) /\
  (exists Y, undo_stack s3 =
     Y ++ [{| action_type := Delete; keypoints_before := keypoints s1;
              selected_point_before := j;
              data := DeleteData j (py_get (keypoints s1) j) |}]) /\
  keypoints (undo_n 2 s3) = keypoints s /\
  selected_point (undo_n 2 s3) = selected_point s.
Proof.
  intros Hpos Hcl Hj s1 s3.
  set (a := {| action_type := Add; keypoints_before := keypoints s;
               selected_point_before := selected_point s; data := AddData ip |}).
  assert (Hs1 : s1 = with_last_added
                       (with_selected
                          (with_keypoints (with_stack s (push_undo (undo_stack s) a))
                                          (keypoints s ++ [ip]))
                          (zlen (keypoints s ++ [ip]) - 1))
                       (zlen (keypoints s ++ [ip]) - 1))
    by (subst s1; unfold handle_point_click; rewrite Hpos, Hcl; reflexivity).
  assert (Hlen : zlen (keypoints s ++ [ip]) = zlen (keypoints s) + 1)
    by (unfold zlen; rewrite length_app; simpl; lia).
  set (d := {| action_type := Delete; keypoints_before := keypoints s1;
               selected_point_before := j;
               data := DeleteData j (py_get (keypoints s1) j) |}).
  assert (Hs3 : undo_stack s3 = push_undo (push_undo (undo_stack s) a) d /\
                keypoints s3 = py_del (keypoints s1) j).
  { subst s3. unfold delete_selected_point, select_keypoint.
    replace ((0 <=? selected_point (with_selected s1 j)) &&
             (selected_point (with_selected s1 j) <? zlen (keypoints (with_selected s1 j))))
      with true.
    - subst d. rewrite Hs1. split; reflexivity.
    - symmetry. apply andb_true_intro. rewrite Hs1. cbn.
      split; [apply Z.leb_le | apply Z.ltb_lt]; lia. }
  destruct Hs3 as [Hst3 _].
  destruct (push_undo_snoc (undo_stack s) a) as [X HX].
  destruct (push_undo_snoc2 X a d) as [Y HY].
  split; [rewrite Hs1; reflexivity|].
  split; [exists X; rewrite Hs1; exact HX|].
  split; [exists (Y ++ [a]); rewrite Hst3, HX, HY, <- app_assoc; reflexivity|].
  assert (H3 : undo_stack s3 = (Y ++ [a]) ++ [d])
    by (rewrite Hst3, HX, HY, <- app_assoc; reflexivity).
  destruct (undo_structural s3 (Y ++ [a]) d ltac:(discriminate) H3) as [_ [_ Hu1]].
  destruct (undo_structural (undo_st s3) Y a ltac:(discriminate) Hu1) as [Hk [Hsel _]].
  split; [exact Hk | exact Hsel].
Qed.

Lemma add_delete_undo_twice_witness :
  screen_to_image_coords one_point (300, 300) = Some (300, 300) /\
  closest_point one_point (300, 300) = -1 /\
  keypoints (undo_n 2 (delete_selected_point
                         (select_keypoint (handle_point_click one_point (300, 300)) 0)))
    = [(100, 100)].
Proof.
  split; [reflexivity|]. split; [reflexivity|].
  destruct (add_delete_undo_twice one_point (300, 300) (300, 300) 0
              eq_refl eq_refl ltac:(vm_compute; split; congruence))
    as [_ [_ [_ [Hk _]]]].
  exact Hk.
Defined.

(* ------------------------------------------------------------------ *)
(** ** C4: keyboard nudges and their undo *)

Lemma move_selected_point_eq (t : canvas) (dx dy : Z) :
  0 <= selected_point t < zlen (keypoints t) ->
  move_selected_point t dx dy =
  with_keypoints (with_stack t (push_undo (undo_stack t) (move_entry t dx dy)))
                 (py_set (keypoints t) (selected_point t) (move_target t dx dy)).
Proof.
  intros [H0 H1]. unfold move_selected_point, move_entry, move_target.
  replace ((selected_point t <? 0) || (zlen (keypoints t) <=? selected_point t)) with false
    by (symmetry; apply orb_false_intro; [apply Z.ltb_ge | apply Z.leb_gt]; lia).
  destruct (py_get (keypoints t) (selected_point t)) as [x y].
  destruct (pixmap t) as [[pw ph]|]; reflexivity.
Qed.

Lemma py_set_length (l : list point) (i : Z) (v : point) :
  length (py_set l i v) = length l.
Proof. apply length_insert. Qed.

Lemma py_set_set (l : list point) (i : Z) (a b : point) :
  py_set (py_set l i a) i b = py_set l i b.
Proof. apply list_insert_insert_eq. Qed.

Lemma py_set_get (l : list point) (i : Z) :
  (Z.to_nat i < length l)%nat -> py_set l i (py_get l i) = l.
Proof.
  intros H. unfold py_set, py_get.
  destruct (lookup_lt_is_Some_2 l (Z.to_nat i) H) as [v Hv].
  rewrite Hv. simpl. by apply list_insert_id.
Qed.

Lemma nudges_snoc (t : canvas) (ds : list (Z * Z)) (d : Z * Z) :
  nudges t (ds ++ [d]) = move_selected_point (nudges t ds) (fst d) (snd d).
Proof. unfold nudges. by rewrite fold_left_app. Qed.

Lemma nudge_entries_snoc (t : canvas) (ds : list (Z * Z)) (d : Z * Z) :
  nudge_entries t (ds ++ [d]) = nudge_entries t ds ++ [move_entry (nudges t ds) (fst d) (snd d)].
Proof.
  revert t. induction ds as [|d' ds IH]; intros t; [reflexivity|].
  cbn [app nudge_entries]. rewrite IH. reflexivity.
Qed.

Lemma nudge_entries_length (t : canvas) (ds : list (Z * Z)) :
  length (nudge_entries t ds) = length ds.
Proof. revert t. induction ds; intros t; simpl; auto. Qed.

(** Pushing onto a stack that ends with fewer than 50 tracked entries keeps
    all of them. *)
Lemma push_undo_keeps (X E : list undo_state) (e : undo_state) :
  (length E < 50)%nat -> exists X', push_undo (X ++ E) e = X' ++ E ++ [e].
Proof.
  intros HE. destruct (push_undo_cases (X ++ E) e) as [[_ ->] | [Hl ->]].
  - exists X. by rewrite <- app_assoc.
  - rewrite length_app in Hl. destruct X as [|x X]; simpl in Hl; [lia|].
    exists X. simpl. by rewrite <- app_assoc.
Qed.

Section Nudges.
Variable s0 : canvas.
Variable i : Z.
Hypothesis Hsel : selected_point s0 = i.
Hypothesis Hi : 0 <= i < zlen (keypoints s0).

Lemma nudges_shape (ds : list (Z * Z)) :
  selected_point (nudges s0 ds) = i /\
  length (keypoints (nudges s0 ds)) = length (keypoints s0).
Proof.
  induction ds as [|d ds IH] using rev_ind; [split; [exact Hsel | reflexivity]|].
  destruct IH as [IH1 IH2]. rewrite nudges_snoc, move_selected_point_eq.
  - cbn. rewrite py_set_length. auto.
  - rewrite IH1. unfold zlen in *. rewrite IH2. lia.
Qed.

Lemma nudges_stack (ds : list (Z * Z)) :
  (length ds <= 50)%nat ->
  exists X, undo_stack (nudges s0 ds) = X ++ nudge_entries s0 ds.
Proof.
  induction ds as [|d ds IH] using rev_ind; intros Hl.
  - exists (undo_stack s0). by rewrite app_nil_r.
  - rewrite length_app in Hl. simpl in Hl. destruct IH as [X HX]; [lia|].
    destruct (nudges_shape ds) as [S1 S2].
    rewrite nudges_snoc, move_selected_point_eq.
    + cbn. rewrite HX. destruct (push_undo_keeps X (nudge_entries s0 ds)
                                   (move_entry (nudges s0 ds) (fst d) (snd d)))
        as [X' HX']; [rewrite nudge_entries_length; lia|].
      exists X'. rewrite HX', nudge_entries_snoc. reflexivity.
    + rewrite S1. unfold zlen in *. rewrite S2. lia.
Qed.

Lemma undo_last_nudge (ds : list (Z * Z)) (d : Z * Z) (t : canvas) (X : list undo_state) :
  keypoints t = keypoints (nudges s0 (ds ++ [d])) ->
  undo_stack t = X ++ nudge_entries s0 (ds ++ [d]) ->
  keypoints (undo_st t) = keypoints (nudges s0 ds) /\
  selected_point (undo_st t) = i /\
  undo_stack (undo_st t) = X ++ nudge_entries s0 ds.
Proof.
  intros Hk Hs. destruct (nudges_shape ds) as [S1 S2].
  set (K := keypoints (nudges s0 ds)) in *.
  assert (Hin : (Z.to_nat i < length K)%nat) by (unfold K, zlen in *; rewrite S2; lia).
  assert (Hk' : keypoints t = py_set K i (move_target (nudges s0 ds) (fst d) (snd d))).
  { rewrite Hk, nudges_snoc, move_selected_point_eq.
    - cbn. by rewrite S1.
    - rewrite S1. unfold K, zlen in *. lia. }
  unfold undo_st, undo. rewrite Hs, nudge_entries_snoc, app_assoc, rev_unit.
  cbn [move_entry action_type data snd]. rewrite rev_involutive, S1.
  replace ((0 <=? i) && (i <? zlen (keypoints (with_stack t (X ++ nudge_entries s0 ds)))))
    with true.
  - cbn [with_selected with_keypoints with_stack keypoints selected_point undo_stack].
    split; [|split; reflexivity].
    rewrite Hk', py_set_set. by apply py_set_get.
  - symmetry. apply andb_true_intro. cbn. rewrite Hk'. unfold zlen.
    rewrite py_set_length. split; [apply Z.leb_le | apply Z.ltb_lt]; lia.
Qed.

Lemma undo_k_nudges (k : nat) :
  forall (ds : list (Z * Z)) (t : canvas) (X : list undo_state),
  (k <= length ds)%nat ->
  keypoints t = keypoints (nudges s0 ds) ->
  undo_stack t = X ++ nudge_entries s0 ds ->
  keypoints (undo_n k t) = keypoints (nudges s0 (take (length ds - k) ds)) /\
  ((0 < k)%nat -> selected_point (undo_n k t) = i).
Proof.
  induction k as [|k IH]; intros ds t X Hk Hkp Hst.
  - simpl. rewrite Nat.sub_0_r, take_ge by lia. split; [exact Hkp | lia].
  - destruct ds as [|d0 ds0] using rev_ind; [simpl in Hk; lia|]. clear IHds0.
    rename ds0 into ds, d0 into d.
    destruct (undo_last_nudge ds d t X Hkp Hst) as [U1 [U2 U3]].
    rewrite length_app in Hk |- *. simpl in Hk |- *.
    destruct (IH ds (undo_st t) X ltac:(lia) U1 U3) as [I1 I2].
    split.
    + rewrite I1. rewrite take_app_le by lia. f_equal. f_equal. f_equal. lia.
    + intros _. destruct k as [|k]; [exact U2 | apply I2; lia].
Qed.

End Nudges.

(** C4 (as stated): 51 nudges of the selected point (100, 100) one pixel
    to the right, then 51 undos, leave the point at (101, 100), not at its
    position before the first nudge: the first nudge's entry was evicted
    from the 50-entry stack. *)
Lemma nudges_51_undo_51 :
  keypoints (undo_n 51 (nudges one_point (repeat (1, 0) 51))) = [(101, 100)] /\
  keypoints one_point = [(100, 100)].
Proof. split; vm_compute; reflexivity. Qed.

(** C4 (amended): for a valid selected index [i] and N <= 50 consecutive
    nudges, the k-th [undo()] (k <= N) leaves the sequence as it was before
    the (N-k+1)-th nudge, so the point's positions come back in reverse
    order, ending with the sequence before the first nudge, and each undo
    selects [i]. *)
Theorem nudges_undo_reverse (s : canvas) (ds : list (Z * Z)) :
  0 <= selected_point s < zlen (keypoints s) ->
  (length ds <= 50)%nat ->
  (forall k, (k <= length ds)%nat ->
     keypoints (undo_n k (nudges s ds)) = keypoints (nudges s (take (length ds - k) ds)) /\
     ((0 < k)%nat -> selected_point (undo_n k (nudges s ds)) = selected_point s)) /\
  keypoints (undo_n (length ds) (nudges s ds)) = keypoints s.
Proof.
  intros Hi Hl.
  destruct (nudges_stack s (selected_point s) eq_refl Hi ds Hl) as [X HX].
  assert (Hk : forall k, (k <= length ds)%nat ->
     keypoints (undo_n k (nudges s ds)) = keypoints (nudges s (take (length ds - k) ds)) /\
     ((0 < k)%nat -> selected_point (undo_n k (nudges s ds)) = selected_point s))
    by (intros k Hk; exact (undo_k_nudges s (selected_point s) eq_refl Hi k ds
                                          (nudges s ds) X Hk eq_refl HX)).
  split; [exact Hk|].
  destruct (Hk (length ds) ltac:(lia)) as [H _]. rewrite H, Nat.sub_diag. reflexivity.
Qed.

Lemma nudges_undo_reverse_witness :
  0 <= selected_point one_point < zlen (keypoints one_point) /\
  keypoints (undo_n 3 (nudges one_point [(1, 0); (0, 1); (10, 0)])) = [(100, 100)].
Proof.
  split; [vm_compute; split; congruence|].
  apply (proj2 (nudges_undo_reverse one_point [(1, 0); (0, 1); (10, 0)]
                  ltac:(vm_compute; split; congruence) ltac:(simpl; lia))).
Defined.

(* ------------------------------------------------------------------ *)
(** ** C9: nearest-point resolution *)

Lemma closest_loop_none (l : list point) (k : Z) (ip : point) (md2 c : Z) :
  (forall q, q ∈ l -> md2 <= sq_dist ip q) -> closest_loop l k ip md2 c = c.
Proof.
  revert k. induction l as [|q l IH]; intros k Hall; [reflexivity|]. simpl.
  assert (Hq : md2 <= sq_dist ip q) by (apply Hall; left).
  replace (sq_dist ip q <? md2) with false by (symmetry; apply Z.ltb_ge; lia).
  apply IH. intros q' Hq'. apply Hall. by right.
Qed.

Lemma closest_loop_first_min (ip : point) (l : list point) (i : nat) (p : point) :
  l !! i = Some p ->
  (forall j q, l !! j = Some q -> sq_dist ip p <= sq_dist ip q) ->
  (forall j q, (j < i)%nat -> l !! j = Some q -> sq_dist ip p < sq_dist ip q) ->
  forall k md2 c, sq_dist ip p < md2 ->
  closest_loop l k ip md2 c = k + Z.of_nat i.
Proof.
  revert i. induction l as [|q l IH]; intros i Hp Hle Hlt k md2 c Hmd; [done|].
  destruct i as [|i].
  - simpl in Hp. injection Hp as ->. simpl.
    replace (sq_dist ip p <? md2) with true by (symmetry; apply Z.ltb_lt; lia).
    rewrite closest_loop_none; [lia|].
    intros q' Hq'. apply list_elem_of_lookup in Hq' as [j Hj].
    apply (Hle (S j)). exact Hj.
  - simpl in Hp.
    assert (Hq : sq_dist ip p < sq_dist ip q) by (apply (Hlt 0%nat); [lia | reflexivity]).
    assert (Hle' : forall j q', l !! j = Some q' -> sq_dist ip p <= sq_dist ip q')
      by (intros j q' H; exact (Hle (S j) q' H)).
    assert (Hlt' : forall j q', (j < i)%nat -> l !! j = Some q' -> sq_dist ip p < sq_dist ip q')
      by (intros j q' Hj H; apply (Hlt (S j)); [lia | exact H]).
    simpl. destruct (sq_dist ip q <? md2).
    + rewrite (IH i Hp Hle' Hlt' (k + 1) (sq_dist ip q) k Hq). lia.
    + rewrite (IH i Hp Hle' Hlt' (k + 1) md2 c Hmd). lia.
Qed.

(** C9 (as stated): at zoom 0.9 the stated radius [max(10, 20/0.9)] is
    22.2, and the click at screen (67, 57) resolves to image (30, 30), at
    distance 22 from both points, yet the click selects neither point: the
    code's radius is [max(10, int(20/0.9))] = 22 with a strict [<], so it
    appends a third point and selects it. *)
Lemma tie_within_stated_radius_adds_point :
  screen_to_image_coords tie_view (67, 57) = Some (30, 30) /\
  sq_dist (30, 30) (52, 30) = 22 * 22 /\ sq_dist (30, 30) (30, 52) = 22 * 22 /\
  (22 < 20 / (9 # 10))%Q /\
  hit_radius tie_view = 22 /\
  selected_point (handle_point_click tie_view (67, 57)) = 2 /\
  keypoints (handle_point_click tie_view (67, 57)) = [(52, 30); (30, 52); (30, 30)].
Proof. vm_compute. repeat split; reflexivity. Qed.

(** C9 (amended): with hit radius [r = max(10, int(20/zoom_factor))] and
    the test [distance < r], when the resolved image position [ip] has some
    point strictly within [r], the click selects the first index [i] in
    sequence order among the points at minimal distance: ties go to the
    lowest index, and the sequence is unchanged. *)
Theorem click_selects_lowest_nearest (s : canvas) (pos : Z * Z) (ip p : point) (i : nat) :
  screen_to_image_coords s pos = Some ip ->
  keypoints s !! i = Some p ->
  sq_dist ip p < hit_radius s * hit_radius s ->
  (forall j q, keypoints s !! j = Some q -> sq_dist ip p <= sq_dist ip q) ->
  (forall j q, (j < i)%nat -> keypoints s !! j = Some q -> sq_dist ip p < sq_dist ip q) ->
  selected_point (handle_point_click s pos) = Z.of_nat i /\
  keypoints (handle_point_click s pos) = keypoints s.
Proof.
  intros Hpos Hp Hr Hle Hlt. unfold handle_point_click, closest_point. rewrite Hpos.
  rewrite (closest_loop_first_min ip (keypoints s) i p Hp Hle Hlt 0 _ (-1) Hr).
  replace (0 <=? 0 + Z.of_nat i) with true by (symmetry; apply Z.leb_le; lia).
  split; [simpl; lia | reflexivity].
Qed.

Lemma click_selects_lowest_nearest_witness :
  screen_to_image_coords tie_view_near (30, 30) = Some (30, 30) /\
  sq_dist (30, 30) (35, 30) = sq_dist (30, 30) (30, 35) /\
  selected_point (handle_point_click tie_view_near (30, 30)) = 0.
Proof.
  split; [reflexivity|]. split; [reflexivity|].
  refine (proj1 (click_selects_lowest_nearest tie_view_near (30, 30) (30, 30) (35, 30) 0
                   eq_refl eq_refl ltac:(vm_compute; reflexivity) _ _)).
  - intros j q Hq. destruct j as [|[|j]]; simpl in Hq; try discriminate;
      injection Hq as <-; vm_compute; congruence.
  - intros j q Hj. lia.
Defined.

(* ------------------------------------------------------------------ *)
(** ** C7: load, edit and save of a sidecar with extra keys *)

(** C7: the application's load-edit-save path writes a sidecar whose only
    key is ['coord'], for any sidecar and any edit; on
    [{"coord": [[10,20],[30,5]], "note": "x"}] the saved file has no
    ["note"].  The sibling path [load_with_metadata] then
    [save_with_metadata] of [JSONIO] keeps ["note"] with value ["x"]. *)
Theorem app_save_drops_extra_keys :
  (forall (sidecar : pyval) (edit : list point -> list point),
     app_load_edit_save sidecar edit =
     PDict [("coord"%string, coord_list (edit (load_keypoints sidecar)))]) /\
  load_keypoints (PDict sidecar_note_fields) = [(10, 20); (30, 5)] /\
  app_load_edit_save (PDict sidecar_note_fields) (fun k => k) =
    PDict [("coord"%string, PList [PList [PInt 10; PInt 20]; PList [PInt 30; PInt 5]])] /\
  save_with_metadata [(10, 20); (30, 5)] (load_with_metadata sidecar_note_fields) =
    PDict sidecar_note_fields.
Proof.
  split; [intros; reflexivity|]. vm_compute. repeat split.
Qed.

(* ------------------------------------------------------------------ *)
(** ** C10: [load_keypoints] on well-formed JSON *)

Lemma round_half_even_int (z : Z) : round_half_even (inject_Z z) = z.
Proof.
  unfold round_half_even. rewrite Qfloor_Z.
  destruct (Qlt_le_dec (inject_Z z - inject_Z z) (1 # 2)) as [_|H]; [reflexivity|].
  exfalso. unfold Qle in H. simpl in H. lia.
Qed.

Lemma py_round_value (v : pyval) :
  is_int_or_float v = true -> is_nonfinite v = false ->
  exists q, num_value v = Some q /\ py_round v = Some (round_half_even q).
Proof.
  intros H1 H2. destruct v as [| b | z | f | | |]; try discriminate.
  - exists (if b then 1%Q else 0%Q). split; [reflexivity|].
    destruct b; [exact (f_equal Some (eq_sym (round_half_even_int 1)))
                |exact (f_equal Some (eq_sym (round_half_even_int 0)))].
  - exists (inject_Z z). split; [reflexivity|]. by rewrite round_half_even_int.
  - destruct f; try discriminate. exists q. split; reflexivity.
Qed.

Lemma num_value_none (v : pyval) : is_int_or_float v = false -> num_value v = None.
Proof. destruct v; simpl; congruence. Qed.

Lemma nonfinite_round (v : pyval) : is_nonfinite v = true -> py_round v = None.
Proof. destruct v as [| | | [] | | |]; simpl; congruence. Qed.

Lemma coord_entry_finite (c : pyval) :
  nonfinite_entry c = false ->
  (coord_entry c = Skip /\ spec_entry c = None) \/
  (exists p, coord_entry c = Keep p /\ spec_entry c = Some p).
Proof.
  intros Hc. destruct c as [| | | | | l |]; try (left; split; reflexivity).
  destruct l as [|x [|y [|w l]]]; try (left; split; reflexivity).
  unfold nonfinite_entry in Hc. unfold coord_entry, spec_entry.
  destruct (is_int_or_float x) eqn:Ex.
  - destruct (is_int_or_float y) eqn:Ey.
    + simpl in Hc. apply orb_false_elim in Hc as [Nx Ny].
      destruct (py_round_value x Ex Nx) as [a [Ha Ra]].
      destruct (py_round_value y Ey Ny) as [b [Hb Rb]].
      right. exists (round_half_even a, round_half_even b).
      rewrite Ha, Hb, Ra, Rb. split; reflexivity.
    + left. rewrite (num_value_none y Ey). simpl.
      destruct (num_value x); split; reflexivity.
  - left. rewrite (num_value_none x Ex). split; reflexivity.
Qed.

Lemma coord_entry_nonfinite (c : pyval) : nonfinite_entry c = true -> coord_entry c = Raise.
Proof.
  intros Hc. destruct c as [| | | | | l |]; try discriminate.
  destruct l as [|x [|y [|w l]]]; try discriminate.
  unfold nonfinite_entry in Hc. apply andb_prop in Hc as [Hxy Hn].
  apply andb_prop in Hxy as [Hx Hy]. unfold coord_entry. rewrite Hx, Hy. simpl.
  apply orb_prop in Hn as [Hn | Hn]; rewrite (nonfinite_round _ Hn); [reflexivity|].
  destruct (py_round x); reflexivity.
Qed.

Lemma valid_coords_finite (cs : list pyval) :
  Forall (fun c => nonfinite_entry c = false) cs -> valid_coords cs = Some (omap spec_entry cs).
Proof.
  induction 1 as [|c cs Hc _ IH]; [reflexivity|]. simpl.
  destruct (coord_entry_finite c Hc) as [[-> ->] | [p [-> ->]]]; rewrite IH; reflexivity.
Qed.

Lemma valid_coords_nonfinite (cs : list pyval) :
  Exists (fun c => nonfinite_entry c = true) cs -> valid_coords cs = None.
Proof.
  induction 1 as [c cs Hc | c cs _ IH]; simpl.
  - by rewrite (coord_entry_nonfinite c Hc).
  - rewrite IH. destruct (coord_entry c); reflexivity.
Qed.

(** C10 (as stated): the entry [[true, 3]] is not a pair of JSON numbers
    but is kept as [[1, 3]]; and in [[[1, 2], [1e400, 0]]], where [1e400]
    loads as [inf], the load returns [[]] instead of keeping [[1, 2]]. *)
Lemma load_keypoints_bool_and_overflow :
  load_keypoints (PDict [("coord"%string, PList [PList [PBool true; PInt 3]])]) = [(1, 3)] /\
  load_keypoints (PDict [("coord"%string, PList [PList [PInt 1; PInt 2];
                                                 PList [PFloat FInf; PInt 0]])]) = [].
Proof. split; reflexivity. Qed.

(** C10 (amended): for a top-level object, [load_keypoints] never raises
    and returns integer pairs: a missing or non-list ['coord'] gives [[]];
    if no two-element entry of numbers holds a non-finite float, the result
    keeps, in order, exactly the entries that are two-element lists of
    ints, floats or booleans (a boolean counts as 0 or 1), each value
    rounded half to even, and drops the others; if some such entry holds
    [inf] or [nan] (a literal like [1e400] loads as [inf]) the result is
    [[]]. *)
Theorem load_keypoints_object (d : list (string * pyval)) :
  ((forall cs, dict_get d "coord" <> Some (PList cs)) -> load_keypoints (PDict d) = []) /\
  (forall cs, dict_get d "coord" = Some (PList cs) ->
     Forall (fun c => nonfinite_entry c = false) cs ->
     load_keypoints (PDict d) = omap spec_entry cs) /\
  (forall cs, dict_get d "coord" = Some (PList cs) ->
     Exists (fun c => nonfinite_entry c = true) cs ->
     load_keypoints (PDict d) = []).
Proof.
  unfold load_keypoints, load_keypoints_body. split; [|split].
  - intros H. destruct (dict_get d "coord") as [[| | | | | cs |]|]; try reflexivity.
    exfalso. exact (H cs eq_refl).
  - intros cs H Hf. rewrite H, (valid_coords_finite cs Hf). reflexivity.
  - intros cs H He. rewrite H, (valid_coords_nonfinite cs He). reflexivity.
Qed.

Lemma load_keypoints_object_witness :
  load_keypoints (PDict [("coord"%string, PList [PList [PFloat (FFin (5 # 2)); PInt 7];
                                                PStr "x"])]) = [(2, 7)].
Proof.
  rewrite (proj1 (proj2 (load_keypoints_object
                           [("coord"%string, PList [PList [PFloat (FFin (5 # 2)); PInt 7];
                                                    PStr "x"])]))
                   [PList [PFloat (FFin (5 # 2)); PInt 7]; PStr "x"] eq_refl
                   ltac:(repeat constructor)).
  vm_compute. reflexivity.
Defined.

(* ================================================================== *)
(** * Further properties of the code *)

(* validate_coordinates *)
Lemma clamp_axis (w x : Z) :
  1 <= w -> 0 <= py_max 0 (py_min (w - 1) x) <= w - 1 /\
  (0 <= x <= w - 1 -> py_max 0 (py_min (w - 1) x) = x).
Proof.
  intros Hw. unfold py_max, py_min.
  destruct (Z.ltb_spec x (w - 1)); [destruct (Z.ltb_spec 0 x) | destruct (Z.ltb_spec 0 (w - 1))];
  lia.
Qed.

(** [Tools.validate_coordinates] on an image of at least one pixel clamps
    each coordinate into [0, width - 1] x [0, height - 1], leaves a
    coordinate already in range unchanged, and is idempotent. *)
Theorem validate_coordinates_clamps (x y image_width image_height : Z) :
  1 <= image_width -> 1 <= image_height ->
  let '(x', y') := validate_coordinates x y image_width image_height in
  0 <= x' <= image_width - 1 /\ 0 <= y' <= image_height - 1 /\
  (0 <= x <= image_width - 1 -> x' = x) /\ (0 <= y <= image_height - 1 -> y' = y) /\
  validate_coordinates x' y' image_width image_height = (x', y').
Proof.
  intros Hw Hh. unfold validate_coordinates.
  destruct (clamp_axis image_width x Hw) as [Bx Ix].
  destruct (clamp_axis image_height y Hh) as [By Iy].
  split; [exact Bx|]. split; [exact By|]. split; [exact Ix|]. split; [exact Iy|].
  f_equal; [apply (proj2 (clamp_axis image_width _ Hw)) | apply (proj2 (clamp_axis image_height _ Hh))];
  assumption.
Qed.

Lemma validate_coordinates_clamps_witness :
  validate_coordinates 640 (-7) 640 480 = (639, 0).
Proof.
  pose proof (validate_coordinates_clamps 640 (-7) 640 480 ltac:(lia) ltac:(lia)) as H.
  vm_compute in H. vm_compute. reflexivity.
Defined.

(* find_closest_point *)
Lemma calculate_distance_sq (t p : point) : calculate_distance t p = DSqrt (sq_dist t p).
Proof. unfold calculate_distance, sq_dist. f_equal. ring. Qed.

Lemma find_closest_loop_none (t : point) (l : list point) (k : Z) (md c : Z) :
  (forall q, q ∈ l -> md <= sq_dist t q) ->
  find_closest_loop l k t (DSqrt md) c = (c, DSqrt md).
Proof.
  revert k. induction l as [|q l IH]; intros k Hall; [reflexivity|]. cbn [find_closest_loop].
  rewrite calculate_distance_sq. cbn [dist_lt].
  assert (Hq : md <= sq_dist t q) by (apply Hall; left).
  destruct (Z.ltb_spec (sq_dist t q) md); [lia|].
  apply IH. intros q' Hq'. apply Hall. right. exact Hq'.
Qed.

Lemma find_closest_loop_first_min (t : point) (l : list point) (i : nat) (p : point) :
  l !! i = Some p ->
  (forall j q, l !! j = Some q -> sq_dist t p <= sq_dist t q) ->
  (forall j q, (j < i)%nat -> l !! j = Some q -> sq_dist t p < sq_dist t q) ->
  forall k md c, dist_lt (DSqrt (sq_dist t p)) md = true ->
  find_closest_loop l k t md c = (k + Z.of_nat i, DSqrt (sq_dist t p)).
Proof.
  revert i. induction l as [|q l IH]; intros i Hi Hle Hlt k md c Hmd; [discriminate|].
  destruct i as [|i].
  - simpl in Hi. injection Hi as ->. cbn [find_closest_loop]. rewrite calculate_distance_sq, Hmd.
    rewrite find_closest_loop_none; [f_equal; lia|].
    intros q' Hq'. apply list_elem_of_lookup in Hq' as [j Hj].
    apply (Hle (S j)). exact Hj.
  - simpl in Hi. cbn [find_closest_loop]. rewrite calculate_distance_sq.
    assert (Hq : sq_dist t p < sq_dist t q) by (apply (Hlt 0%nat); [lia|reflexivity]).
    assert (IH' : forall md', dist_lt (DSqrt (sq_dist t p)) md' = true -> forall c',
      find_closest_loop l (k + 1) t md' c' = (k + Z.of_nat (S i), DSqrt (sq_dist t p))).
    { intros md' Hmd' c'. rewrite (IH i Hi); [f_equal; lia| | |exact Hmd'].
      - intros j q' Hj. apply (Hle (S j)). exact Hj.
      - intros j q' Hj Hj'. apply (Hlt (S j)); [lia|exact Hj']. }
    destruct (dist_lt (DSqrt (sq_dist t q)) md); apply IH'; [simpl; lia|exact Hmd].
Qed.

Lemma first_min_exists {A} (f : A -> Z) (l : list A) :
  l <> [] -> exists i p, l !! i = Some p /\
    (forall j q, l !! j = Some q -> f p <= f q) /\
    (forall j q, (j < i)%nat -> l !! j = Some q -> f p < f q).
Proof.
  induction l as [|a t IH]; intros Hne; [congruence|].
  destruct t as [|b t'].
  - exists 0%nat, a. split; [reflexivity|]. split.
    + intros [|j] q Hj; simpl in Hj; [injection Hj as <-; lia|destruct j; discriminate].
    + intros j q Hj. lia.
  - destruct (IH ltac:(discriminate)) as (i & p & Hi & Hle & Hlt).
    destruct (Z.leb_spec (f a) (f p)).
    + exists 0%nat, a. split; [reflexivity|]. split.
      * intros [|j] q Hj; simpl in Hj; [injection Hj as <-; lia|].
        specialize (Hle j q Hj). lia.
      * intros j q Hj. lia.
    + exists (S i), p. split; [exact Hi|]. split.
      * intros [|j] q Hj; simpl in Hj; [injection Hj as <-; lia|].
        exact (Hle j q Hj).
      * intros [|j] q Hj Hq; simpl in Hq; [injection Hq as <-; lia|].
        apply (Hlt j); [lia|exact Hq].
Qed.

(** The canvas hit test ([ImageCanvas.find_closest_point]) agrees with
    [Tools.find_closest_point] restricted to the hit radius: it is the
    index [Tools.find_closest_point] returns when that distance is below
    the radius, and -1 otherwise. *)
Theorem hit_test_is_find_closest_within_radius (s : canvas) (ip : point) :
  closest_point s ip =
  (let '(i, d) := find_closest_point ip (keypoints s) in
   if dist_lt d (DSqrt (hit_radius s * hit_radius s)) then i else -1).
Proof.
  unfold closest_point. set (r := hit_radius s). set (l := keypoints s).
  destruct (decide (l = [])) as [->|Hne]; [reflexivity|].
  destruct (first_min_exists (sq_dist ip) l Hne) as (i & p & Hi & Hle & Hlt).
  assert (E : find_closest_point ip l = (Z.of_nat i, DSqrt (sq_dist ip p))).
  { assert (E : find_closest_point ip l = find_closest_loop l 0 ip DInf (-1))
      by (destruct l; [congruence|reflexivity]).
    rewrite E, (find_closest_loop_first_min ip l i p Hi Hle Hlt 0 DInf (-1)); reflexivity. }
  rewrite E. simpl. destruct (Z.ltb_spec (sq_dist ip p) (r * r)).
  - rewrite (closest_loop_first_min ip l i p Hi Hle Hlt 0 (r * r) (-1)) by lia. lia.
  - apply closest_loop_none. intros q Hq. apply list_elem_of_lookup in Hq as [j Hj].
    specialize (Hle j q Hj). lia.
Qed.

(* bounding box *)
Lemma py_min_seq_spec (h : Z) (t : list Z) :
  py_min_seq h t <= h /\ Forall (fun v => py_min_seq h t <= v) t /\
  (py_min_seq h t = h \/ In (py_min_seq h t) t).
Proof.
  unfold py_min_seq. revert h. induction t as [|v t IH]; intros h; simpl.
  - split; [lia|]. split; [constructor|left; reflexivity].
  - destruct (IH (if v <? h then v else h)) as (H1 & H2 & H3).
    destruct (Z.ltb_spec v h).
    + split; [lia|]. split; [constructor; [lia|exact H2]|].
      destruct H3 as [->|H3]; right; [left; reflexivity|right; exact H3].
    + split; [lia|]. split; [constructor; [lia|exact H2]|].
      destruct H3 as [->|H3]; [left; reflexivity|right; right; exact H3].
Qed.

Lemma py_max_seq_spec (h : Z) (t : list Z) :
  h <= py_max_seq h t /\ Forall (fun v => v <= py_max_seq h t) t /\
  (py_max_seq h t = h \/ In (py_max_seq h t) t).
Proof.
  unfold py_max_seq. revert h. induction t as [|v t IH]; intros h; simpl.
  - split; [lia|]. split; [constructor|left; reflexivity].
  - destruct (IH (if h <? v then v else h)) as (H1 & H2 & H3).
    destruct (Z.ltb_spec h v).
    + split; [lia|]. split; [constructor; [lia|exact H2]|].
      destruct H3 as [->|H3]; right; [left; reflexivity|right; exact H3].
    + split; [lia|]. split; [constructor; [lia|exact H2]|].
      destruct H3 as [->|H3]; [left; reflexivity|right; right; exact H3].
Qed.

Lemma bounding_box_spec (points : list point) :
  points <> [] ->
  exists min_x min_y width height,
    calculate_bounding_box points = Some (min_x, min_y, width, height) /\
    0 <= width /\ 0 <= height /\
    (forall p, In p points -> min_x <= fst p <= min_x + width /\ min_y <= snd p <= min_y + height) /\
    (exists p, In p points /\ fst p = min_x) /\ (exists p, In p points /\ fst p = min_x + width) /\
    (exists p, In p points /\ snd p = min_y) /\ (exists p, In p points /\ snd p = min_y + height).
Proof.
  destruct points as [|p0 rest]; intros Hne; [congruence|].
  destruct (py_min_seq_spec (fst p0) (map fst rest)) as (Ax1 & Ax2 & Ax3).
  destruct (py_max_seq_spec (fst p0) (map fst rest)) as (Bx1 & Bx2 & Bx3).
  destruct (py_min_seq_spec (snd p0) (map snd rest)) as (Ay1 & Ay2 & Ay3).
  destruct (py_max_seq_spec (snd p0) (map snd rest)) as (By1 & By2 & By3).
  rewrite Forall_map, Forall_forall in Ax2, Bx2, Ay2, By2.
  set (mnx := py_min_seq (fst p0) (map fst rest)) in *.
  set (mxx := py_max_seq (fst p0) (map fst rest)) in *.
  set (mny := py_min_seq (snd p0) (map snd rest)) in *.
  set (mxy := py_max_seq (snd p0) (map snd rest)) in *.
  exists mnx, mny, (mxx - mnx), (mxy - mny). split; [reflexivity|].
  split; [lia|]. split; [lia|]. split.
  { intros p [<-|Hp]; [lia|]. apply list_elem_of_In in Hp.
    specialize (Ax2 p Hp); specialize (Bx2 p Hp); specialize (Ay2 p Hp); specialize (By2 p Hp). lia. }
  assert (Pick : forall (f : point -> Z) (m : Z), m = f p0 \/ In m (map f rest) ->
            exists p, In p (p0 :: rest) /\ f p = m).
  { intros f m [->|Hm]; [exists p0; split; [left|]; reflexivity|].
    apply in_map_iff in Hm as (p & <- & Hp). exists p. split; [right; exact Hp|reflexivity]. }
  split; [apply (Pick fst); exact Ax3|].
  split; [replace (mnx + (mxx - mnx)) with mxx by lia; apply (Pick fst); exact Bx3|].
  split; [apply (Pick snd); exact Ay3|].
  replace (mny + (mxy - mny)) with mxy by lia; apply (Pick snd); exact By3.
Qed.

(** [Tools.calculate_bounding_box] of a non-empty list is the tight box:
    width and height are non-negative, every point lies in it, and each
    of its four sides touches some point. *)
Theorem calculate_bounding_box_tight (points : list point) :
  points <> [] ->
  exists min_x min_y width height,
    calculate_bounding_box points = Some (min_x, min_y, width, height) /\
    0 <= width /\ 0 <= height /\
    (forall p, In p points -> min_x <= fst p <= min_x + width /\ min_y <= snd p <= min_y + height) /\
    (exists p, In p points /\ fst p = min_x) /\ (exists p, In p points /\ fst p = min_x + width) /\
    (exists p, In p points /\ snd p = min_y) /\ (exists p, In p points /\ snd p = min_y + height).
Proof. exact (bounding_box_spec points). Qed.

Lemma calculate_bounding_box_tight_witness :
  calculate_bounding_box [(4, 9); (1, 12); (7, 10)] = Some (1, 9, 6, 3).
Proof.
  destruct (calculate_bounding_box_tight [(4, 9); (1, 12); (7, 10)] ltac:(discriminate))
    as (a & b & c & d & Hb & _).
  vm_compute in Hb. injection Hb as <- <- <- <-. reflexivity.
Defined.
(* smooth_keypoints *)
Lemma in_zrange (n i : Z) : In i (zrange n) <-> 0 <= i < n.
Proof.
  unfold zrange. rewrite in_map_iff. split.
  - intros (k & <- & Hk). apply in_seq in Hk. lia.
  - intros Hi. exists (Z.to_nat i). split; [lia|]. apply in_seq. lia.
Qed.

Lemma length_zrange (n : Z) : length (zrange n) = Z.to_nat n.
Proof. unfold zrange. rewrite length_map, length_seq. reflexivity. Qed.

Lemma map_or_raise_none {A B} (f : A -> option B) (l : list A) (a : A) :
  In a l -> f a = None -> map_or_raise f l = None.
Proof.
  induction l as [|a' l IH]; intros Ha Hf; [destruct Ha|]. simpl.
  destruct Ha as [->|Ha]; [rewrite Hf; reflexivity|].
  destruct (f a'); [|reflexivity]. rewrite IH by assumption. reflexivity.
Qed.

(** [Tools.smooth_keypoints] with a negative window on a non-empty list
    raises: the window of the last point is empty ([ZeroDivisionError]). *)
Theorem smooth_keypoints_negative_window_raises (points : list point) (window_size : Z) :
  window_size < 0 -> points <> [] -> smooth_keypoints points window_size = None.
Proof.
  intros Hw Hne. unfold smooth_keypoints.
  assert (Hn : 1 <= zlen points) by (unfold zlen; destruct points; [congruence|simpl; lia]).
  destruct (Z.ltb_spec (zlen points) window_size); [lia|].
  apply (map_or_raise_none _ _ (zlen points - 1)); [apply in_zrange; lia|].
  unfold smooth_at.
  assert (Hh : window_size / 2 < 0) by (apply Z.div_lt_upper_bound; lia).
  assert (Est : py_max 0 (zlen points - 1 - window_size / 2) = zlen points - 1 - window_size / 2)
    by (unfold py_max; destruct (Z.ltb_spec 0 (zlen points - 1 - window_size / 2)); lia).
  assert (Een : py_min (zlen points) (zlen points - 1 + window_size / 2 + 1)
                = zlen points - 1 + window_size / 2 + 1)
    by (unfold py_min; destruct (Z.ltb_spec (zlen points - 1 + window_size / 2 + 1) (zlen points)); lia).
  rewrite Est, Een. unfold py_slice. cbv beta zeta.
  destruct (Z.ltb_spec (zlen points - 1 - window_size / 2) 0); [lia|].
  rewrite (Z.min_r _ (zlen points)) by lia.
  destruct (Z.ltb_spec (zlen points - 1 + window_size / 2 + 1) 0).
  - destruct (Z.ltb_spec (zlen points) (Z.max 0 (zlen points - 1 + window_size / 2 + 1 + zlen points)));
      [lia|reflexivity].
  - rewrite Z.min_l by lia.
    destruct (Z.ltb_spec (zlen points) (zlen points - 1 + window_size / 2 + 1)); [lia|reflexivity].
Qed.

Lemma smooth_keypoints_negative_window_raises_witness :
  smooth_keypoints [(0, 0); (2, 2); (4, 4); (6, 6); (8, 8)] (-4) = None.
Proof.
  apply smooth_keypoints_negative_window_raises; [lia|discriminate].
Defined.

(* interpolate_keypoints *)
Lemma length_interp_segment (p1 p2 : point) (k : Z) :
  length (interp_segment p1 p2 k) = Z.to_nat k.
Proof. unfold interp_segment. rewrite length_map. apply length_zrange. Qed.

Lemma interp_pairs_cons2 (p1 p2 : point) (t : list point) (k : Z) :
  interp_pairs (p1 :: p2 :: t) k = interp_segment p1 p2 k ++ interp_pairs (p2 :: t) k.
Proof. reflexivity. Qed.

Lemma length_interp_pairs (l : list point) (k : Z) :
  length (interp_pairs l k) = ((length l - 1) * Z.to_nat k)%nat.
Proof.
  induction l as [|p1 rest IH]; [reflexivity|].
  destruct rest as [|p2 t]; [reflexivity|].
  rewrite interp_pairs_cons2, length_app, length_interp_segment, IH. simpl. lia.
Qed.

(** [Tools.interpolate_keypoints] with [num_points <= 0] emits no segment
    points: the result is only the last input point. *)
Theorem interpolate_keypoints_nonpositive_count (points : list point) (num_points : Z) (p : point) :
  num_points <= 0 -> last points = Some p -> interpolate_keypoints points num_points = [p].
Proof.
  intros Hk Hl. unfold interpolate_keypoints. rewrite Hl.
  assert (E : forall l, interp_pairs l num_points = []).
  { intros l. apply nil_length_inv. rewrite length_interp_pairs.
    replace (Z.to_nat num_points) with 0%nat by lia. lia. }
  rewrite E. destruct (Z.ltb_spec (zlen points) 2); [|reflexivity].
  destruct points as [|a [|b t]]; [discriminate| |unfold zlen in *; simpl in *; lia].
  simpl in Hl. injection Hl as ->. reflexivity.
Qed.

Lemma interpolate_keypoints_nonpositive_count_witness :
  interpolate_keypoints [(0, 0); (3, 4); (8, 1)] 0 = [(8, 1)].
Proof.
  apply interpolate_keypoints_nonpositive_count; [lia|reflexivity].
Defined.

(* validate_keypoints *)
Lemma validate_entry_spec (c : pyval) :
  nonfinite_entry c = false ->
  match c with PList [x; y] => is_int_or_float x && is_int_or_float y | _ => false end
  = if spec_entry c then true else false.
Proof.
  intros Hc. destruct c as [| | | | | l |]; try reflexivity.
  destruct l as [|x [|y [|w l]]]; try reflexivity.
  destruct x as [| | | [] | | |], y as [| | | [] | | |]; simpl in *; try reflexivity; discriminate.
Qed.

Lemma length_omap_le {A B} (f : A -> option B) (l : list A) : (length (omap f l) <= length l)%nat.
Proof. induction l as [|a l IH]; simpl; [lia|]. destruct (f a); simpl; [apply le_n_S|apply le_S]; exact IH. Qed.

(** For entries without [inf] or [nan], [JSONIO.validate_keypoints]
    accepts a [coord] list exactly when [JSONIO.load_keypoints] keeps all
    its entries (drops none). *)
Theorem validate_keypoints_iff_load_keeps_all (cs : list pyval) :
  Forall (fun c => nonfinite_entry c = false) cs ->
  validate_keypoints (PList cs) = true <->
  length (load_keypoints (PDict [("coord"%string, PList cs)])) = length cs.
Proof.
  intros Hfin. unfold load_keypoints, load_keypoints_body.
  change (dict_get [("coord"%string, PList cs)] "coord") with (Some (PList cs)). cbv beta iota.
  rewrite (valid_coords_finite cs Hfin). unfold validate_keypoints.
  induction Hfin as [|c cs Hc _ IH]; [simpl; tauto|].
  cbn [forallb]. rewrite (validate_entry_spec c Hc). simpl.
  destruct (spec_entry c) as [p|]; simpl;
    change (list_omap pyval point spec_entry cs) with (omap spec_entry cs).
  - rewrite IH. lia.
  - pose proof (length_omap_le spec_entry cs). split; [discriminate|lia].
Qed.

Lemma validate_keypoints_iff_load_keeps_all_witness :
  validate_keypoints (PList [PList [PInt 3; PFloat (FFin (5 # 2))]; PList [PBool true; PInt 0]]) = true /\
  load_keypoints (PDict [("coord"%string, PList [PList [PInt 3; PFloat (FFin (5 # 2))];
                                                  PList [PBool true; PInt 0]])]) = [(3, 2); (1, 0)].
Proof.
  split; [|vm_compute; reflexivity].
  apply validate_keypoints_iff_load_keeps_all; [repeat constructor|vm_compute; reflexivity].
Defined.

(* COCO *)
Lemma range_step3_mul (n : nat) : range_step3 (3 * Z.of_nat n) = map (fun k => 3 * Z.of_nat k) (seq 0 n).
Proof.
  unfold range_step3. f_equal. f_equal.
  replace ((3 * Z.of_nat n + 2) / 3) with (Z.of_nat n); [lia|].
  apply Z.div_unique with (r := 2); lia.
Qed.

Lemma length_keypoints_flat (kps : list point) : length (keypoints_flat kps) = (3 * length kps)%nat.
Proof.
  unfold keypoints_flat. induction kps as [|p kps IH]; [reflexivity|].
  simpl. rewrite IH. lia.
Qed.

Lemma coco_loop_flat (f : string -> option Z) (kps : list point) (pre : list pyval) (j : nat) :
  length pre = (3 * j)%nat ->
  coco_loop f (PList (pre ++ keypoints_flat kps)) (zlen (pre ++ keypoints_flat kps))
            (map (fun k => 3 * Z.of_nat k) (seq j (length kps))) = Some kps.
Proof.
  revert pre j. induction kps as [|[x y] kps IH]; intros pre j Hpre; [reflexivity|].
  cbn [length seq map coco_loop].
  assert (E : keypoints_flat ((x, y) :: kps) = PInt x :: PInt y :: PInt 2 :: keypoints_flat kps)
    by reflexivity.
  rewrite E. set (l := pre ++ PInt x :: PInt y :: PInt 2 :: keypoints_flat kps).
  assert (Hl : zlen l = Z.of_nat (length pre) + 3 + 3 * Z.of_nat (length kps)).
  { unfold l, zlen. rewrite length_app. cbn [length]. rewrite length_keypoints_flat. lia. }
  destruct (Z.ltb_spec (3 * Z.of_nat j + 1) (zlen l)); [|lia].
  unfold py_item. replace (Z.to_nat (3 * Z.of_nat j)) with (length pre) by lia.
  replace (Z.to_nat (3 * Z.of_nat j + 1)) with (S (length pre)) by lia.
  unfold l. rewrite list_lookup_middle by reflexivity.
  rewrite lookup_app_r by lia. replace (S (length pre) - length pre)%nat with 1%nat by lia.
  cbn [lookup list_lookup py_int_of]. fold l.
  specialize (IH (pre ++ [PInt x; PInt y; PInt 2]) (S j)).
  rewrite <- app_assoc in IH. cbn [app] in IH. fold l in IH.
  rewrite IH by (rewrite length_app; simpl; lia). reflexivity.
Qed.

(** [JSONIO.import_from_coco] reads back the keypoints written by
    [JSONIO.export_to_coco], whatever the image info. *)
Theorem coco_export_import_round_trip (str_to_int : string -> option Z)
        (keypoints : list point) (image_info : list (string * pyval)) :
  import_from_coco str_to_int (export_to_coco keypoints image_info) = Some keypoints.
Proof.
  unfold import_from_coco, export_to_coco. simpl.
  pose proof (coco_loop_flat str_to_int keypoints [] 0 eq_refl) as H. simpl app in H.
  unfold zlen in *. rewrite length_keypoints_flat in *.
  rewrite Nat2Z.inj_mul, range_step3_mul. rewrite Nat2Z.inj_mul in H. exact H.
Qed.

Lemma lookup_map_std {A B} (f : A -> B) (l : list A) (i : nat) :
  map f l !! i = option_map f (l !! i).
Proof. revert i. induction l as [|a l IH]; intros [|i]; simpl; auto. Qed.

Section CocoInts.
Variable str_to_int : string -> option Z.
Variable zs : list Z.
Let n := zlen zs.
Let c' := ((length zs + 1) / 3)%nat.
Let g (k : nat) : point := (default 0 (zs !! (3 * k)%nat), default 0 (zs !! (3 * k + 1)%nat)).

Lemma coco_threshold (k : nat) : 3 * Z.of_nat k + 1 < n <-> (k < c')%nat.
Proof.
  unfold n, c', zlen. split; intros H.
  - assert (H3 : (3 * S k <= length zs + 1)%nat) by lia.
    pose proof (Nat.div_le_lower_bound (length zs + 1) 3 (S k) ltac:(lia) H3). lia.
  - assert (3 * S k <= length zs + 1)%nat; [|lia].
    pose proof (Nat.Div0.mul_div_le (length zs + 1) 3). lia.
Qed.

Lemma coco_loop_ints (c j : nat) :
  coco_loop str_to_int (PList (map PInt zs)) n (map (fun k => 3 * Z.of_nat k) (seq j c))
  = Some (map g (seq j (Nat.min c (c' - j)))).
Proof.
  revert j. induction c as [|c IH]; intros j; [reflexivity|].
  cbn [seq map coco_loop]. destruct (Z.ltb_spec (3 * Z.of_nat j + 1) n) as [Hj|Hj].
  - apply coco_threshold in Hj.
    unfold py_item. rewrite !lookup_map_std.
    replace (Z.to_nat (3 * Z.of_nat j)) with (3 * j)%nat by lia.
    replace (Z.to_nat (3 * Z.of_nat j + 1)) with (3 * j + 1)%nat by lia.
    destruct (lookup_lt_is_Some_2 zs (3 * j)%nat) as [x Hx]; [unfold c' in Hj; pose proof (Nat.Div0.mul_div_le (length zs + 1) 3); lia|].
    destruct (lookup_lt_is_Some_2 zs (3 * j + 1)%nat) as [y Hy]; [unfold c' in Hj; pose proof (Nat.Div0.mul_div_le (length zs + 1) 3); lia|].
    rewrite Hx, Hy. cbn [option_map py_int_of]. rewrite IH.
    replace (Nat.min (S c) (c' - j)) with (S (Nat.min c (c' - S j))) by lia.
    cbn [seq map option_map]. f_equal. f_equal. unfold g. rewrite Hx, Hy. reflexivity.
  - rewrite IH. assert (~ (j < c')%nat) by (rewrite <- coco_threshold; lia).
    replace (Nat.min c (c' - S j)) with 0%nat by lia.
    replace (Nat.min (S c) (c' - j)) with 0%nat by lia. reflexivity.
Qed.

End CocoInts.

(** [JSONIO.import_from_coco] on a flat list of ints reads one point per
    started triple [x, y, v] (the visibility is ignored), and point [k]
    is [(zs[3k], zs[3k+1])] when both exist. *)
Theorem import_from_coco_groups_ints (str_to_int : string -> option Z) (zs : list Z) :
  exists pts,
    import_from_coco str_to_int
      [("annotations"%string, PList [PDict [("keypoints"%string, PList (map PInt zs))]])] = Some pts /\
    length pts = ((length zs + 1) / 3)%nat /\
    forall k x y, zs !! (3 * k)%nat = Some x -> zs !! (3 * k + 1)%nat = Some y -> pts !! k = Some (x, y).
Proof.
  set (c' := ((length zs + 1) / 3)%nat).
  set (g := fun k : nat => (default 0 (zs !! (3 * k)%nat), default 0 (zs !! (3 * k + 1)%nat))).
  exists (map g (seq 0 c')). split.
  - unfold import_from_coco. simpl.
    change (Z.of_nat (length (map PInt zs))) with (zlen (map PInt zs)).
    replace (zlen (map PInt zs)) with (zlen zs) by (unfold zlen; rewrite length_map; reflexivity).
    unfold range_step3. rewrite coco_loop_ints. f_equal. f_equal. f_equal.
    unfold zlen. fold c'. assert (c' <= (length zs + 2) / 3)%nat by (apply Nat.Div0.div_le_mono; lia).
    assert (E : (Z.of_nat (length zs) + 2) / 3 = Z.of_nat ((length zs + 2) / 3))
      by (rewrite Nat2Z.inj_div, Nat2Z.inj_add; reflexivity).
    rewrite E, Nat2Z.id. lia.
  - split; [rewrite length_map, length_seq; reflexivity|].
    intros k x y Hx Hy. rewrite lookup_map_std, lookup_seq_lt.
    + simpl. unfold g. rewrite Hx, Hy. reflexivity.
    + apply lookup_lt_Some in Hy. unfold c'.
      assert (H3 : (3 * S k <= length zs + 1)%nat) by lia.
      pose proof (Nat.div_le_lower_bound (length zs + 1) 3 (S k) ltac:(lia) H3). lia.
Qed.

(* _try_recover_keypoints *)
Lemma first_some_spec {A B} (f : A -> option B) (l : list A) (b : B) :
  first_some f l = Some b -> exists a, In a l /\ f a = Some b.
Proof.
  induction l as [|a l IH]; simpl; [discriminate|].
  destruct (f a) eqn:Ha; intros H.
  - injection H as <-. exists a. auto.
  - destruct (IH H) as (a' & Ha' & Hf). exists a'. auto.
Qed.

Lemma spans_app (p : Z -> bool) (s t r : list Z) : In (t, r) (spans p s) -> t ++ r = s.
Proof.
  revert t r. induction s as [|c s IH]; intros t r Hin; simpl in Hin.
  - destruct Hin as [E|[]]. injection E as <- <-. reflexivity.
  - destruct (p c).
    + apply in_app_or in Hin as [Hin|[E|[]]].
      * apply in_map_iff in Hin as ([t' r'] & E & Hin'). simpl in E. injection E as <- <-.
        simpl. f_equal. apply IH. exact Hin'.
      * injection E as <- <-. reflexivity.
    + destruct Hin as [E|[]]. injection E as <- <-. reflexivity.
Qed.

Ltac zlit_none c :=
  let p := fresh "p" in
  destruct c as [|p|p]; try discriminate; repeat (destruct p as [p|p|]; try discriminate).

Lemma pair_match_needs_close (is_space is_digit : Z -> bool) (s : list Z) x y rest :
  pair_match_at is_space is_digit s = Some (x, y, rest) -> In 93 s.
Proof.
  unfold pair_match_at. intros H.
  destruct s as [|c s1]; [discriminate|]. zlit_none c.
  apply first_some_spec in H as ([xs s2] & Hx & H). simpl in H.
  apply spans_app in Hx.
  destruct xs as [|x0 xs]; [discriminate|]. destruct s2 as [|c2 s3]; [discriminate|].
  zlit_none c2.
  apply first_some_spec in H as ([t s4] & Ht & H). simpl in H. apply spans_app in Ht.
  apply first_some_spec in H as ([ys s5] & Hy & H). simpl in H. apply spans_app in Hy.
  destruct ys as [|y0 ys]; [discriminate|]. destruct s5 as [|c5 s6]; [discriminate|].
  zlit_none c5.
  right. rewrite <- Hx. apply in_or_app. right. right.
  rewrite <- Ht. apply in_or_app. right. rewrite <- Hy. apply in_or_app. right. left. reflexivity.
Qed.

Lemma findall_pairs_no_close (is_space is_digit : Z -> bool) (fuel : nat) (s : list Z) :
  ~ In 93 s -> findall_pairs is_space is_digit fuel s = [].
Proof.
  revert s. induction fuel as [|fuel IH]; intros s Hs; [reflexivity|].
  destruct s as [|c r]; [reflexivity|]. cbn [findall_pairs].
  destruct (pair_match_at is_space is_digit (c :: r)) as [[[x y] rest]|] eqn:E.
  - exfalso. exact (Hs (pair_match_needs_close _ _ _ _ _ _ E)).
  - apply IH. intros Hr. apply Hs. right. exact Hr.
Qed.

Lemma first_some_map {A A' B} (f : A' -> option B) (h : A -> A') (l : list A) :
  first_some f (map h l) = first_some (fun a => f (h a)) l.
Proof. induction l as [|a l IH]; simpl; [reflexivity|]. rewrite IH. reflexivity. Qed.

Lemma first_some_option_map {A B C} (f : A -> option B) (k : B -> C) (l : list A) :
  first_some (fun a => option_map k (f a)) l = option_map k (first_some f l).
Proof. induction l as [|a l IH]; simpl; [reflexivity|]. destruct (f a); simpl; auto. Qed.

Lemma first_some_ext {A B} (f f' : A -> option B) (l : list A) :
  (forall a, f a = f' a) -> first_some f l = first_some f' l.
Proof. intros E. induction l as [|a l IH]; simpl; [reflexivity|]. rewrite E, IH. reflexivity. Qed.

Lemma lazy_group_no_close (s g : list Z) :
  first_some (fun gr => match snd gr with 93 :: _ => Some (fst gr) | _ => None end) (lazy_spans s)
  = Some g -> ~ In 93 g.
Proof.
  revert g. induction s as [|c r IH]; intros g H; [discriminate|].
  cbn [lazy_spans first_some snd fst] in H.
  destruct (Z.eq_dec c 93) as [->|Hc].
  - injection H as <-. intros [].
  - assert (E : match c :: r with 93 :: _ => Some (@nil Z) | _ => None end = None).
    { clear H IH. destruct c as [|p|p]; try reflexivity;
      repeat (destruct p as [p|p|]; try reflexivity); congruence. }
    rewrite E, first_some_map in H. cbn [fst snd] in H.
    assert (E2 : forall gr : list Z * list Z,
      match snd gr with 93 :: _ => Some (c :: fst gr) | _ => None end =
      option_map (cons c) (match snd gr with 93 :: _ => Some (fst gr) | _ => None end)).
    { intros [g' [|d t]]; [reflexivity|]. simpl.
      destruct d as [|p|p]; try reflexivity; repeat (destruct p as [p|p|]; try reflexivity). }
    rewrite (first_some_ext _ _ _ E2), first_some_option_map in H.
    destruct (first_some _ (lazy_spans r)) as [g'|] eqn:Hg; [|discriminate].
    simpl in H. injection H as <-. intros [E3|Hin]; [congruence|].
    exact (IH g' eq_refl Hin).
Qed.

Lemma coord_match_no_close (is_space : Z -> bool) (s g : list Z) :
  coord_match_at is_space s = Some g -> ~ In 93 g.
Proof.
  unfold coord_match_at. destruct (strip_prefix quoted_coord s) as [s1|]; [|discriminate].
  intros H. apply first_some_spec in H as ([t s2] & _ & H). simpl in H.
  destruct s2 as [|c s3]; [discriminate|]. zlit_none c.
  apply first_some_spec in H as ([t' s4] & _ & H). simpl in H.
  destruct s4 as [|c4 s5]; [discriminate|]. zlit_none c4.
  exact (lazy_group_no_close s5 g H).
Qed.

Lemma search_coord_no_close (is_space : Z -> bool) (s g : list Z) :
  search_coord is_space s = Some g -> ~ In 93 g.
Proof.
  induction s as [|c r IH]; intros H; cbn [search_coord] in H.
  - destruct (coord_match_at is_space []) eqn:E; [injection H as <-|discriminate].
    exact (coord_match_no_close _ _ _ E).
  - destruct (coord_match_at is_space (c :: r)) eqn:E.
    + injection H as <-. exact (coord_match_no_close _ _ _ E).
    + exact (IH H).
Qed.

Lemma recover_from_text_nothing (is_space is_digit : Z -> bool) (digit_val : Z -> Z) (content : list Z) :
  recover_from_text is_space is_digit digit_val content = [].
Proof.
  unfold recover_from_text. destruct (search_coord is_space content) as [g|] eqn:E; [|reflexivity].
  rewrite findall_pairs_no_close; [reflexivity|]. exact (search_coord_no_close _ _ _ E).
Qed.

(** Without a [.bak] file, [JSONIO._try_recover_keypoints] recovers no
    point: the lazy group of its [coord] pattern ends before the first
    closing bracket, and each point pattern needs a closing bracket
    inside that group. *)
Theorem try_recover_without_backup_recovers_nothing
  (is_space is_digit : Z -> bool) (digit_val : Z -> Z) (file_exists : string -> bool)
  (read_text : string -> option (list Z)) (load_keypoints_file : string -> list point)
  (file_path : string) :
  file_exists (file_path ++ ".bak")%string = false ->
  try_recover_keypoints is_space is_digit digit_val file_exists read_text load_keypoints_file file_path = [].
Proof.
  intros Hb. unfold try_recover_keypoints. rewrite Hb.
  destruct (read_text file_path) as [content|]; [|reflexivity].
  apply recover_from_text_nothing.
Qed.

Lemma try_recover_without_backup_recovers_nothing_witness :
  try_recover_keypoints
    (fun c => (9 <=? c) && (c <=? 13) || (c =? 32)) (fun c => (48 <=? c) && (c <=? 57))
    (fun c => c - 48) (fun _ => false)
    (fun _ => Some [123; 34; 99; 111; 111; 114; 100; 34; 58; 32; 91; 91; 49; 48; 44; 32;
                    50; 48; 93; 93; 125])
    (fun _ => []) "a.json" = [].
Proof. apply try_recover_without_backup_recovers_nothing. reflexivity. Defined.

(* load_with_metadata / save_with_metadata *)
Lemma dict_get_set (d : list (string * pyval)) (k k' : string) (v : pyval) :
  dict_get (dict_set d k v) k' = if String.eqb k' k then Some v else dict_get d k'.
Proof.
  induction d as [|[k0 v0] d IH]; simpl.
  - destruct (String.eqb k' k); reflexivity.
  - destruct (String.eqb_spec k k0) as [->|Hk]; simpl.
    + destruct (String.eqb k' k0); reflexivity.
    + rewrite IH. destruct (String.eqb_spec k' k0) as [->|]; [|reflexivity].
      destruct (String.eqb_spec k0 k); [congruence|reflexivity].
Qed.

Lemma dict_get_notin (d : list (string * pyval)) (k : string) :
  ~ In k (map fst d) -> dict_get d k = None.
Proof.
  induction d as [|[k0 v0] d IH]; simpl; intros H; [reflexivity|].
  destruct (String.eqb_spec k k0); [subst; tauto|]. apply IH. tauto.
Qed.

Lemma dict_get_in (d : list (string * pyval)) (k : string) :
  dict_get d k = None -> ~ In k (map fst d).
Proof.
  induction d as [|[k0 v0] d IH]; simpl; intros H; [tauto|].
  destruct (String.eqb_spec k k0); [discriminate|]. intros [E|Hin]; [congruence|exact (IH H Hin)].
Qed.

Lemma dict_get_update (base other : list (string * pyval)) (k : string) :
  NoDup (map fst other) ->
  dict_get (dict_update base other) k =
  match dict_get other k with Some v => Some v | None => dict_get base k end.
Proof.
  unfold dict_update. revert base. induction other as [|[k0 v0] other IH]; intros base Hnd;
    [reflexivity|].
  simpl in Hnd |- *. apply NoDup_cons in Hnd as [Hk0 Hnd]. rewrite list_elem_of_In in Hk0.
  rewrite IH by exact Hnd. rewrite dict_get_set.
  destruct (String.eqb_spec k k0) as [->|Hk].
  - rewrite dict_get_notin by exact Hk0. reflexivity.
  - reflexivity.
Qed.

Lemma dict_set_new (d : list (string * pyval)) (k : string) (v : pyval) :
  dict_get d k = None -> dict_set d k v = d ++ [(k, v)].
Proof.
  induction d as [|[k0 v0] d IH]; simpl; intros H; [reflexivity|].
  destruct (String.eqb_spec k k0); [discriminate|]. rewrite IH by exact H. reflexivity.
Qed.

(** Loading with [JSONIO.load_with_metadata] and saving back with
    [JSONIO.save_with_metadata] keeps every field other than [coord]
    unchanged and writes the keypoints as [coord]. *)
Theorem metadata_load_save_keeps_fields (d : list (string * pyval)) (kps : list point) :
  NoDup (map fst d) ->
  dict_get d "coord" = Some (coord_list kps) \/ (dict_get d "coord" = None /\ kps = []) ->
  exists d', save_with_metadata kps (load_with_metadata d) = PDict d' /\
    dict_get d' "coord" = Some (coord_list kps) /\
    forall k, k <> "coord"%string -> dict_get d' k = dict_get d k.
Proof.
  intros Hnd Hc.
  assert (L : exists d1, load_with_metadata d = d1 /\ NoDup (map fst d1) /\
                dict_get d1 "coord" = Some (coord_list kps) /\
                forall k, k <> "coord"%string -> dict_get d1 k = dict_get d k).
  { unfold load_with_metadata. destruct Hc as [Hc|[Hc ->]]; rewrite Hc.
    - exists d. auto.
    - eexists. split; [reflexivity|]. rewrite dict_set_new by exact Hc. split.
      + rewrite map_app. simpl. apply NoDup_app. split; [exact Hnd|]. split.
        * intros k Hk Hin. apply list_elem_of_In in Hin as [<-|[]].
          apply list_elem_of_In in Hk. exact (dict_get_in d _ Hc Hk).
        * apply NoDup_singleton.
      + rewrite <- dict_set_new by exact Hc. rewrite dict_get_set. split; [reflexivity|].
        intros k Hk. rewrite dict_get_set. destruct (String.eqb_spec k "coord"); [congruence|reflexivity]. }
  destruct L as (d1 & -> & Hnd1 & Hc1 & Hk1).
  assert (Ne : d1 <> []) by (intros ->; discriminate).
  exists (dict_update [("coord"%string, coord_list kps)] d1).
  split; [unfold save_with_metadata, save_keypoints; destruct d1; [congruence|reflexivity]|]. split.
  - rewrite dict_get_update by exact Hnd1. rewrite Hc1. reflexivity.
  - intros k Hk. rewrite dict_get_update by exact Hnd1. rewrite Hk1 by exact Hk.
    destruct (dict_get d k); [reflexivity|]. simpl.
    destruct (String.eqb_spec k "coord"); [congruence|reflexivity].
Qed.

Lemma metadata_load_save_keeps_fields_witness :
  exists d', save_with_metadata [(10, 20); (30, 5)] (load_with_metadata sidecar_note_fields) = PDict d' /\
    dict_get d' "coord" = Some (coord_list [(10, 20); (30, 5)]) /\
    dict_get d' "note" = Some (PStr "x").
Proof.
  destruct (metadata_load_save_keeps_fields sidecar_note_fields [(10, 20); (30, 5)])
    as (d' & E & Hc & Hk); [|left; reflexivity|].
  { simpl. apply NoDup_cons. split; [|apply NoDup_singleton].
    rewrite list_elem_of_In. intros [E|[]]. discriminate E. }
  exists d'. split; [exact E|]. split; [exact Hc|]. rewrite Hk by discriminate. reflexivity.
Defined.

(* ---- zoom range ---- *)

Lemma py_fmin_cases (a b : Q) : (py_fmin a b = b /\ b < a \/ py_fmin a b = a /\ a <= b)%Q.
Proof. unfold py_fmin. destruct (Qlt_le_dec b a); [left | right]; auto. Qed.

Lemma py_fmax_cases (a b : Q) : (py_fmax a b = b /\ a < b \/ py_fmax a b = a /\ b <= a)%Q.
Proof. unfold py_fmax. destruct (Qlt_le_dec a b); [left | right]; auto. Qed.

Lemma py_int_between (q : Q) (a b : Z) :
  0 <= a -> (inject_Z a <= q <= inject_Z b)%Q -> a <= py_int q <= b.
Proof.
  intros Ha [H1 H2]. destruct q as [n d]. unfold Qle in H1, H2. simpl in H1, H2.
  unfold py_int. simpl. rewrite Z.quot_div_nonneg by lia. split.
  - apply Z.div_le_lower_bound; lia.
  - apply Z.div_le_upper_bound; lia.
Qed.

Lemma zoom_factor_wheel (s : canvas) (delta : Z) (pos : Z * Z) :
  zoom_factor (wheelEvent s true delta pos) =
  py_fmax (1 # 10) (py_fmin 10 (zoom_factor s * (if 0 <? delta then 11 # 10 else 9 # 10))%Q).
Proof.
  unfold wheelEvent. cbv zeta.
  destruct (negb _); [destruct (qrect_contains _ _)|]; reflexivity.
Qed.

Lemma zoom_factor_undo (s : canvas) : zoom_factor (undo_st s) = zoom_factor s.
Proof.
  unfold undo_st, undo. destruct (rev (undo_stack s)) as [|e rest]; [reflexivity|].
  destruct (action_type e); [reflexivity | reflexivity |].
  destruct (data e); try reflexivity. cbn. destruct (_ && _); reflexivity.
Qed.

Lemma zoom_factor_move (s : canvas) (dx dy : Z) :
  zoom_factor (move_selected_point s dx dy) = zoom_factor s.
Proof.
  unfold move_selected_point. destruct (_ || _); [reflexivity|].
  destruct (py_get _ _). destruct (pixmap s) as [[]|]; reflexivity.
Qed.

Lemma zoom_factor_delete (s : canvas) : zoom_factor (delete_selected_point s) = zoom_factor s.
Proof. unfold delete_selected_point. destruct (_ && _); reflexivity. Qed.

Lemma zoom_in_ok (s : canvas) : zoom_ok s -> zoom_ok (zoom_in s).
Proof.
  unfold zoom_ok, zoom_in. cbn [zoom_factor with_zoom]. intros [H1 H2].
  destruct (py_fmin_cases 10 (zoom_factor s * (6 # 5))) as [[-> H]|[-> H]]; lra.
Qed.

Lemma zoom_out_ok (s : canvas) : zoom_ok s -> zoom_ok (zoom_out s).
Proof.
  unfold zoom_ok, zoom_out. cbn [zoom_factor with_zoom]. intros [H1 H2].
  unfold Qdiv. change (/ (6 # 5))%Q with (5 # 6)%Q.
  destruct (py_fmax_cases (1 # 10) (zoom_factor s * (5 # 6))) as [[-> H]|[-> H]]; lra.
Qed.

Lemma reset_view_ok (s : canvas) : zoom_ok (reset_view s).
Proof. unfold zoom_ok. cbn. lra. Qed.

Lemma key_press_zoom (u : ui) (ctrl shift : bool) (key : Z) :
  zoom_ok (cv u) -> zoom_ok (cv (keyPressEvent u ctrl shift key)).
Proof.
  intros H. unfold keyPressEvent. cbv zeta.
  destruct (ctrl && (key =? Key_Z)); [unfold zoom_ok in *; cbn; rewrite zoom_factor_undo; exact H|].
  destruct (ctrl && _); [apply zoom_in_ok, H|].
  destruct (ctrl && _); [apply zoom_out_ok, H|].
  destruct (ctrl && _); [apply reset_view_ok|].
  destruct (key =? Key_Space); [exact H|].
  destruct (pan_offset (cv u)) as [px py].
  repeat match goal with
         | |- context [if ?c then _ else _] => destruct c
         end; unfold zoom_ok in *; cbn;
    rewrite ?zoom_factor_move, ?zoom_factor_delete; exact H.
Qed.

(** [zoom_in], [zoom_out], [reset_view], [fit_to_window] and every key
    press keep [zoom_factor] in [0.1, 10.0] and the Ctrl+wheel handler
    always leaves it there; in that range [get_zoom_percentage] is between
    10 and 1000. *)
Theorem zoom_stays_in_range (u : ui) :
  zoom_ok (cv u) ->
  zoom_ok (zoom_in (cv u)) /\ zoom_ok (zoom_out (cv u)) /\
  zoom_ok (reset_view (cv u)) /\ zoom_ok (fit_to_window (cv u)) /\
  (forall delta pos, zoom_ok (wheelEvent (cv u) true delta pos)) /\
  (forall ctrl shift key, zoom_ok (cv (keyPressEvent u ctrl shift key))) /\
  10 <= get_zoom_percentage (cv u) <= 1000.
Proof.
  intros H. split; [apply zoom_in_ok, H|]. split; [apply zoom_out_ok, H|].
  split; [apply reset_view_ok|].
  split; [unfold fit_to_window; destruct (pixmap (cv u)); [apply reset_view_ok | exact H]|].
  split.
  { intros delta pos. unfold zoom_ok. rewrite zoom_factor_wheel.
    destruct (py_fmin_cases 10 (zoom_factor (cv u) * (if 0 <? delta then 11 # 10 else 9 # 10))%Q)
      as [[-> Hm]|[-> Hm]];
    [destruct (py_fmax_cases (1 # 10) (zoom_factor (cv u) * (if 0 <? delta then 11 # 10 else 9 # 10))%Q)
       as [[-> Hx]|[-> Hx]]
    |destruct (py_fmax_cases (1 # 10) 10) as [[-> Hx]|[-> Hx]]]; lra. }
  split; [intros; apply key_press_zoom, H|].
  unfold get_zoom_percentage. apply py_int_between; [lia|].
  unfold zoom_ok in H. destruct H as [H1 H2]. split; unfold inject_Z; lra.
Qed.

Lemma zoom_stays_in_range_witness :
  zoom_ok (cv (keyPressEvent (ui_of one_point) true false Key_Plus)) /\
  get_zoom_percentage (cv (keyPressEvent (ui_of one_point) true false Key_Plus)) = 120.
Proof.
  split.
  - refine (proj1 (proj2 (proj2 (proj2 (proj2 (proj2 (zoom_stays_in_range (ui_of one_point) _)))))) true false Key_Plus).
    unfold zoom_ok. cbn. lra.
  - vm_compute. reflexivity.
Defined.

(* ---- screen_to_image_coords range ---- *)

(** [screen_to_image_coords] on a view whose content is not empty returns
    image coordinates in [0, pw] x [0, ph]; the bottom-right corner of the
    content rectangle maps to [(pw, ph)], one past the last pixel on each
    axis. *)
Theorem screen_to_image_range (s : canvas) (pw ph sw sh : Z) :
  pixmap s = Some (pw, ph) -> 0 <= pw -> 0 <= ph ->
  scaled_size s pw ph = (sw, sh) -> 0 < sw -> 0 < sh ->
  (forall pos p, screen_to_image_coords s pos = Some p ->
     0 <= fst p <= pw /\ 0 <= snd p <= ph) /\
  screen_to_image_coords s (fst (image_origin s pw ph) + sw, snd (image_origin s pw ph) + sh)
    = Some (pw, ph).
Proof.
  intros Hp Hpw Hph Hsc Hsw Hsh.
  unfold screen_to_image_coords. rewrite Hp, Hsc.
  destruct (image_origin s pw ph) as [ox oy] eqn:Ho. split.
  - intros [px py] p. cbn [fst snd].
    destruct ((ox <=? px) && (px <=? ox + sw) && (oy <=? py) && (py <=? oy + sh)) eqn:Hin;
      [|discriminate].
    apply andb_prop in Hin as [Hin H4]. apply andb_prop in Hin as [Hin H3].
    apply andb_prop in Hin as [H1 H2].
    apply Z.leb_le in H1, H2, H3, H4.
    intros E. injection E as <-. cbn [fst snd].
    rewrite !py_int_div_mul by lia.
    assert (Hq : forall a b m, 0 <= a <= m -> 0 < m -> 0 <= b -> 0 <= Z.quot (a * b) m <= b).
    { intros a b m Ha Hm Hb. split; [apply Z.quot_pos; nia|].
      rewrite Z.quot_div_nonneg by nia. apply Z.div_le_upper_bound; nia. }
    split; apply Hq; lia.
  - cbn [fst snd].
    replace ((ox <=? ox + sw) && (ox + sw <=? ox + sw) && (oy <=? oy + sh) && (oy + sh <=? oy + sh))
      with true by (symmetry; repeat (apply andb_true_intro; split); apply Z.leb_le; lia).
    rewrite !py_int_div_mul by lia.
    replace (ox + sw - ox) with sw by lia. replace (oy + sh - oy) with sh by lia.
    rewrite (Z.mul_comm sw pw), (Z.mul_comm sh ph), !Z.quot_mul by lia. reflexivity.
Qed.

Lemma screen_to_image_range_witness :
  screen_to_image_coords view_native (800, 600) = Some (800, 600).
Proof.
  exact (proj2 (screen_to_image_range view_native 800 600 800 600 eq_refl
                  ltac:(lia) ltac:(lia) eq_refl ltac:(lia) ltac:(lia))).
Defined.

(* ---- valid selection ---- *)

Lemma closest_loop_range (l : list point) (k : Z) (ip : point) (md2 c : Z) :
  closest_loop l k ip md2 c = c \/
  k <= closest_loop l k ip md2 c < k + Z.of_nat (length l).
Proof.
  revert k md2 c. induction l as [|q l IH]; intros k md2 c; [left; reflexivity|].
  cbn [closest_loop length]. destruct (sq_dist ip q <? md2).
  - destruct (IH (k + 1) (sq_dist ip q) k) as [->|H]; right; lia.
  - destruct (IH (k + 1) md2 c) as [->|H]; [left; reflexivity | right; lia].
Qed.

Lemma closest_point_range (s : canvas) (ip : point) :
  closest_point s ip = -1 \/ 0 <= closest_point s ip < zlen (keypoints s).
Proof. unfold closest_point, zlen. apply closest_loop_range. Qed.

Lemma push_undo_Forall (P : undo_state -> Prop) (st : list undo_state) (e : undo_state) :
  Forall P st -> P e -> Forall P (push_undo st e).
Proof.
  intros Hst He. assert (H : Forall P (st ++ [e])) by (apply Forall_app; auto).
  unfold push_undo. destruct (_ <? _); [apply Forall_drop|]; exact H.
Qed.

Lemma save_state_ok (s : canvas) (a : action) (d : undo_data) :
  canvas_ok s -> canvas_ok (save_state_for_undo s a d).
Proof.
  intros [Hs Hst]. split; [exact Hs|]. cbn. apply push_undo_Forall; [exact Hst | exact Hs].
Qed.

Lemma handle_point_click_ok (s : canvas) (pos : Z * Z) :
  canvas_ok s -> canvas_ok (handle_point_click s pos).
Proof.
  intros Hok. unfold handle_point_click.
  destruct (screen_to_image_coords s pos) as [ip|]; [|exact Hok].
  destruct (Z.leb_spec 0 (closest_point s ip)) as [Hc|Hc].
  - split; [|exact (proj2 Hok)]. right. cbn.
    destruct (closest_point_range s ip); lia.
  - pose proof (save_state_ok s Add (AddData ip) Hok) as [_ Hst]. split; [|exact Hst].
    right. cbn. unfold zlen. rewrite length_app. cbn [length]. lia.
Qed.

Lemma handle_right_click_ok (s : canvas) :
  canvas_ok s -> canvas_ok (handle_right_click s).
Proof.
  intros Hok. unfold handle_right_click.
  destruct ((0 <=? last_added_point s) && (last_added_point s <? zlen (keypoints s))) eqn:Hl;
    [|exact Hok].
  apply andb_prop in Hl as [H1 H2]. apply Z.leb_le in H1. apply Z.ltb_lt in H2.
  pose proof (save_state_ok s Delete (DeleteData (last_added_point s)
               (py_get (keypoints s) (last_added_point s))) Hok) as [_ Hst].
  assert (Hlen : forall l : list point, l = keypoints s ->
                   zlen (py_del l (last_added_point s)) = zlen (keypoints s) - 1).
  { intros l ->. unfold zlen, py_del in *. rewrite length_delete; [lia|].
    apply lookup_lt_is_Some_2. lia. }
  specialize (Hlen _ eq_refl).
  destruct Hok as [Hs _]. cbn.
  destruct (Z.eqb_spec (selected_point s) (last_added_point s)) as [E|E].
  - split; [left; reflexivity | exact Hst].
  - destruct (Z.ltb_spec (last_added_point s) (selected_point s)) as [L|L].
    + split; [|exact Hst]. right. cbn. rewrite Hlen. destruct Hs as [Hs|Hs]; lia.
    + split; [|exact Hst]. cbn. unfold sel_ok. rewrite Hlen. destruct Hs as [Hs|Hs]; [left; exact Hs | right; lia].
Qed.

Lemma delete_selected_point_ok (s : canvas) :
  canvas_ok s -> canvas_ok (delete_selected_point s).
Proof.
  intros Hok. unfold delete_selected_point. destruct (_ && _); [|exact Hok].
  pose proof (save_state_ok s Delete (DeleteData (selected_point s)
               (py_get (keypoints s) (selected_point s))) Hok) as [_ Hst].
  split; [left; reflexivity | exact Hst].
Qed.

Lemma move_selected_point_ok (s : canvas) (dx dy : Z) :
  canvas_ok s -> canvas_ok (move_selected_point s dx dy).
Proof.
  intros Hok.
  destruct ((selected_point s <? 0) || (zlen (keypoints s) <=? selected_point s)) eqn:Hc.
  - unfold move_selected_point. rewrite Hc. exact Hok.
  - apply orb_false_elim in Hc as [H1 H2]. apply Z.ltb_ge in H1. apply Z.leb_gt in H2.
    rewrite move_selected_point_eq by lia.
    destruct Hok as [Hs Hst]. split.
    + right. cbn. unfold zlen. rewrite py_set_length. unfold zlen in H2. lia.
    + cbn. apply push_undo_Forall; [exact Hst | exact Hs].
Qed.

Lemma undo_ok (s : canvas) : canvas_ok s -> canvas_ok (undo_st s).
Proof.
  intros [Hs Hst]. unfold undo_st, undo.
  destruct (rev (undo_stack s)) as [|e rest] eqn:Hr; [split; assumption|].
  assert (Hst' : undo_stack s = rev rest ++ [e]).
  { rewrite <- (rev_involutive (undo_stack s)), Hr. reflexivity. }
  rewrite Hst' in Hst. apply Forall_app in Hst as [Hrest He]. apply Forall_cons in He as [He _].
  destruct (action_type e).
  - split; [exact He | exact Hrest].
  - split; [exact He | exact Hrest].
  - destruct (data e) as [| |index o n]; try (split; assumption).
    cbn. destruct ((0 <=? index) && (index <? zlen (keypoints s))) eqn:Hi; [|split; assumption].
    apply andb_prop in Hi as [H1 H2]. apply Z.leb_le in H1. apply Z.ltb_lt in H2.
    split; [|exact Hrest]. right. cbn. unfold zlen. rewrite py_set_length. unfold zlen in H2. lia.
Qed.

Lemma handle_point_drag_ok (s s' : canvas) (pos : Z * Z) :
  canvas_ok s -> handle_point_drag s pos = Some s' -> canvas_ok s'.
Proof.
  intros [Hs Hst]. unfold handle_point_drag.
  destruct (selected_point s <? 0); [intros E; injection E as <-; split; assumption|].
  destruct (screen_to_image_coords s pos) as [ip|]; [|intros E; injection E as <-; split; assumption].
  destruct (match pixmap s with Some (pw, ph) => _ | None => ip end) as [x y].
  destruct (zlen (keypoints s) <=? selected_point s); [discriminate|].
  intros E. injection E as <-. split; [|exact Hst]. cbn.
  unfold sel_ok, zlen in *. rewrite py_set_length. exact Hs.
Qed.

(** Every editing operation of the canvas keeps the selection valid (none,
    or an index of the keypoint sequence) and keeps every snapshot on the
    undo stack valid: [handle_point_click], [handle_right_click],
    [delete_selected_point], [move_selected_point], [undo] and
    [handle_point_drag]; [set_keypoints] establishes it. *)
Theorem canvas_ops_keep_selection_valid (s : canvas) :
  canvas_ok s ->
  (forall pos, canvas_ok (handle_point_click s pos)) /\
  canvas_ok (handle_right_click s) /\
  canvas_ok (delete_selected_point s) /\
  (forall dx dy, canvas_ok (move_selected_point s dx dy)) /\
  canvas_ok (undo_st s) /\
  (forall pos s', handle_point_drag s pos = Some s' -> canvas_ok s') /\
  (forall k, canvas_ok (set_keypoints s k)).
Proof.
  intros H. split; [intros; apply handle_point_click_ok, H|].
  split; [apply handle_right_click_ok, H|].
  split; [apply delete_selected_point_ok, H|].
  split; [intros; apply move_selected_point_ok, H|].
  split; [apply undo_ok, H|].
  split; [intros pos s'; apply handle_point_drag_ok, H|].
  intros k. split; [left; reflexivity | constructor].
Qed.

Lemma canvas_ops_keep_selection_valid_witness :
  canvas_ok (handle_right_click three_points).
Proof.
  apply (canvas_ops_keep_selection_valid three_points).
  split; [right; unfold zlen; cbn; lia | constructor].
Defined.

(* ---- events never raise ---- *)

Lemma handle_point_drag_some (s : canvas) (pos : Z * Z) :
  canvas_ok s -> exists s', handle_point_drag s pos = Some s'.
Proof.
  intros [Hs _]. unfold handle_point_drag.
  destruct (Z.ltb_spec (selected_point s) 0); [eauto|].
  destruct (screen_to_image_coords s pos) as [ip|]; [|eauto].
  destruct (match pixmap s with Some (pw, ph) => _ | None => ip end) as [x y].
  replace (zlen (keypoints s) <=? selected_point s) with false
    by (symmetry; apply Z.leb_gt; destruct Hs; lia).
  eauto.
Qed.

Lemma key_press_ok (u : ui) (ctrl shift : bool) (key : Z) :
  canvas_ok (cv u) -> canvas_ok (cv (keyPressEvent u ctrl shift key)).
Proof.
  intros H. unfold keyPressEvent. cbv zeta.
  destruct (ctrl && (key =? Key_Z)); [apply undo_ok, H|].
  destruct (ctrl && _); [exact H|].
  destruct (ctrl && _); [exact H|].
  destruct (ctrl && _); [exact H|].
  destruct (key =? Key_Space); [exact H|].
  destruct (pan_offset (cv u)) as [px py].
  repeat match goal with
         | |- context [if ?c then _ else _] => destruct c
         end; cbn [cv ui_set];
    first [exact H | apply move_selected_point_ok, H | apply delete_selected_point_ok, H].
Qed.

(** While the selection and the undo snapshots are valid, no mouse or
    keyboard event of the canvas raises (no [IndexError] from
    [self.keypoints[self.selected_point]]), and each keeps them valid. *)
Theorem events_never_raise (u : ui) :
  canvas_ok (cv u) ->
  (forall b alt pos, exists u', mousePressEvent u b alt pos = Some u' /\ canvas_ok (cv u')) /\
  (forall left pos, exists u', mouseMoveEvent u left pos = Some u' /\ canvas_ok (cv u')) /\
  (exists u', mouseReleaseEvent u = Some u' /\ canvas_ok (cv u')) /\
  (forall ctrl shift key, canvas_ok (cv (keyPressEvent u ctrl shift key))) /\
  (forall key, canvas_ok (cv (keyReleaseEvent u key))).
Proof.
  intros H. split.
  { intros b alt pos. unfold mousePressEvent. destruct b.
    - destruct alt; [eexists; split; [reflexivity | exact H]|].
      pose proof (handle_point_click_ok (cv u) pos H) as H1.
      destruct (screen_to_image_coords (handle_point_click (cv u) pos) pos) as [ip|];
        [|eexists; split; [reflexivity | exact H1]].
      destruct (Z.leb_spec 0 (selected_point (handle_point_click (cv u) pos))) as [L|L];
        [|eexists; split; [reflexivity | exact H1]].
      replace (zlen (keypoints (handle_point_click (cv u) pos)) <=?
               selected_point (handle_point_click (cv u) pos)) with false
        by (symmetry; apply Z.leb_gt; destruct H1 as [[E|E] _]; lia).
      destruct (py_get _ _) as [x y].
      destruct (_ <? _); eexists; split; try reflexivity; exact H1.
    - eexists; split; [reflexivity|]. apply handle_right_click_ok, H.
    - eexists; split; [reflexivity | exact H]. }
  split.
  { intros left pos. unfold mouseMoveEvent. cbv zeta.
    destruct left; [|eexists; split; [reflexivity | exact H]].
    destruct (mode_eqb (mouse_mode u) ModeSelect && (0 <=? selected_point (cv u))).
    - destruct (handle_point_drag_some (cv u) pos H) as [s' E]. rewrite E.
      eexists; split; [reflexivity|]. exact (handle_point_drag_ok _ _ _ H E).
    - destruct (mode_eqb (mouse_mode u) ModePan); eexists; split; try reflexivity; exact H. }
  split.
  { unfold mouseReleaseEvent. cbv zeta.
    destruct (drag_start_position u) as [start|]; [|eexists; split; [reflexivity | exact H]].
    destruct (dragging u && (0 <=? selected_point (cv u))) eqn:Hd;
      [|eexists; split; [reflexivity | exact H]].
    apply andb_prop in Hd as [_ Hd]. apply Z.leb_le in Hd.
    replace (zlen (keypoints (cv u)) <=? selected_point (cv u)) with false
      by (symmetry; apply Z.leb_gt; destruct H as [[E|E] _]; lia).
    destruct (_ || _); eexists; (split; [reflexivity|]); [apply save_state_ok, H | exact H]. }
  split; [intros; apply key_press_ok, H|].
  intros key. unfold keyReleaseEvent. destruct (key =? Key_Space); exact H.
Qed.

Lemma events_never_raise_witness :
  exists u', mousePressEvent (ui_of one_point) LeftButton false (100, 100) = Some u' /\
             canvas_ok (cv u').
Proof.
  assert (Hok : canvas_ok (cv (ui_of one_point))).
  { split; [right; unfold zlen; cbn; lia | constructor]. }
  destruct (events_never_raise (ui_of one_point) Hok) as [Hpress _].
  exact (Hpress LeftButton false (100, 100)).
Defined.

(* ---- keypoints stay inside the image ---- *)

Lemma clamp_in (m v : Z) : 0 <= m -> 0 <= py_max 0 (py_min m v) <= m.
Proof.
  intros Hm. unfold py_max, py_min.
  destruct (Z.ltb_spec v m); [destruct (Z.ltb_spec 0 v) | destruct (Z.ltb_spec 0 m)]; lia.
Qed.

Lemma Forall_py_set (P : point -> Prop) (l : list point) (i : Z) (v : point) :
  Forall P l -> P v -> Forall P (py_set l i v).
Proof. intros Hl Hv. unfold py_set. apply Forall_insert; assumption. Qed.

Lemma Forall_py_del (P : point -> Prop) (l : list point) (i : Z) :
  Forall P l -> Forall P (py_del l i).
Proof. intros Hl. unfold py_del. apply Forall_delete, Hl. Qed.

Lemma Forall_nonempty_bound (l : list point) (i : Z) (pw ph : Z) :
  Forall (fun p => 0 <= fst p <= pw - 1 /\ 0 <= snd p <= ph - 1) l ->
  0 <= i < zlen l -> 1 <= pw /\ 1 <= ph.
Proof.
  intros Hl Hi. destruct l as [|p l]; [unfold zlen in Hi; cbn in Hi; lia|].
  apply Forall_cons in Hl as [[Hx Hy] _]. lia.
Qed.

(** Keyboard nudges ([move_selected_point]), dragging
    ([handle_point_drag]) and the deletions ([delete_selected_point],
    [handle_right_click]) keep every keypoint on a pixel of the image:
    the moved point is clamped to [0, pw - 1] x [0, ph - 1]. *)
Theorem moves_keep_points_in_image (s : canvas) :
  in_image s ->
  (forall dx dy, in_image (move_selected_point s dx dy)) /\
  (forall pos s', handle_point_drag s pos = Some s' -> in_image s') /\
  in_image (delete_selected_point s) /\
  in_image (handle_right_click s).
Proof.
  unfold in_image. intros H. split; [|split; [|split]].
  - intros dx dy.
    destruct ((selected_point s <? 0) || (zlen (keypoints s) <=? selected_point s)) eqn:Hc.
    { unfold move_selected_point. rewrite Hc. exact H. }
    apply orb_false_elim in Hc as [H1 H2]. apply Z.ltb_ge in H1. apply Z.leb_gt in H2.
    rewrite move_selected_point_eq by lia. cbn.
    destruct (pixmap s) as [[pw ph]|] eqn:Hp; [|exact I].
    destruct (Forall_nonempty_bound _ _ pw ph H (conj H1 H2)) as [Hw Hh].
    apply Forall_py_set; [exact H|]. unfold move_target. rewrite Hp.
    destruct (py_get (keypoints s) (selected_point s)) as [x y]. cbn.
    split; apply clamp_in; lia.
  - intros pos s'. unfold handle_point_drag.
    destruct (Z.ltb_spec (selected_point s) 0); [intros E; injection E as <-; exact H|].
    destruct (screen_to_image_coords s pos) as [ip|]; [|intros E; injection E as <-; exact H].
    destruct (pixmap s) as [[pw ph]|] eqn:Hp.
    + destruct (Z.leb_spec (zlen (keypoints s)) (selected_point s)); [discriminate|].
      intros E. injection E as <-. cbn. rewrite Hp.
      destruct (Forall_nonempty_bound _ _ pw ph H (conj H0 H1)) as [Hw Hh].
      apply Forall_py_set; [exact H|]. cbn. split; apply clamp_in; lia.
    + destruct ip as [x y]. destruct (_ <=? _); [discriminate|].
      intros E. injection E as <-. cbn. rewrite Hp. exact I.
  - unfold delete_selected_point. destruct (_ && _); [|exact H]. cbn.
    destruct (pixmap s) as [[pw ph]|]; [apply Forall_py_del, H | exact I].
  - unfold handle_right_click. destruct (_ && _); [|exact H]. cbv zeta.
    destruct (_ =? _); [|destruct (_ <? _)]; cbn;
      (destruct (pixmap s) as [[pw ph]|]; [apply Forall_py_del, H | exact I]).
Qed.

Lemma moves_keep_points_in_image_witness :
  in_image (move_selected_point one_point 1000 (-50)) /\
  keypoints (move_selected_point one_point 1000 (-50)) = [(799, 50)].
Proof.
  split.
  - apply (moves_keep_points_in_image one_point). cbn.
    repeat constructor; cbn; lia.
  - reflexivity.
Defined.

(* ---- drag gesture and undo ---- *)

Lemma closest_loop_hit (l : list point) (k : Z) (ip : point) (md2 c : Z) :
  closest_loop l k ip md2 c = c \/
  exists q, l !! Z.to_nat (closest_loop l k ip md2 c - k) = Some q /\
            k <= closest_loop l k ip md2 c /\ sq_dist ip q < md2.
Proof.
  revert k md2 c. induction l as [|q l IH]; intros k md2 c; [left; reflexivity|].
  cbn [closest_loop]. destruct (Z.ltb_spec (sq_dist ip q) md2) as [Hq|Hq].
  - right. destruct (IH (k + 1) (sq_dist ip q) k) as [->|(q' & Hl & Hk & Hd)].
    + exists q. replace (k - k) with 0 by lia. split; [reflexivity|]. split; lia.
    + exists q'. replace (Z.to_nat (closest_loop l (k + 1) ip (sq_dist ip q) k - k))
        with (S (Z.to_nat (closest_loop l (k + 1) ip (sq_dist ip q) k - (k + 1)))) by lia.
      split; [exact Hl|]. split; lia.
  - destruct (IH (k + 1) md2 c) as [->|(q' & Hl & Hk & Hd)]; [left; reflexivity|].
    right. exists q'. replace (Z.to_nat (closest_loop l (k + 1) ip md2 c - k))
        with (S (Z.to_nat (closest_loop l (k + 1) ip md2 c - (k + 1)))) by lia.
    split; [exact Hl|]. split; lia.
Qed.

Lemma py_get_set (l : list point) (i : Z) (v : point) :
  (Z.to_nat i < length l)%nat -> py_get (py_set l i v) i = v.
Proof. intros H. unfold py_get, py_set. rewrite list_lookup_insert_eq by exact H. reflexivity. Qed.

Lemma undo_move_top (s : canvas) (X : list undo_state) (e : undo_state) (idx : Z) (o n : point) :
  undo_stack s = X ++ [e] -> action_type e = Move -> data e = MoveData idx o n ->
  0 <= idx < zlen (keypoints s) ->
  keypoints (undo_st s) = py_set (keypoints s) idx o /\ selected_point (undo_st s) = idx.
Proof.
  intros Hs Ha Hd Hi. unfold undo_st, undo. rewrite Hs, rev_unit. cbn [snd].
  rewrite Ha, Hd. cbn.
  replace ((0 <=? idx) && (idx <? zlen (keypoints s))) with true
    by (symmetry; apply andb_true_intro; split; [apply Z.leb_le | apply Z.ltb_lt]; lia).
  split; reflexivity.
Qed.

Lemma mouse_moves_drag (u : ui) (i : Z) (p : point) (Hi : 0 <= i < zlen (keypoints (cv u)))
      (ps : list (Z * Z)) (u' : ui) :
  dragging_state u i p u' -> exists u2, mouse_moves u' ps = Some u2 /\ dragging_state u i p u2.
Proof.
  revert u'. induction ps as [|pt ps IH]; intros u' Hd; [exists u'; split; [reflexivity | exact Hd]|].
  destruct Hd as (Hm & Hdr & Hds & Hsel & Hst & q & Hk).
  assert (Hlen : 0 <= selected_point (cv u') < zlen (keypoints (cv u'))).
  { rewrite Hsel, Hk. unfold zlen in *. rewrite py_set_length. lia. }
  cbn [mouse_moves]. unfold mouseMoveEvent. cbv zeta. rewrite Hm.
  cbn [mode_eqb andb]. replace (0 <=? selected_point (cv u')) with true
    by (symmetry; apply Z.leb_le; lia).
  unfold handle_point_drag.
  replace (selected_point (cv u') <? 0) with false by (symmetry; apply Z.ltb_ge; lia).
  destruct (screen_to_image_coords (cv u') pt) as [ip|].
  - destruct (match pixmap (cv u') with Some (pw, ph) => _ | None => ip end) as [x y].
    replace (zlen (keypoints (cv u')) <=? selected_point (cv u')) with false
      by (symmetry; apply Z.leb_gt; lia).
    apply IH. unfold dragging_state. cbn. split; [reflexivity|]. split; [exact Hdr|]. split; [exact Hds|].
    split; [exact Hsel|]. split; [exact Hst|].
    exists (x, y). rewrite Hk, Hsel. apply py_set_set.
  - apply IH. unfold dragging_state. cbn. split; [reflexivity|]. split; [exact Hdr|]. split; [exact Hds|].
    split; [exact Hsel|]. split; [exact Hst|]. exists q. exact Hk.
Qed.

(** A drag gesture on an existing point: a left press (no Alt) whose image
    position [ip] has its nearest point [i] within the hit radius, any
    number of moves with the button held, then the release.  It never
    raises; afterwards point [i] is still selected, the sequence has the
    same length and only point [i] may differ; if it differs, one [undo()]
    gives back the sequence from before the press. *)
Theorem drag_gesture_undo (u : ui) (pos : Z * Z) (ip : point) (i : Z) (ps : list (Z * Z)) :
  screen_to_image_coords (cv u) pos = Some ip ->
  closest_point (cv u) ip = i -> 0 <= i ->
  exists u3, drag_gesture u pos ps = Some u3 /\
    selected_point (cv u3) = i /\
    length (keypoints (cv u3)) = length (keypoints (cv u)) /\
    (forall j, j <> Z.to_nat i -> keypoints (cv u3) !! j = keypoints (cv u) !! j) /\
    (keypoints (cv u3) <> keypoints (cv u) -> keypoints (undo_st (cv u3)) = keypoints (cv u)).
Proof.
  intros Hip Hc Hi0.
  assert (Hi : 0 <= i < zlen (keypoints (cv u)))
    by (destruct (closest_point_range (cv u) ip); lia).
  set (kps := keypoints (cv u)) in *.
  set (p := py_get kps i).
  assert (Hp : kps !! Z.to_nat i = Some p).
  { unfold p, py_get. destruct (lookup_lt_is_Some_2 kps (Z.to_nat i)) as [v Hv];
      [unfold zlen in Hi; lia|]. rewrite Hv. reflexivity. }
  assert (Hd : sq_dist ip p < hit_radius (cv u) * hit_radius (cv u)).
  { destruct (closest_loop_hit kps 0 ip (hit_radius (cv u) * hit_radius (cv u)) (-1))
      as [E|(q & Hq & _ & Hlt)].
    - unfold closest_point in Hc. fold kps in Hc. lia.
    - unfold closest_point in Hc. fold kps in Hc. rewrite Hc, Z.sub_0_r in Hq.
      rewrite Hp in Hq. injection Hq as <-. exact Hlt. }
  unfold drag_gesture, mousePressEvent, handle_point_click.
  rewrite Hip, Hc. replace (0 <=? i) with true by (symmetry; apply Z.leb_le; lia).
  change (screen_to_image_coords (with_selected (cv u) i) pos) with
         (screen_to_image_coords (cv u) pos).
  rewrite Hip. cbn [selected_point keypoints with_selected].
  replace (0 <=? i) with true by (symmetry; apply Z.leb_le; lia).
  fold kps. replace (zlen kps <=? i) with false by (symmetry; apply Z.leb_gt; lia).
  fold p. destruct p as [x y] eqn:Ep.
  change (hit_radius (with_selected (cv u) i)) with (hit_radius (cv u)).
  replace (sq_dist ip (x, y) <? hit_radius (cv u) * hit_radius (cv u)) with true
    by (symmetry; apply Z.ltb_lt; exact Hd).
  set (u1 := ui_set u (with_selected (cv u) i) ModeSelect true (Some (x, y)) pos).
  destruct (mouse_moves_drag u i (x, y) Hi ps u1) as (u2 & Hm & Hm2 & Hdr & Hds & Hsel & Hst & q & Hk).
  { unfold dragging_state. cbn. split; [reflexivity|]. split; [reflexivity|].
    split; [reflexivity|]. split; [reflexivity|]. split; [reflexivity|].
    exists (x, y). fold kps. symmetry. rewrite <- Ep. apply py_set_get. unfold zlen in Hi; lia. }
  rewrite Hm. fold kps in Hk.
  assert (Hlen2 : (Z.to_nat i < length (keypoints (cv u2)))%nat)
    by (rewrite Hk, py_set_length; unfold zlen in Hi; lia).
  assert (Hcur : py_get (keypoints (cv u2)) i = q)
    by (rewrite Hk; apply py_get_set; unfold zlen in Hi; lia).
  unfold mouseReleaseEvent. cbv zeta. rewrite Hds, Hdr, Hsel.
  replace (0 <=? i) with true by (symmetry; apply Z.leb_le; lia).
  replace (zlen (keypoints (cv u2)) <=? i) with false
    by (symmetry; apply Z.leb_gt; unfold zlen; lia).
  rewrite Hcur. cbn [andb fst snd].
  assert (Hrest : length (keypoints (cv u2)) = length kps /\
                  forall j, j <> Z.to_nat i -> keypoints (cv u2) !! j = kps !! j).
  { rewrite Hk. split; [apply py_set_length|]. intros j Hj.
    unfold py_set. apply list_lookup_insert_ne. lia. }
  destruct (negb (x =? fst q) || negb (y =? snd q)) eqn:Hne.
  - eexists. split; [reflexivity|]. cbn [cv ui_set].
    split; [exact Hsel|]. split; [exact (proj1 Hrest)|]. split; [exact (proj2 Hrest)|].
    intros _.
    destruct (push_undo_snoc (undo_stack (cv u2))
                (Build_undo_state Move (keypoints (cv u2)) i (MoveData i (x, y) q))) as [X HX].
    destruct (undo_move_top (save_state_for_undo (cv u2) Move (MoveData i (x, y) q)) X
                (Build_undo_state Move (keypoints (cv u2)) i (MoveData i (x, y) q))
                i (x, y) q) as [Hu _].
    + cbn. rewrite Hsel. exact HX.
    + reflexivity.
    + reflexivity.
    + cbn. unfold zlen. lia.
    + rewrite Hu. cbn. rewrite Hk, py_set_set, <- Ep. apply py_set_get. unfold zlen in Hi; lia.
  - eexists. split; [reflexivity|]. cbn [cv ui_set].
    split; [exact Hsel|]. split; [exact (proj1 Hrest)|]. split; [exact (proj2 Hrest)|].
    intros Hneq. exfalso. apply Hneq. rewrite Hk.
    apply orb_false_elim in Hne as [E1 E2]. apply negb_false_iff, Z.eqb_eq in E1, E2.
    destruct q as [qx qy]. cbn in E1, E2. subst qx qy. rewrite <- Ep.
    apply py_set_get. unfold zlen in Hi; lia.
Qed.

Lemma drag_gesture_undo_witness :
  exists u3, drag_gesture (ui_of one_point) (100, 100) [(120, 90); (130, 95)] = Some u3 /\
    keypoints (cv u3) = [(130, 95)] /\ keypoints (undo_st (cv u3)) = [(100, 100)].
Proof.
  destruct (drag_gesture_undo (ui_of one_point) (100, 100) (100, 100) 0 [(120, 90); (130, 95)])
    as (u3 & E & _ & _ & _ & Hu); [reflexivity | reflexivity | lia |].
  exists u3. split; [exact E|].
  assert (Hk : keypoints (cv u3) = [(130, 95)]) by (vm_compute in E; injection E as <-; reflexivity).
  split; [exact Hk|]. apply Hu. rewrite Hk. discriminate.
Defined.

(* ---- add then right-click ---- *)

(** A click on empty space appends its image position [ip]; a right click
    right after it removes that point again: the sequence is back to what
    it was, nothing is selected and no point counts as the last added one.
    The removal is recorded, so a following [undo()] brings the point
    back. *)
Theorem click_add_then_right_click (s : canvas) (pos : Z * Z) (ip : point) :
  screen_to_image_coords s pos = Some ip -> closest_point s ip < 0 ->
  let s' := handle_right_click (handle_point_click s pos) in
  keypoints s' = keypoints s /\ selected_point s' = -1 /\ last_added_point s' = -1 /\
  keypoints (undo_st s') = keypoints s ++ [ip].
Proof.
  intros Hip Hc s'. unfold s', handle_point_click. rewrite Hip.
  replace (0 <=? closest_point s ip) with false by (symmetry; apply Z.leb_gt; exact Hc).
  unfold handle_right_click. cbn [last_added_point keypoints with_last_added with_selected
                                  with_keypoints save_state_for_undo with_stack].
  assert (Hl : zlen (keypoints s ++ [ip]) - 1 = zlen (keypoints s))
    by (unfold zlen; rewrite length_app; cbn [length]; lia).
  rewrite Hl.
  replace ((0 <=? zlen (keypoints s)) && (zlen (keypoints s) <? zlen (keypoints s ++ [ip])))
    with true by (symmetry; apply andb_true_intro; split;
                  [apply Z.leb_le; unfold zlen; lia | apply Z.ltb_lt; lia]).
  assert (Hd : py_del (keypoints s ++ [ip]) (zlen (keypoints s)) = keypoints s).
  { unfold py_del, zlen. rewrite Nat2Z.id. rewrite delete_middle. apply app_nil_r. }
  cbn [keypoints selected_point last_added_point with_last_added with_selected
       with_keypoints save_state_for_undo with_stack].
  rewrite Z.eqb_refl. cbn [keypoints selected_point last_added_point with_last_added with_selected
       with_keypoints undo_stack].
  rewrite Hd. split; [reflexivity|]. split; [reflexivity|]. split; [reflexivity|].
  set (t1 := with_last_added (with_selected (with_keypoints (save_state_for_undo s Add (AddData ip))
               (keypoints s ++ [ip])) (zlen (keypoints s))) (zlen (keypoints s))).
  set (e := {| action_type := Delete; keypoints_before := keypoints s ++ [ip];
               selected_point_before := zlen (keypoints s);
               data := DeleteData (zlen (keypoints s))
                         (py_get (keypoints s ++ [ip]) (zlen (keypoints s))) |}).
  destruct (push_undo_snoc (undo_stack t1) e) as [X HX].
  match goal with |- keypoints (undo_st ?t) = _ =>
    destruct (undo_structural t X e) as [Hu _]; [discriminate | exact HX | rewrite Hu; reflexivity]
  end.
Qed.

Lemma click_add_then_right_click_witness :
  keypoints (handle_right_click (handle_point_click one_point (300, 200))) = [(100, 100)] /\
  keypoints (undo_st (handle_right_click (handle_point_click one_point (300, 200)))) =
    [(100, 100); (300, 200)].
Proof.
  destruct (click_add_then_right_click one_point (300, 200) (300, 200)) as (H1 & _ & _ & H4);
    [reflexivity | vm_compute; reflexivity |].
  split; [exact H1 | exact H4].
Defined.

Lemma digits_all (u : Decimal.uint) :
  Forall (fun c => is_digit c = true) (list_ascii_of_string (NilEmpty.string_of_uint u)).
Proof. induction u; simpl; constructor; auto. Qed.

Lemma str_of_int_chars (z : Z) :
  Forall (fun c => is_digit c = true \/ c = "-"%char) (str_of_int z).
Proof.
  unfold str_of_int. destruct (Z.to_int z) as [u|u]; simpl.
  - eapply Forall_impl; [apply digits_all | auto].
  - constructor; [auto|]. eapply Forall_impl; [apply digits_all | auto].
Qed.

Lemma str_of_int_avoid (q : ascii -> bool) (z : Z) :
  q "-"%char = false -> (forall c, is_digit c = true -> q c = false) ->
  Forall (fun c => q c = false) (str_of_int z).
Proof.
  intros Hm Hd. eapply Forall_impl; [apply str_of_int_chars|].
  intros c [Hc | ->]; auto.
Qed.

Lemma digit_eqb (k c : ascii) : is_digit k = false -> is_digit c = true -> Ascii.eqb k c = false.
Proof. intros Hk Hc. destruct (Ascii.eqb_spec k c); [subst; congruence | reflexivity]. Qed.

Lemma digit_not_space (c : ascii) : is_digit c = true -> py_space c = false.
Proof.
  unfold is_digit, py_space. intros H. apply andb_true_iff in H as [H1 H2].
  apply Nat.leb_le in H1, H2.
  destruct (Nat.eqb_spec (nat_of_ascii c) 32), (Nat.leb_spec 9 (nat_of_ascii c)),
    (Nat.leb_spec (nat_of_ascii c) 13), (Nat.leb_spec 28 (nat_of_ascii c)),
    (Nat.leb_spec (nat_of_ascii c) 31); simpl; lia.
Qed.

Lemma strip_front_app (p : ascii -> bool) (l1 l2 : pystr) :
  Forall (fun c => p c = false) l1 -> l1 <> [] -> strip_front p (l1 ++ l2) = l1 ++ l2.
Proof. destruct l1 as [|c l1]; [congruence|]. intros Hf _. inversion Hf; subst. simpl. now rewrite H1. Qed.

Lemma strip_front_all (p : ascii -> bool) (l : pystr) :
  Forall (fun c => p c = false) l -> strip_front p l = l.
Proof. destruct 1 as [|c l Hc _]; [reflexivity|]. simpl. now rewrite Hc. Qed.

Lemma strip_by_id (p : ascii -> bool) (l : pystr) :
  Forall (fun c => p c = false) l -> strip_by p l = l.
Proof.
  intros Hf. unfold strip_by.
  rewrite (strip_front_all p l Hf), strip_front_all by (apply Forall_rev; exact Hf).
  apply rev_involutive.
Qed.

Lemma under_digits_all (l : pystr) : Forall (fun c => is_digit c = true) l -> under_digits l = true.
Proof.
  induction 1 as [|c l Hc _ IH]; [reflexivity|]. simpl.
  rewrite (Ascii.eqb_sym c), (digit_eqb "_" c) by (auto; reflexivity). now rewrite Hc, IH.
Qed.

Lemma filter_digits (l : pystr) :
  Forall (fun c => is_digit c = true) l ->
  List.filter (fun c => negb (Ascii.eqb c "_")) l = l.
Proof.
  induction 1 as [|c l Hc _ IH]; [reflexivity|]. simpl.
  rewrite (Ascii.eqb_sym c), (digit_eqb "_" c) by (auto; reflexivity). simpl. now rewrite IH.
Qed.

Lemma py_int_of_str_uint (neg : bool) (u : Decimal.uint) :
  u <> Decimal.Nil ->
  py_int_of_str ((if neg then ["-"%char] else []) ++ list_ascii_of_string (NilEmpty.string_of_uint u))
  = Some (if neg then - Z.of_uint u else Z.of_uint u).
Proof.
  intros Hu. pose proof (digits_all u) as Hd.
  set (ds := list_ascii_of_string (NilEmpty.string_of_uint u)) in *.
  assert (Hne : exists c r, ds = c :: r) by (destruct u; try congruence; eexists _, _; reflexivity).
  destruct Hne as (c & r & Hcr).
  unfold py_int_of_str. rewrite strip_by_id.
  2:{ assert (Hs : Forall (fun c => py_space c = false) ds).
      { eapply Forall_impl; [exact Hd|]. intros; apply digit_not_space; auto. }
      destruct neg; simpl; [constructor; [reflexivity | exact Hs] | exact Hs]. }
  assert (Hc : is_digit c = true) by (rewrite Hcr in Hd; inversion Hd; auto).
  assert (Hbody : is_digit c && under_digits r = true).
  { rewrite Hc. apply under_digits_all. rewrite Hcr in Hd. inversion Hd; auto. }
  assert (Hval : NilEmpty.uint_of_string
                   (string_of_list_ascii (List.filter (fun c => negb (Ascii.eqb c "_")) ds)) = Some u).
  { rewrite filter_digits by exact Hd. subst ds.
    rewrite string_of_list_ascii_of_string. apply NilEmpty.usu. }
  rewrite Hcr in Hval. destruct neg; rewrite Hcr;
    cbn -[List.filter NilEmpty.uint_of_string string_of_list_ascii under_digits is_digit].
  - rewrite Hbody. now rewrite Hval.
  - rewrite (Ascii.eqb_sym c "-"), (Ascii.eqb_sym c "+"), !(digit_eqb _ c) by (auto; reflexivity).
    rewrite Hbody. now rewrite Hval.
Qed.

Lemma py_int_of_str_of_int (z : Z) : py_int_of_str (str_of_int z) = Some z.
Proof.
  rewrite <- (DecimalZ.of_to z) at 2. unfold str_of_int.
  destruct z as [|p|p]; simpl Z.to_int.
  - apply (py_int_of_str_uint false (Decimal.D0 Decimal.Nil)). discriminate.
  - apply (py_int_of_str_uint false). apply DecimalPos.Unsigned.to_uint_nonnil.
  - apply (py_int_of_str_uint true). apply DecimalPos.Unsigned.to_uint_nonnil.
Qed.

Lemma is_prefix_app (p b : pystr) : is_prefix p (p ++ b) = true.
Proof. induction p as [|a p IH]; [reflexivity|]. simpl. now rewrite Ascii.eqb_refl, IH. Qed.

Lemma split_go_nosep (a : ascii) (sep' l : pystr) :
  Forall (fun c => Ascii.eqb a c = false) l ->
  forall f cur, split_go f (a :: sep') l cur = [cur ++ l].
Proof.
  induction 1 as [|c l Hc _ IH]; intros [|f] cur; simpl; try reflexivity.
  - now rewrite app_nil_r.
  - rewrite Hc. simpl. rewrite IH. now rewrite <- app_assoc.
Qed.

Lemma split_go_at (a : ascii) (sep' l b : pystr) :
  Forall (fun c => Ascii.eqb a c = false) l ->
  forall f cur, (length l < f)%nat ->
  split_go f (a :: sep') (l ++ (a :: sep') ++ b) cur
  = (cur ++ l) :: split_go (f - S (length l)) (a :: sep') b [].
Proof.
  induction 1 as [|c l Hc _ IH]; intros [|f] cur Hf; simpl in *; try lia.
  - rewrite Ascii.eqb_refl, is_prefix_app. simpl.
    rewrite drop_app_length, app_nil_r. now rewrite Nat.sub_0_r.
  - rewrite Hc. simpl. rewrite IH by lia. now rewrite <- app_assoc.
Qed.

Lemma parse_item_text (i : Z) (p : point) : parse_item (item_text i p) = Some p.
Proof.
  destruct p as [x y].
  set (sx := str_of_int x). set (sy := str_of_int y).
  set (m0 := sx ++ [","; " "]%char ++ sy).
  assert (Hit : item_text i (x, y) = str_of_int i ++ [":"; " "]%char ++ ("("%char :: m0 ++ [")"%char])).
  { unfold item_text, m0. simpl. now rewrite <- !app_assoc. }
  unfold parse_item. rewrite Hit. unfold py_split at 1.
  rewrite split_go_at.
  2:{ apply str_of_int_avoid; [reflexivity|]. intros c Hc. now apply digit_eqb. }
  2:{ rewrite !length_app. simpl. lia. }
  assert (Hcolon : Forall (fun c => Ascii.eqb ":" c = false) ("("%char :: m0 ++ [")"%char])).
  { unfold m0, sx, sy.
    repeat first [ apply Forall_app_2 | apply Forall_cons_2 | apply Forall_nil_2 | reflexivity
                 | apply str_of_int_avoid; [reflexivity | intros c Hc; now apply digit_eqb] ]. }
  rewrite split_go_nosep by exact Hcolon. simpl nth_error. cbv beta iota.
  set (paren := fun c => existsb (Ascii.eqb c) ["("; ")"]%char).
  assert (Hm0 : Forall (fun c => paren c = false) m0).
  { unfold m0, sx, sy.
    repeat first [ apply Forall_app_2 | apply Forall_cons_2 | apply Forall_nil_2 | reflexivity
                 | apply str_of_int_avoid; [reflexivity | intros c Hc; unfold paren; simpl;
                     rewrite !(Ascii.eqb_sym c), !(digit_eqb _ c) by (auto; reflexivity); reflexivity] ]. }
  assert (Hstrip : py_strip ["("; ")"]%char ("("%char :: m0 ++ [")"%char]) = m0).
  { unfold py_strip, strip_by. fold paren.
    change (strip_front paren ("("%char :: m0 ++ [")"%char])) with (strip_front paren (m0 ++ [")"%char])).
    rewrite strip_front_app by (auto; unfold m0; destruct sx; discriminate).
    rewrite rev_unit. simpl strip_front.
    rewrite strip_front_all by (apply Forall_rev; exact Hm0).
    apply rev_involutive. }
  rewrite Hstrip.
  unfold py_split. unfold m0 at 2.
  rewrite split_go_at.
  2:{ apply str_of_int_avoid; [reflexivity|]. intros c Hc. now apply digit_eqb. }
  2:{ unfold m0. rewrite !length_app. simpl. lia. }
  rewrite split_go_nosep.
  2:{ apply str_of_int_avoid; [reflexivity|]. intros c Hc. now apply digit_eqb. }
  simpl. unfold sx, sy. now rewrite !py_int_of_str_of_int.
Qed.

(** [MainWindow.on_keypoint_order_changed] reads back the rows written
    by [MainWindow.update_keypoint_list] in any order: for rows taken (and
    possibly repeated or dropped) by their positions [order], the new
    keypoint sequence is the keypoints at those positions, negative
    coordinates included. *)
Theorem keypoint_list_reorder_round_trip (kps : list point) (order : list nat) :
  on_keypoint_order_changed (omap (fun j => update_keypoint_list kps !! j) order)
  = Some (omap (fun j => kps !! j) order).
Proof.
  unfold on_keypoint_order_changed, update_keypoint_list.
  induction order as [|j order IH]; [reflexivity|]. simpl.
  rewrite list_lookup_imap.
  destruct (kps !! j) as [p|]; simpl; [|exact IH].
  rewrite parse_item_text.
  change (list_omap nat pystr ?f order) with (omap f order).
  change (list_omap nat point ?f order) with (omap f order).
  rewrite IH. reflexivity.
Qed.
